(** * A shallow embedding of the Haiku 9P2000.L client

    The development follows the layering of the sources:
    [P9Buffer] and [P9Message] (9p_message.cpp), [FidPool], [TagPool] and
    [P9Client] (9p_client.cpp), [Volume] (Volume.cpp) and [Inode]
    (Inode.cpp).  Integers of the C++ code are modelled as [Z] with the
    wrap-around of their width written out, byte buffers as [list Z]
    updated by index, C strings as the list of their bytes. *)

From stdpp Require Import base tactics option list numbers.
From Stdlib Require Import ZArith Lia.

#[local] Open Scope Z_scope.

(** ** Status codes (the [status_t] values the sources return) *)

Inductive status_t : Set :=
  | B_OK | B_ERROR | B_NO_MEMORY | B_NO_INIT | B_BAD_VALUE
  | B_BUFFER_OVERFLOW | B_NAME_TOO_LONG | B_NOT_SUPPORTED
  | B_ENTRY_NOT_FOUND | B_PERMISSION_DENIED | B_IO_ERROR | B_DEV_NOT_READY
  | B_FILE_EXISTS | B_CROSS_DEVICE_LINK | B_NOT_A_DIRECTORY
  | B_IS_A_DIRECTORY | B_NO_MORE_FDS | B_DEVICE_FULL | B_READ_ONLY_DEVICE
  | B_DIRECTORY_NOT_EMPTY | B_DEVICE_NOT_FOUND.

#[global] Instance status_t_eq_dec : EqDecision status_t.
Proof. solve_decision. Defined.

(** [status == B_OK] *)
Definition is_ok (s : status_t) : bool :=
  match s with B_OK => true | _ => false end.

(** ** Machine integers *)

Definition uint8 (x : Z) : Z := x mod 2 ^ 8.
Definition uint16 (x : Z) : Z := x mod 2 ^ 16.
Definition uint32 (x : Z) : Z := x mod 2 ^ 32.
Definition uint64 (x : Z) : Z := x mod 2 ^ 64.

(** ** Protocol constants (9p.h) *)

Definition P9_DEFAULT_MSIZE : Z := 8192.
Definition P9_MAX_MSIZE : Z := 65536.
Definition P9_NOTAG : Z := 2 ^ 16 - 1.
Definition P9_NOFID : Z := 2 ^ 32 - 1.
Definition P9_NONUNAME : Z := 2 ^ 32 - 1.
Definition P9_HEADER_SIZE : Z := 7.

Definition P9_RLERROR : Z := 7.
Definition P9_TSTATFS : Z := 8.
Definition P9_RSTATFS : Z := 9.
Definition P9_TLOPEN : Z := 12.
Definition P9_RLOPEN : Z := 13.
Definition P9_TLCREATE : Z := 14.
Definition P9_RLCREATE : Z := 15.
Definition P9_TSYMLINK : Z := 16.
Definition P9_RSYMLINK : Z := 17.
Definition P9_TREADLINK : Z := 22.
Definition P9_RREADLINK : Z := 23.
Definition P9_TGETATTR : Z := 24.
Definition P9_RGETATTR : Z := 25.
Definition P9_TSETATTR : Z := 26.
Definition P9_RSETATTR : Z := 27.
Definition P9_TREADDIR : Z := 40.
Definition P9_RREADDIR : Z := 41.
Definition P9_TFSYNC : Z := 50.
Definition P9_RFSYNC : Z := 51.
Definition P9_TLINK : Z := 70.
Definition P9_RLINK : Z := 71.
Definition P9_TMKDIR : Z := 72.
Definition P9_RMKDIR : Z := 73.
Definition P9_TRENAMEAT : Z := 74.
Definition P9_RRENAMEAT : Z := 75.
Definition P9_TUNLINKAT : Z := 76.
Definition P9_RUNLINKAT : Z := 77.
Definition P9_TVERSION : Z := 100.
Definition P9_RVERSION : Z := 101.
Definition P9_TATTACH : Z := 104.
Definition P9_RATTACH : Z := 105.
Definition P9_TWALK : Z := 110.
Definition P9_RWALK : Z := 111.
Definition P9_TREAD : Z := 116.
Definition P9_RREAD : Z := 117.
Definition P9_TWRITE : Z := 118.
Definition P9_RWRITE : Z := 119.
Definition P9_TCLUNK : Z := 120.
Definition P9_RCLUNK : Z := 121.
Definition P9_TREMOVE : Z := 122.
Definition P9_RREMOVE : Z := 123.

Definition P9_QTDIR : Z := 128.
Definition P9_QTSYMLINK : Z := 2.
Definition P9_OREAD : Z := 0.
Definition P9_GETATTR_BASIC : Z := 2047.
Definition P9_GETATTR_ALL : Z := 16383.

Record P9Qid : Set := mkQid { qid_type : Z; qid_version : Z; qid_path : Z }.

Record P9Attr : Set := mkAttr {
  attr_valid : Z; attr_qid : P9Qid; attr_mode : Z; attr_uid : Z;
  attr_gid : Z; attr_nlink : Z; attr_rdev : Z; attr_size : Z;
  attr_blksize : Z; attr_blocks : Z;
  attr_atime_sec : Z; attr_atime_nsec : Z;
  attr_mtime_sec : Z; attr_mtime_nsec : Z;
  attr_ctime_sec : Z; attr_ctime_nsec : Z;
  attr_btime_sec : Z; attr_btime_nsec : Z;
  attr_gen : Z; attr_data_version : Z }.

Record P9StatFS : Set := mkStatFS {
  sfs_type : Z; sfs_bsize : Z; sfs_blocks : Z; sfs_bfree : Z;
  sfs_bavail : Z; sfs_files : Z; sfs_ffree : Z; sfs_fsid : Z;
  sfs_namelen : Z }.

(** ** C strings

    A [const char*] is modelled by the bytes it points to; the string it
    denotes ends before the first NUL. *)

Definition cstring := list Z.

Fixpoint c_str (s : cstring) : list Z :=
  match s with
  | [] => []
  | b :: s' => if b =? 0 then [] else b :: c_str s'
  end.

Definition strlen (s : cstring) : Z := Z.of_nat (length (c_str s)).

(** [strcmp(a, b) == 0] *)
Definition streq (a b : cstring) : bool := bool_decide (c_str a = c_str b).

(** The maximal runs of bytes other than [sep] in [s], in order ([cur] is
    the run being read): what [strtok_r] yields for a one-byte delimiter,
    and what the scanning loops of [P9Client::Walk] collect. *)
Fixpoint tokens (sep : Z) (s : list Z) (cur : list Z) : list cstring :=
  match s with
  | [] => match cur with [] => [] | _ => [cur] end
  | b :: s' =>
      if b =? sep then
        match cur with
        | [] => tokens sep s' []
        | _ => cur :: tokens sep s' []
        end
      else tokens sep s' (cur ++ [b])
  end.

(** ** Little-endian byte order and raw memory *)

Fixpoint le_bytes (n : nat) (v : Z) : list Z :=
  match n with
  | O => []
  | S n' => v mod 256 :: le_bytes n' (v / 256)
  end.

Fixpoint le_value (bs : list Z) : Z :=
  match bs with
  | [] => 0
  | b :: bs' => b + 256 * le_value bs'
  end.

(** [memcpy(mem + pos, src, |src|)] *)
Fixpoint memcpy (mem : list Z) (pos : nat) (src : list Z) : list Z :=
  match src with
  | [] => mem
  | b :: src' => memcpy (<[pos := b]> mem) (S pos) src'
  end.

(** The [n] bytes of [mem] starting at [pos]. *)
Definition peek (mem : list Z) (pos n : nat) : list Z := take n (drop pos mem).

(** ** P9Buffer: the bounded cursor of 9p_message.cpp *)

Module P9Buffer.

Record t : Set := mk {
    fBuffer : list Z;
    fCapacity : Z;
    fWritePos : Z;
    fReadPos : Z }.

Definition new (buffer : list Z) (capacity : Z) : t := mk buffer capacity 0 0.

Definition Reset (b : t) : t := mk (fBuffer b) (fCapacity b) 0 0.
Definition ResetRead (b : t) : t := mk (fBuffer b) (fCapacity b) (fWritePos b) 0.
Definition Size (b : t) : Z := fWritePos b.
Definition Capacity (b : t) : Z := fCapacity b.
Definition ReadRemaining (b : t) : Z := fWritePos b - fReadPos b.
Definition ReadPosition (b : t) : Z := fReadPos b.
Definition SetSize (size : Z) (b : t) : t :=
    mk (fBuffer b) (fCapacity b) size (fReadPos b).

  (** Store [src] at the write position and advance it by [n]. *)
Definition store (src : list Z) (n : Z) (b : t) : t :=
    mk (memcpy (fBuffer b) (Z.to_nat (fWritePos b)) src)
       (fCapacity b) (fWritePos b + n) (fReadPos b).

  (** The [n] bytes at the read position. *)
Definition load (n : Z) (b : t) : list Z :=
    peek (fBuffer b) (Z.to_nat (fReadPos b)) (Z.to_nat n).

Definition advance (n : Z) (b : t) : t :=
    mk (fBuffer b) (fCapacity b) (fWritePos b) (fReadPos b + n).

Definition WriteUint8 (value : Z) (b : t) : status_t * t :=
    if fWritePos b + 1 >? fCapacity b then (B_BUFFER_OVERFLOW, b)
    else (B_OK, store (le_bytes 1 value) 1 b).

Definition WriteUint16 (value : Z) (b : t) : status_t * t :=
    if fWritePos b + 2 >? fCapacity b then (B_BUFFER_OVERFLOW, b)
    else (B_OK, store (le_bytes 2 value) 2 b).

Definition WriteUint32 (value : Z) (b : t) : status_t * t :=
    if fWritePos b + 4 >? fCapacity b then (B_BUFFER_OVERFLOW, b)
    else (B_OK, store (le_bytes 4 value) 4 b).

Definition WriteUint64 (value : Z) (b : t) : status_t * t :=
    if fWritePos b + 8 >? fCapacity b then (B_BUFFER_OVERFLOW, b)
    else (B_OK, store (le_bytes 8 value) 8 b).

  (** [WriteString(str, len)]: [len] bytes of [str] after a 16-bit length. *)
Definition WriteStringLen (str : list Z) (len : Z) (b : t) : status_t * t :=
    if fWritePos b + 2 + len >? fCapacity b then (B_BUFFER_OVERFLOW, b)
    else
      let '(status, b) := WriteUint16 len b in
      if negb (is_ok status) then (status, b)
      else if len >? 0 then (B_OK, store (take (Z.to_nat len) str) len b)
      else (B_OK, b).

  (** [WriteString(str)]: the length is [strlen] narrowed to [uint16]; a
      NULL [str] is written like the empty string. *)
Definition WriteString (str : cstring) (b : t) : status_t * t :=
    let len := uint16 (strlen str) in
    WriteStringLen (c_str str) len b.

Definition WriteData (data : list Z) (len : Z) (b : t) : status_t * t :=
    if fWritePos b + 4 + len >? fCapacity b then (B_BUFFER_OVERFLOW, b)
    else
      let '(status, b) := WriteUint32 len b in
      if negb (is_ok status) then (status, b)
      else if len >? 0 then (B_OK, store (take (Z.to_nat len) data) len b)
      else (B_OK, b).

Definition WriteQid (qid : P9Qid) (b : t) : status_t * t :=
    let '(status, b) := WriteUint8 (qid_type qid) b in
    if negb (is_ok status) then (status, b) else
    let '(status, b) := WriteUint32 (qid_version qid) b in
    if negb (is_ok status) then (status, b) else
    WriteUint64 (qid_path qid) b.

  (** Readers return the status, the value stored through the reference
      parameter and the buffer; on failure the reference is not written
      and the value component is a placeholder no caller looks at. *)

Definition ReadUint8 (b : t) : status_t * Z * t :=
    if fReadPos b + 1 >? fWritePos b then (B_BUFFER_OVERFLOW, 0, b)
    else (B_OK, le_value (load 1 b), advance 1 b).

Definition ReadUint16 (b : t) : status_t * Z * t :=
    if fReadPos b + 2 >? fWritePos b then (B_BUFFER_OVERFLOW, 0, b)
    else (B_OK, le_value (load 2 b), advance 2 b).

Definition ReadUint32 (b : t) : status_t * Z * t :=
    if fReadPos b + 4 >? fWritePos b then (B_BUFFER_OVERFLOW, 0, b)
    else (B_OK, le_value (load 4 b), advance 4 b).

Definition ReadUint64 (b : t) : status_t * Z * t :=
    if fReadPos b + 8 >? fWritePos b then (B_BUFFER_OVERFLOW, 0, b)
    else (B_OK, le_value (load 8 b), advance 8 b).

  (** [ReadString(buffer, bufferSize, len)]: the destination receives the
      [len] bytes and a terminating NUL. *)
Definition ReadString (bufferSize : Z) (b : t) : status_t * cstring * t :=
    let '(status, len, b) := ReadUint16 b in
    if negb (is_ok status) then (status, [], b) else
    if fReadPos b + len >? fWritePos b then (B_BUFFER_OVERFLOW, [], b) else
    if len >=? bufferSize then (B_NAME_TOO_LONG, [], b) else
    (B_OK, load len b ++ [0], advance len b).

  (** [ReadStringAlloc(str, len)]: [str] is what [*str] holds, [None]
      for NULL, and the result carries what it and [len] hold
      afterwards; [allocated] tells whether [malloc] returns memory. *)
Definition ReadStringAlloc (allocated : bool) (str : option cstring) (b : t)
    : status_t * option cstring * Z * t :=
    let '(status, len, b) := ReadUint16 b in
    if negb (is_ok status) then (status, str, len, b) else
    if fReadPos b + len >? fWritePos b then (B_BUFFER_OVERFLOW, str, len, b) else
    if negb allocated then (B_NO_MEMORY, None, len, b) else
    (B_OK, Some (load len b ++ [0]), len, advance len b).

Definition ReadData (len : Z) (b : t) : status_t * list Z * t :=
    if fReadPos b + len >? fWritePos b then (B_BUFFER_OVERFLOW, [], b)
    else (B_OK, load len b, advance len b).

Definition ReadQid (b : t) : status_t * P9Qid * t :=
    let '(status, type, b) := ReadUint8 b in
    if negb (is_ok status) then (status, mkQid 0 0 0, b) else
    let '(status, version, b) := ReadUint32 b in
    if negb (is_ok status) then (status, mkQid type 0 0, b) else
    let '(status, path, b) := ReadUint64 b in
    (status, mkQid type version path, b).

Definition Skip (bytes : Z) (b : t) : status_t * t :=
    if fReadPos b + bytes >? fWritePos b then (B_BUFFER_OVERFLOW, b)
    else (B_OK, advance bytes b).

End P9Buffer.

(** ** P9Message: frame assembly, request builders, response parsers *)

Module P9Message.

  (** [fData] is the storage the embedded [fBuffer] points into, so the
      bytes live in [fBuffer]; [fOwnsBuffer] records that [fData] has been
      allocated. *)
Record t : Set := mk {
    fMsize : Z;
    fBuffer : P9Buffer.t;
    fType : Z;
    fTag : Z;
    fOwnsBuffer : bool }.

Definition new (msize : Z) : t := mk msize (P9Buffer.new [] 0) 0 0 false.

Definition with_buffer (b : P9Buffer.t) (m : t) : t :=
    mk (fMsize m) b (fType m) (fTag m) (fOwnsBuffer m).

  (** [Init]: allocate [fMsize] bytes on first use, then point a fresh
      cursor at them.  Allocation is taken to succeed. *)
Definition Init (m : t) : status_t * t :=
    let data :=
      if fOwnsBuffer m then P9Buffer.fBuffer (fBuffer m)
      else replicate (Z.to_nat (fMsize m)) 0 in
    (B_OK, mk (fMsize m) (P9Buffer.new data (fMsize m)) (fType m) (fTag m) true).

Definition Reset (m : t) : t :=
    mk (fMsize m) (P9Buffer.Reset (fBuffer m)) 0 0 (fOwnsBuffer m).

Definition Size (m : t) : Z := P9Buffer.Size (fBuffer m).

  (** The [Size()] bytes at [Data()]: what is handed to the transport. *)
Definition Data (m : t) : list Z :=
    take (Z.to_nat (Size m)) (P9Buffer.fBuffer (fBuffer m)).

Definition Type_ (m : t) : Z := fType m.

Definition WriteHeader (type tag : Z) (m : t) : status_t * t :=
    let m := mk (fMsize m) (fBuffer m) type tag (fOwnsBuffer m) in
    let '(status, b) := P9Buffer.WriteUint32 0 (fBuffer m) in
    if negb (is_ok status) then (status, with_buffer b m) else
    let '(status, b) := P9Buffer.WriteUint8 type b in
    if negb (is_ok status) then (status, with_buffer b m) else
    let '(status, b) := P9Buffer.WriteUint16 tag b in
    (status, with_buffer b m).

  (** [memcpy(fData, &size, 4)] with [size] the current write position. *)
Definition FinalizeHeader (m : t) : status_t * t :=
    let b := fBuffer m in
    let size := uint32 (P9Buffer.Size b) in
    (B_OK, with_buffer
             (P9Buffer.mk (memcpy (P9Buffer.fBuffer b) 0 (le_bytes 4 size))
                (P9Buffer.fCapacity b) (P9Buffer.fWritePos b)
                (P9Buffer.fReadPos b)) m).

  (** [ReadHeader(type, tag, size)] *)
Definition ReadHeader (m : t) : status_t * (Z * Z * Z) * t :=
    let b := P9Buffer.ResetRead (fBuffer m) in
    let '(status, size, b) := P9Buffer.ReadUint32 b in
    if negb (is_ok status) then (status, (0, 0, 0), with_buffer b m) else
    let '(status, type, b) := P9Buffer.ReadUint8 b in
    if negb (is_ok status) then (status, (0, 0, size), with_buffer b m) else
    let '(status, tag, b) := P9Buffer.ReadUint16 b in
    if negb (is_ok status) then (status, (type, 0, size), with_buffer b m) else
    (B_OK, (type, tag, size),
     mk (fMsize m) b type tag (fOwnsBuffer m)).

  (** A field writer applied to the embedded buffer. *)
Definition put (w : P9Buffer.t -> status_t * P9Buffer.t) (m : t)
    : status_t * t :=
    let '(status, b) := w (fBuffer m) in (status, with_buffer b m).

  (** The builders write their fields in order and stop at the first
      failure; [fields] is that sequence. *)
Fixpoint fields (ws : list (P9Buffer.t -> status_t * P9Buffer.t)) (m : t)
    : status_t * t :=
    match ws with
    | [] => (B_OK, m)
    | w :: ws' =>
        let '(status, m) := put w m in
        if negb (is_ok status) then (status, m) else fields ws' m
    end.

Definition build (type tag : Z)
      (ws : list (P9Buffer.t -> status_t * P9Buffer.t)) (m : t)
    : status_t * t :=
    let m := Reset m in
    let '(status, m) := WriteHeader type tag m in
    if negb (is_ok status) then (status, m) else
    let '(status, m) := fields ws m in
    if negb (is_ok status) then (status, m) else
    FinalizeHeader m.

Definition BuildVersion (tag msize : Z) (version : cstring) :=
    build P9_TVERSION tag
      [P9Buffer.WriteUint32 msize; P9Buffer.WriteString version].

Definition BuildAttach (tag fid afid : Z) (uname aname : cstring) (n_uname : Z) :=
    build P9_TATTACH tag
      [P9Buffer.WriteUint32 fid; P9Buffer.WriteUint32 afid;
       P9Buffer.WriteString uname; P9Buffer.WriteString aname;
       P9Buffer.WriteUint32 n_uname].

  (** The loop over [wnames] writes the first [nwname] names. *)
Definition BuildWalk (tag fid newfid nwname : Z) (wnames : list cstring) :=
    build P9_TWALK tag
      ([P9Buffer.WriteUint32 fid; P9Buffer.WriteUint32 newfid;
        P9Buffer.WriteUint16 nwname]
       ++ map P9Buffer.WriteString (take (Z.to_nat nwname) wnames)).

Definition BuildLopen (tag fid flags : Z) :=
    build P9_TLOPEN tag [P9Buffer.WriteUint32 fid; P9Buffer.WriteUint32 flags].

Definition BuildLcreate (tag fid : Z) (name : cstring) (flags mode gid : Z) :=
    build P9_TLCREATE tag
      [P9Buffer.WriteUint32 fid; P9Buffer.WriteString name;
       P9Buffer.WriteUint32 flags; P9Buffer.WriteUint32 mode;
       P9Buffer.WriteUint32 gid].

Definition BuildRead (tag fid offset count : Z) :=
    build P9_TREAD tag
      [P9Buffer.WriteUint32 fid; P9Buffer.WriteUint64 offset;
       P9Buffer.WriteUint32 count].

  (** The payload of [Twrite]: a bounds check, a [memcpy] at the write
      position, then one [WriteUint8] per byte to advance the cursor. *)
Definition write_payload (data : list Z) (count : Z) (b : P9Buffer.t)
    : status_t * P9Buffer.t :=
    if count >? 0 then
      if P9Buffer.Size b + count >? P9Buffer.Capacity b
      then (B_BUFFER_OVERFLOW, b)
      else
        let src := take (Z.to_nat count) data in
        let b := P9Buffer.mk
                   (memcpy (P9Buffer.fBuffer b)
                      (Z.to_nat (P9Buffer.fWritePos b)) src)
                   (P9Buffer.fCapacity b) (P9Buffer.fWritePos b)
                   (P9Buffer.fReadPos b) in
        (B_OK, fold_left (fun b x => snd (P9Buffer.WriteUint8 x b)) src b)
    else (B_OK, b).

Definition BuildWrite (tag fid offset : Z) (data : list Z) (count : Z) :=
    build P9_TWRITE tag
      [P9Buffer.WriteUint32 fid; P9Buffer.WriteUint64 offset;
       P9Buffer.WriteUint32 count; write_payload data count].

Definition BuildClunk (tag fid : Z) :=
    build P9_TCLUNK tag [P9Buffer.WriteUint32 fid].

Definition BuildRemove (tag fid : Z) :=
    build P9_TREMOVE tag [P9Buffer.WriteUint32 fid].

Definition BuildGetattr (tag fid mask : Z) :=
    build P9_TGETATTR tag [P9Buffer.WriteUint32 fid; P9Buffer.WriteUint64 mask].

Definition BuildSetattr (tag fid valid mode uid gid size
      atime_sec atime_nsec mtime_sec mtime_nsec : Z) :=
    build P9_TSETATTR tag
      [P9Buffer.WriteUint32 fid; P9Buffer.WriteUint32 valid;
       P9Buffer.WriteUint32 mode; P9Buffer.WriteUint32 uid;
       P9Buffer.WriteUint32 gid; P9Buffer.WriteUint64 size;
       P9Buffer.WriteUint64 atime_sec; P9Buffer.WriteUint64 atime_nsec;
       P9Buffer.WriteUint64 mtime_sec; P9Buffer.WriteUint64 mtime_nsec].

Definition BuildReaddir (tag fid offset count : Z) :=
    build P9_TREADDIR tag
      [P9Buffer.WriteUint32 fid; P9Buffer.WriteUint64 offset;
       P9Buffer.WriteUint32 count].

Definition BuildMkdir (tag dfid : Z) (name : cstring) (mode gid : Z) :=
    build P9_TMKDIR tag
      [P9Buffer.WriteUint32 dfid; P9Buffer.WriteString name;
       P9Buffer.WriteUint32 mode; P9Buffer.WriteUint32 gid].

Definition BuildUnlinkat (tag dfid : Z) (name : cstring) (flags : Z) :=
    build P9_TUNLINKAT tag
      [P9Buffer.WriteUint32 dfid; P9Buffer.WriteString name;
       P9Buffer.WriteUint32 flags].

Definition BuildRenameat (tag olddirfid : Z) (oldname : cstring)
      (newdirfid : Z) (newname : cstring) :=
    build P9_TRENAMEAT tag
      [P9Buffer.WriteUint32 olddirfid; P9Buffer.WriteString oldname;
       P9Buffer.WriteUint32 newdirfid; P9Buffer.WriteString newname].

Definition BuildStatfs (tag fid : Z) :=
    build P9_TSTATFS tag [P9Buffer.WriteUint32 fid].

Definition BuildFsync (tag fid datasync : Z) :=
    build P9_TFSYNC tag [P9Buffer.WriteUint32 fid; P9Buffer.WriteUint32 datasync].

Definition BuildReadlink (tag fid : Z) :=
    build P9_TREADLINK tag [P9Buffer.WriteUint32 fid].

Definition BuildSymlink (tag dfid : Z) (name target : cstring) (gid : Z) :=
    build P9_TSYMLINK tag
      [P9Buffer.WriteUint32 dfid; P9Buffer.WriteString name;
       P9Buffer.WriteString target; P9Buffer.WriteUint32 gid].

Definition BuildLink (tag dfid fid : Z) (name : cstring) :=
    build P9_TLINK tag
      [P9Buffer.WriteUint32 dfid; P9Buffer.WriteUint32 fid;
       P9Buffer.WriteString name].

  (** *** Response parsers

      Each returns the status, the values stored through its reference
      parameters and the message with its read cursor moved. *)

Definition get {A} (r : P9Buffer.t -> status_t * A * P9Buffer.t) (m : t)
    : status_t * A * t :=
    let '(status, a, b) := r (fBuffer m) in (status, a, with_buffer b m).

Definition ParseLerror (m : t) : status_t * Z * t :=
    get P9Buffer.ReadUint32 m.

Definition ParseVersion (versionSize : Z) (m : t)
    : status_t * (Z * cstring) * t :=
    let '(status, msize, m) := get P9Buffer.ReadUint32 m in
    if negb (is_ok status) then (status, (msize, []), m) else
    let '(status, version, m) := get (P9Buffer.ReadString versionSize) m in
    (status, (msize, version), m).

Definition ParseAttach (m : t) : status_t * P9Qid * t :=
    get P9Buffer.ReadQid m.

  (** The loop of [ParseWalk]: [n] qids still to read. *)
Fixpoint read_qids (n : nat) (b : P9Buffer.t)
    : status_t * list P9Qid * P9Buffer.t :=
    match n with
    | O => (B_OK, [], b)
    | S n' =>
        let '(status, qid, b) := P9Buffer.ReadQid b in
        if negb (is_ok status) then (status, [], b) else
        let '(status, qids, b) := read_qids n' b in
        (status, qid :: qids, b)
    end.

Definition ParseWalk (maxQids : Z) (m : t)
    : status_t * (Z * list P9Qid) * t :=
    let '(status, nwqid, m) := get P9Buffer.ReadUint16 m in
    if negb (is_ok status) then (status, (nwqid, []), m) else
    if nwqid >? maxQids then (B_BUFFER_OVERFLOW, (nwqid, []), m) else
    let '(status, qids, m) := get (read_qids (Z.to_nat nwqid)) m in
    (status, (nwqid, qids), m).

Definition ParseLopen (m : t) : status_t * (P9Qid * Z) * t :=
    let '(status, qid, m) := get P9Buffer.ReadQid m in
    if negb (is_ok status) then (status, (qid, 0), m) else
    let '(status, iounit, m) := get P9Buffer.ReadUint32 m in
    (status, (qid, iounit), m).

Definition ParseLcreate (m : t) : status_t * (P9Qid * Z) * t :=
    let '(status, qid, m) := get P9Buffer.ReadQid m in
    if negb (is_ok status) then (status, (qid, 0), m) else
    let '(status, iounit, m) := get P9Buffer.ReadUint32 m in
    (status, (qid, iounit), m).

  (** [ParseRead(count, data)]: [data] points at the read position; the
      model returns that position. *)
Definition ParseRead (m : t) : status_t * (Z * Z) * t :=
    let '(status, count, m) := get P9Buffer.ReadUint32 m in
    if negb (is_ok status) then (status, (count, 0), m) else
    (B_OK, (count, P9Buffer.ReadPosition (fBuffer m)), m).

Definition ParseWrite (m : t) : status_t * Z * t :=
    get P9Buffer.ReadUint32 m.

Definition ParseReaddir (m : t) : status_t * (Z * Z) * t :=
    let '(status, count, m) := get P9Buffer.ReadUint32 m in
    if negb (is_ok status) then (status, (count, 0), m) else
    (B_OK, (count, P9Buffer.ReadPosition (fBuffer m)), m).

  (** A run of fixed-width unsigned fields read in order, stopping at the
      first failure: widths in bytes. *)
Fixpoint read_uints (widths : list Z) (b : P9Buffer.t)
    : status_t * list Z * P9Buffer.t :=
    match widths with
    | [] => (B_OK, [], b)
    | w :: ws =>
        let '(status, v, b) :=
          (if w =? 4 then P9Buffer.ReadUint32 b
           else P9Buffer.ReadUint64 b) in
        if negb (is_ok status) then (status, [], b) else
        let '(status, vs, b) := read_uints ws b in
        (status, v :: vs, b)
    end.

Definition ParseGetattr (m : t) : status_t * option P9Attr * t :=
    let '(status, valid, m) := get P9Buffer.ReadUint64 m in
    if negb (is_ok status) then (status, None, m) else
    let '(status, qid, m) := get P9Buffer.ReadQid m in
    if negb (is_ok status) then (status, None, m) else
    let '(status, vs, m) :=
      get (read_uints [4; 4; 4; 8; 8; 8; 8; 8; 8; 8; 8; 8; 8; 8; 8; 8; 8; 8]) m in
    match vs with
    | [mode; uid; gid; nlink; rdev; size; blksize; blocks;
       atime_sec; atime_nsec; mtime_sec; mtime_nsec;
       ctime_sec; ctime_nsec; btime_sec; btime_nsec; gen; data_version] =>
        (status,
         Some (mkAttr valid qid mode uid gid nlink rdev size blksize blocks
                 atime_sec atime_nsec mtime_sec mtime_nsec
                 ctime_sec ctime_nsec btime_sec btime_nsec gen data_version),
         m)
    | _ => (status, None, m)
    end.

Definition ParseStatfs (m : t) : status_t * option P9StatFS * t :=
    let '(status, vs, m) := get (read_uints [4; 4; 8; 8; 8; 8; 8; 8; 4]) m in
    match vs with
    | [type; bsize; blocks; bfree; bavail; files; ffree; fsid; namelen] =>
        (status,
         Some (mkStatFS type bsize blocks bfree bavail files ffree fsid namelen),
         m)
    | _ => (status, None, m)
    end.

Definition ParseMkdir (m : t) : status_t * P9Qid * t :=
    get P9Buffer.ReadQid m.

Definition ParseSymlink (m : t) : status_t * P9Qid * t :=
    get P9Buffer.ReadQid m.

Definition ParseReadlink (targetSize : Z) (m : t) : status_t * cstring * t :=
    get (P9Buffer.ReadString targetSize) m.

End P9Message.

(** ** The handle pools of 9p_client.cpp

    [fBitmap] is the array of 32-bit words; [fBitmap[word]] outside the
    array is not defined by the sources and reads as 0 here, a store
    there is dropped. *)

Definition bitmap_word (bitmap : list Z) (word : Z) : Z :=
  default 0 (bitmap !! Z.to_nat word).

(** [bitmap[word] & (1U << bit)] *)
Definition bitmap_test (bitmap : list Z) (id : Z) : Z :=
  Z.land (bitmap_word bitmap (id / 32)) (Z.shiftl 1 (id mod 32)).

(** [bitmap[word] |= (1U << bit)] *)
Definition bitmap_set (bitmap : list Z) (id : Z) : list Z :=
  <[Z.to_nat (id / 32) :=
      Z.lor (bitmap_word bitmap (id / 32)) (Z.shiftl 1 (id mod 32))]> bitmap.

(** [bitmap[word] &= ~(1U << bit)] *)
Definition bitmap_clear (bitmap : list Z) (id : Z) : list Z :=
  <[Z.to_nat (id / 32) :=
      Z.land (bitmap_word bitmap (id / 32))
             (uint32 (Z.lnot (Z.shiftl 1 (id mod 32))))]> bitmap.

Module FidPool.

Record t : Set := mk {
    fBitmap : list Z;
    fMaxFids : Z;
    fBitmapSize : Z;
    fNextHint : Z }.

Definition new : t := mk [] 0 0 0.

  (** Slot 0 is marked in use and the hint starts at 1.  [calloc] is
      taken to succeed. *)
Definition Init (maxFids : Z) (p : t) : status_t * t :=
    let size := uint32 (maxFids + 31) / 32 in
    let bitmap := replicate (Z.to_nat size) 0 in
    (B_OK, mk (<[0%nat := Z.lor (bitmap_word bitmap 0) 1]> bitmap) maxFids size 1).

  (** The scan of [Allocate]: [n] iterations left, loop counter [i]. *)
Fixpoint scan (n : nat) (i : Z) (p : t) : Z * t :=
    match n with
    | O => (P9_NOFID, p)
    | S n' =>
        let fid := uint32 (fNextHint p + i) mod fMaxFids p in
        if bitmap_test (fBitmap p) fid =? 0 then
          (fid, mk (bitmap_set (fBitmap p) fid) (fMaxFids p) (fBitmapSize p)
                   (uint32 (fid + 1) mod fMaxFids p))
        else scan n' (i + 1) p
    end.

Definition Allocate (p : t) : Z * t := scan (Z.to_nat (fMaxFids p)) 0 p.

Definition Release (fid : Z) (p : t) : t :=
    if fid >=? fMaxFids p then p
    else mk (bitmap_clear (fBitmap p) fid) (fMaxFids p) (fBitmapSize p)
            (fNextHint p).

Definition IsValid (fid : Z) (p : t) : bool :=
    if fid >=? fMaxFids p then false
    else negb (bitmap_test (fBitmap p) fid =? 0).

End FidPool.

Module TagPool.

Record t : Set := mk {
    fBitmap : list Z;
    fMaxTags : Z;
    fBitmapSize : Z;
    fNextHint : Z }.

Definition new : t := mk [] 0 0 0.

  (** [calloc] is taken to succeed. *)
Definition Init (maxTags : Z) (p : t) : status_t * t :=
    let size := (maxTags + 31) / 32 in
    (B_OK, mk (replicate (Z.to_nat size) 0) maxTags size 0).

Fixpoint scan (n : nat) (i : Z) (p : t) : Z * t :=
    match n with
    | O => (P9_NOTAG, p)
    | S n' =>
        let tag := uint16 ((fNextHint p + i) mod fMaxTags p) in
        if bitmap_test (fBitmap p) tag =? 0 then
          (tag, mk (bitmap_set (fBitmap p) tag) (fMaxTags p) (fBitmapSize p)
                   (uint16 ((tag + 1) mod fMaxTags p)))
        else scan n' (i + 1) p
    end.

Definition Allocate (p : t) : Z * t := scan (Z.to_nat (fMaxTags p)) 0 p.

Definition Release (tag : Z) (p : t) : t :=
    if (tag >=? fMaxTags p) || (tag =? P9_NOTAG) then p
    else mk (bitmap_clear (fBitmap p) tag) (fMaxTags p) (fBitmapSize p)
            (fNextHint p).

End TagPool.

(** ** Error and flag conversions (kernel_interface.cpp) *)

Definition p9_error_to_haiku (error : Z) : status_t :=
  if error =? 0 then B_OK
  else if error =? 1 then B_PERMISSION_DENIED
  else if error =? 2 then B_ENTRY_NOT_FOUND
  else if error =? 5 then B_IO_ERROR
  else if error =? 6 then B_DEV_NOT_READY
  else if error =? 13 then B_PERMISSION_DENIED
  else if error =? 17 then B_FILE_EXISTS
  else if error =? 18 then B_CROSS_DEVICE_LINK
  else if error =? 19 then B_DEV_NOT_READY
  else if error =? 20 then B_NOT_A_DIRECTORY
  else if error =? 21 then B_IS_A_DIRECTORY
  else if error =? 22 then B_BAD_VALUE
  else if error =? 23 then B_NO_MORE_FDS
  else if error =? 24 then B_NO_MORE_FDS
  else if error =? 28 then B_DEVICE_FULL
  else if error =? 29 then B_BAD_VALUE
  else if error =? 30 then B_READ_ONLY_DEVICE
  else if error =? 36 then B_NAME_TOO_LONG
  else if error =? 39 then B_DIRECTORY_NOT_EMPTY
  else if error =? 61 then B_ENTRY_NOT_FOUND
  else if error =? 75 then B_BUFFER_OVERFLOW
  else if error =? 95 then B_NOT_SUPPORTED
  else B_ERROR.

(** [O_ACCMODE] is 3 and the Haiku values of [O_RDONLY], [O_WRONLY],
    [O_RDWR] are 0, 1, 2; [O_CREAT], [O_EXCL], [O_TRUNC], [O_APPEND] are
    taken from Haiku's fcntl.h. *)
Definition haiku_to_p9_open_flags (flags : Z) : Z :=
  let acc := Z.land flags 3 in
  let p9flags := if acc =? 0 then 0 else if acc =? 1 then 1
                 else if acc =? 2 then 2 else 0 in
  let p9flags := if Z.land flags 512 =? 0 then p9flags else Z.lor p9flags 64 in
  let p9flags := if Z.land flags 256 =? 0 then p9flags else Z.lor p9flags 128 in
  let p9flags := if Z.land flags 1024 =? 0 then p9flags else Z.lor p9flags 512 in
  let p9flags := if Z.land flags 2048 =? 0 then p9flags else Z.lor p9flags 1024 in
  p9flags.

Definition p9_mode_to_haiku (mode : Z) : Z := mode.
Definition haiku_mode_to_p9 (mode : Z) : Z := uint32 mode.

(** ** The transport interface (transport.h)

    [T] is the state of the transport object behind [fTransport].
    [SendMessage] takes the frame; [ReceiveMessage] takes the capacity of
    the buffer it is handed and yields the frame it stored there. *)

Class P9Transport (T : Type) : Type := {
  SendMessage : T -> list Z -> status_t * T;
  ReceiveMessage : T -> Z -> status_t * list Z * T }.

(** "9P2000.L" *)
Definition P9_VERSION_9P2000_L : cstring := [57; 80; 50; 48; 48; 48; 46; 76].

(** ** P9Client *)

Module P9Client.

  (** [fTransport] records whether the pointer is set; the transport it
      points to is threaded separately. *)
Record t : Set := mk {
    fTransport : bool;
    fFidPool : FidPool.t;
    fTagPool : TagPool.t;
    fMsize : Z;
    fIOUnit : Z;
    fRootFid : Z;
    fConnected : bool }.

Definition new : t :=
    mk false FidPool.new TagPool.new P9_DEFAULT_MSIZE 0 0 false.

Definition with_fidpool (p : FidPool.t) (c : t) : t :=
    mk (fTransport c) p (fTagPool c) (fMsize c) (fIOUnit c) (fRootFid c)
       (fConnected c).
Definition with_tagpool (p : TagPool.t) (c : t) : t :=
    mk (fTransport c) (fFidPool c) p (fMsize c) (fIOUnit c) (fRootFid c)
       (fConnected c).
Definition with_msize (msize : Z) (c : t) : t :=
    mk (fTransport c) (fFidPool c) (fTagPool c) msize (fIOUnit c) (fRootFid c)
       (fConnected c).
Definition with_iounit (iounit : Z) (c : t) : t :=
    mk (fTransport c) (fFidPool c) (fTagPool c) (fMsize c) iounit (fRootFid c)
       (fConnected c).
Definition with_rootfid (fid : Z) (c : t) : t :=
    mk (fTransport c) (fFidPool c) (fTagPool c) (fMsize c) (fIOUnit c) fid
       (fConnected c).
Definition with_connected (b : bool) (c : t) : t :=
    mk (fTransport c) (fFidPool c) (fTagPool c) (fMsize c) (fIOUnit c)
       (fRootFid c) b.
Definition with_transport (b : bool) (c : t) : t :=
    mk b (fFidPool c) (fTagPool c) (fMsize c) (fIOUnit c) (fRootFid c)
       (fConnected c).

  (** [fFidPool.Allocate()], [fFidPool.Release(fid)] and the same for
      tags, on the members of the client. *)
Definition AllocateFid (c : t) : Z * t :=
    let '(fid, p) := FidPool.Allocate (fFidPool c) in (fid, with_fidpool p c).
Definition ReleaseFid (fid : Z) (c : t) : t :=
    with_fidpool (FidPool.Release fid (fFidPool c)) c.
Definition AllocateTag (c : t) : Z * t :=
    let '(tag, p) := TagPool.Allocate (fTagPool c) in (tag, with_tagpool p c).
Definition ReleaseTag (tag : Z) (c : t) : t :=
    with_tagpool (TagPool.Release tag (fTagPool c)) c.

Definition Init (transport : bool) (msize : Z) (c : t) : status_t * t :=
    if negb transport then (B_BAD_VALUE, c) else
    let c := with_msize msize (with_transport true c) in
    let '(status, p) := FidPool.Init 256 (fFidPool c) in
    let c := with_fidpool p c in
    if negb (is_ok status) then (status, c) else
    let '(status, p) := TagPool.Init 256 (fTagPool c) in
    let c := with_tagpool p c in
    if negb (is_ok status) then (status, c) else
    (B_OK, c).

  (** The response object of [DoRequest] once the transport has stored
      [data] in it: a message of capacity [msize] whose size is the
      number of bytes received. *)
Definition response_of (msize : Z) (data : list Z) : P9Message.t :=
    let '(_, response) := P9Message.Init (P9Message.new msize) in
    let frame := take (Z.to_nat msize) data in
    let b := P9Message.fBuffer response in
    P9Message.with_buffer
      (P9Buffer.SetSize (Z.of_nat (length frame))
         (P9Buffer.mk (memcpy (P9Buffer.fBuffer b) 0 frame)
            (P9Buffer.fCapacity b) (P9Buffer.fWritePos b)
            (P9Buffer.fReadPos b)))
      response.

Section WithTransport.

Context {T : Type} `{P9Transport T}.

    (** The value of the local [uint32 error] when [ParseLerror] fails
        and leaves it unwritten. *)
Variable indeterminate : Z.

    (** On failure [*response] is NULL; the model returns an empty
        message that no caller uses.  [new(std::nothrow) P9Message] is
        taken to succeed. *)
Definition DoRequest (request : P9Message.t) (c : t) (w : T)
      : status_t * P9Message.t * T :=
      let '(status, w) := SendMessage w (P9Message.Data request) in
      if negb (is_ok status) then (status, P9Message.new (fMsize c), w) else
      let response := P9Message.new (fMsize c) in
      let '(status, response) := P9Message.Init response in
      if negb (is_ok status) then (status, P9Message.new (fMsize c), w) else
      let received := fMsize c in
      let '(status, data, w) := ReceiveMessage w received in
      if negb (is_ok status) then (status, P9Message.new (fMsize c), w) else
      (B_OK, response_of (fMsize c) data, w).

Definition CheckError (response : P9Message.t) : status_t * P9Message.t :=
      let '(status, (type, tag, size), response) :=
        P9Message.ReadHeader response in
      if negb (is_ok status) then (status, response) else
      if type =? P9_RLERROR then
        let '(status, error, response) := P9Message.ParseLerror response in
        let error := if is_ok status then error else indeterminate in
        (p9_error_to_haiku error, response)
      else (B_OK, response).

Definition WalkPath (fid newfid nwname : Z) (wnames : list cstring)
        (c : t) (w : T) : status_t * (Z * list P9Qid) * t * T :=
      let request := P9Message.new (fMsize c) in
      let '(status, request) := P9Message.Init request in
      if negb (is_ok status) then (status, (0, []), c, w) else
      let '(tag, c) := AllocateTag c in
      let '(status, request) :=
        P9Message.BuildWalk tag fid newfid nwname wnames request in
      if negb (is_ok status) then (status, (0, []), ReleaseTag tag c, w) else
      let '(status, response, w) := DoRequest request c w in
      let c := ReleaseTag tag c in
      if negb (is_ok status) then (status, (0, []), c, w) else
      let '(status, response) := CheckError response in
      if negb (is_ok status) then (status, (0, []), c, w) else
      let type := P9Message.Type_ response in
      if negb (type =? P9_RWALK) then (B_ERROR, (0, []), c, w) else
      let '(status, (nwqid, qids), response) :=
        P9Message.ParseWalk nwname response in
      (status, (nwqid, qids), c, w).

    (** The components of a path: the maximal runs of bytes other than
        '/' (47), in order. *)
Definition components (s : list Z) : list cstring := tokens 47 s [].

    (** [path] is [None] for a NULL pointer.  [nwname] is the 16-bit
        count of the components and [wnames] holds that many of them.
        The second component of the result is what is stored through
        [qid], if anything.  [strdup] and [malloc] are taken to succeed. *)
Definition Walk (fid newfid : Z) (path : option cstring) (c : t) (w : T)
      : status_t * option P9Qid * t * T :=
      let clone :=
        let '(status, _, c, w) := WalkPath fid newfid 0 [] c w in
        (status, None, c, w) in
      match path with
      | None => clone
      | Some path =>
          match c_str path with
          | [] => clone
          | _ =>
              let names := components (c_str path) in
              let nwname := uint16 (Z.of_nat (length names)) in
              if nwname =? 0 then clone else
              let wnames := take (Z.to_nat nwname) names in
              let '(status, (nwqid, qids), c, w) :=
                WalkPath fid newfid nwname wnames c w in
              let qid :=
                if is_ok status && (nwqid >? 0)
                then qids !! Z.to_nat (nwqid - 1) else None in
              if is_ok status && negb (nwqid =? nwname)
              then (B_ENTRY_NOT_FOUND, qid, c, w)
              else (status, qid, c, w)
          end
      end.

Definition Open (fid flags : Z) (c : t) (w : T)
      : status_t * option (P9Qid * Z) * t * T :=
      let request := P9Message.new (fMsize c) in
      let '(status, request) := P9Message.Init request in
      if negb (is_ok status) then (status, None, c, w) else
      let '(tag, c) := AllocateTag c in
      let '(status, request) := P9Message.BuildLopen tag fid flags request in
      if negb (is_ok status) then (status, None, ReleaseTag tag c, w) else
      let '(status, response, w) := DoRequest request c w in
      let c := ReleaseTag tag c in
      if negb (is_ok status) then (status, None, c, w) else
      let '(status, response) := CheckError response in
      if negb (is_ok status) then (status, None, c, w) else
      if negb (P9Message.Type_ response =? P9_RLOPEN)
      then (B_ERROR, None, c, w) else
      let '(status, (respQid, respIounit), response) :=
        P9Message.ParseLopen response in
      if is_ok status then
        (status,
         Some (respQid, if respIounit >? 0 then respIounit else fIOUnit c),
         c, w)
      else (status, None, c, w).

Definition Create (fid : Z) (name : cstring) (flags mode gid : Z)
        (c : t) (w : T) : status_t * option (P9Qid * Z) * t * T :=
      let request := P9Message.new (fMsize c) in
      let '(status, request) := P9Message.Init request in
      if negb (is_ok status) then (status, None, c, w) else
      let '(tag, c) := AllocateTag c in
      let '(status, request) :=
        P9Message.BuildLcreate tag fid name flags mode gid request in
      if negb (is_ok status) then (status, None, ReleaseTag tag c, w) else
      let '(status, response, w) := DoRequest request c w in
      let c := ReleaseTag tag c in
      if negb (is_ok status) then (status, None, c, w) else
      let '(status, response) := CheckError response in
      if negb (is_ok status) then (status, None, c, w) else
      if negb (P9Message.Type_ response =? P9_RLCREATE)
      then (B_ERROR, None, c, w) else
      let '(status, (respQid, respIounit), response) :=
        P9Message.ParseLcreate response in
      if is_ok status then
        (status,
         Some (respQid, if respIounit >? 0 then respIounit else fIOUnit c),
         c, w)
      else (status, None, c, w).

    (** [Read(fid, offset, buffer, count)]: the result carries the final
        [*count] and the bytes copied into [buffer]. *)
Definition Read (fid offset count : Z) (c : t) (w : T)
      : status_t * (Z * list Z) * t * T :=
      let request := P9Message.new (fMsize c) in
      let '(status, request) := P9Message.Init request in
      if negb (is_ok status) then (status, (count, []), c, w) else
      let toRead := count in
      let toRead := if toRead >? fIOUnit c then fIOUnit c else toRead in
      let '(tag, c) := AllocateTag c in
      let '(status, request) :=
        P9Message.BuildRead tag fid offset toRead request in
      if negb (is_ok status) then (status, (count, []), ReleaseTag tag c, w) else
      let '(status, response, w) := DoRequest request c w in
      let c := ReleaseTag tag c in
      if negb (is_ok status) then (status, (count, []), c, w) else
      let '(status, response) := CheckError response in
      if negb (is_ok status) then (status, (count, []), c, w) else
      if negb (P9Message.Type_ response =? P9_RREAD)
      then (B_ERROR, (count, []), c, w) else
      let '(status, (count', data), response) :=
        P9Message.ParseRead response in
      let count := if is_ok status then count' else count in
      if is_ok status && (count >? 0) then
        (status,
         (count,
          peek (P9Buffer.fBuffer (P9Message.fBuffer response))
            (Z.to_nat data) (Z.to_nat count)),
         c, w)
      else (status, (count, []), c, w).

Definition Write (fid offset : Z) (buffer : list Z) (count : Z)
        (c : t) (w : T) : status_t * Z * t * T :=
      let request := P9Message.new (fMsize c) in
      let '(status, request) := P9Message.Init request in
      if negb (is_ok status) then (status, count, c, w) else
      let toWrite := count in
      let toWrite := if toWrite >? fIOUnit c then fIOUnit c else toWrite in
      let '(tag, c) := AllocateTag c in
      let '(status, request) :=
        P9Message.BuildWrite tag fid offset buffer toWrite request in
      if negb (is_ok status) then (status, count, ReleaseTag tag c, w) else
      let '(status, response, w) := DoRequest request c w in
      let c := ReleaseTag tag c in
      if negb (is_ok status) then (status, count, c, w) else
      let '(status, response) := CheckError response in
      if negb (is_ok status) then (status, count, c, w) else
      if negb (P9Message.Type_ response =? P9_RWRITE)
      then (B_ERROR, count, c, w) else
      let '(status, count', response) := P9Message.ParseWrite response in
      (status, (if is_ok status then count' else count), c, w).

Definition Clunk (fid : Z) (c : t) (w : T) : status_t * t * T :=
      let request := P9Message.new (fMsize c) in
      let '(status, request) := P9Message.Init request in
      if negb (is_ok status) then (status, c, w) else
      let '(tag, c) := AllocateTag c in
      let '(status, request) := P9Message.BuildClunk tag fid request in
      if negb (is_ok status) then (status, ReleaseTag tag c, w) else
      let '(status, response, w) := DoRequest request c w in
      let c := ReleaseTag tag c in
      if negb (is_ok status) then (status, c, w) else
      let '(status, response) := CheckError response in
      (status, c, w).

Definition Remove (fid : Z) (c : t) (w : T) : status_t * t * T :=
      let request := P9Message.new (fMsize c) in
      let '(status, request) := P9Message.Init request in
      if negb (is_ok status) then (status, c, w) else
      let '(tag, c) := AllocateTag c in
      let '(status, request) := P9Message.BuildRemove tag fid request in
      if negb (is_ok status) then (status, ReleaseTag tag c, w) else
      let '(status, response, w) := DoRequest request c w in
      let c := ReleaseTag tag c in
      if negb (is_ok status) then (status, c, w) else
      let '(status, response) := CheckError response in
      (status, c, w).

Definition GetAttr (fid mask : Z) (c : t) (w : T)
      : status_t * option P9Attr * t * T :=
      let request := P9Message.new (fMsize c) in
      let '(status, request) := P9Message.Init request in
      if negb (is_ok status) then (status, None, c, w) else
      let '(tag, c) := AllocateTag c in
      let '(status, request) := P9Message.BuildGetattr tag fid mask request in
      if negb (is_ok status) then (status, None, ReleaseTag tag c, w) else
      let '(status, response, w) := DoRequest request c w in
      let c := ReleaseTag tag c in
      if negb (is_ok status) then (status, None, c, w) else
      let '(status, response) := CheckError response in
      if negb (is_ok status) then (status, None, c, w) else
      if negb (P9Message.Type_ response =? P9_RGETATTR)
      then (B_ERROR, None, c, w) else
      let '(status, attr, response) := P9Message.ParseGetattr response in
      (status, attr, c, w).

Definition SetAttr (fid valid mode uid gid size
        atime_sec atime_nsec mtime_sec mtime_nsec : Z) (c : t) (w : T)
      : status_t * t * T :=
      let request := P9Message.new (fMsize c) in
      let '(status, request) := P9Message.Init request in
      if negb (is_ok status) then (status, c, w) else
      let '(tag, c) := AllocateTag c in
      let '(status, request) :=
        P9Message.BuildSetattr tag fid valid mode uid gid size
          atime_sec atime_nsec mtime_sec mtime_nsec request in
      if negb (is_ok status) then (status, ReleaseTag tag c, w) else
      let '(status, response, w) := DoRequest request c w in
      let c := ReleaseTag tag c in
      if negb (is_ok status) then (status, c, w) else
      let '(status, response) := CheckError response in
      (status, c, w).

Definition ReadDir (fid offset count : Z) (c : t) (w : T)
      : status_t * (Z * list Z) * t * T :=
      let request := P9Message.new (fMsize c) in
      let '(status, request) := P9Message.Init request in
      if negb (is_ok status) then (status, (count, []), c, w) else
      let toRead := count in
      let toRead := if toRead >? fIOUnit c then fIOUnit c else toRead in
      let '(tag, c) := AllocateTag c in
      let '(status, request) :=
        P9Message.BuildReaddir tag fid offset toRead request in
      if negb (is_ok status) then (status, (count, []), ReleaseTag tag c, w) else
      let '(status, response, w) := DoRequest request c w in
      let c := ReleaseTag tag c in
      if negb (is_ok status) then (status, (count, []), c, w) else
      let '(status, response) := CheckError response in
      if negb (is_ok status) then (status, (count, []), c, w) else
      if negb (P9Message.Type_ response =? P9_RREADDIR)
      then (B_ERROR, (count, []), c, w) else
      let '(status, (count', data), response) :=
        P9Message.ParseReaddir response in
      let count := if is_ok status then count' else count in
      if is_ok status && (count >? 0) then
        (status,
         (count,
          peek (P9Buffer.fBuffer (P9Message.fBuffer response))
            (Z.to_nat data) (Z.to_nat count)),
         c, w)
      else (status, (count, []), c, w).

    (** [qid] tells whether the caller passed a non-NULL [qid]. *)
Definition Mkdir (dfid : Z) (name : cstring) (mode gid : Z) (qid : bool)
        (c : t) (w : T) : status_t * option P9Qid * t * T :=
      let request := P9Message.new (fMsize c) in
      let '(status, request) := P9Message.Init request in
      if negb (is_ok status) then (status, None, c, w) else
      let '(tag, c) := AllocateTag c in
      let '(status, request) :=
        P9Message.BuildMkdir tag dfid name mode gid request in
      if negb (is_ok status) then (status, None, ReleaseTag tag c, w) else
      let '(status, response, w) := DoRequest request c w in
      let c := ReleaseTag tag c in
      if negb (is_ok status) then (status, None, c, w) else
      let '(status, response) := CheckError response in
      if negb (is_ok status) then (status, None, c, w) else
      if negb (P9Message.Type_ response =? P9_RMKDIR)
      then (B_ERROR, None, c, w) else
      if qid then
        let '(status, q, response) := P9Message.ParseMkdir response in
        (status, Some q, c, w)
      else (status, None, c, w).

Definition Unlink (dfid : Z) (name : cstring) (flags : Z) (c : t) (w : T)
      : status_t * t * T :=
      let request := P9Message.new (fMsize c) in
      let '(status, request) := P9Message.Init request in
      if negb (is_ok status) then (status, c, w) else
      let '(tag, c) := AllocateTag c in
      let '(status, request) :=
        P9Message.BuildUnlinkat tag dfid name flags request in
      if negb (is_ok status) then (status, ReleaseTag tag c, w) else
      let '(status, response, w) := DoRequest request c w in
      let c := ReleaseTag tag c in
      if negb (is_ok status) then (status, c, w) else
      let '(status, response) := CheckError response in
      (status, c, w).

Definition Rename (olddirfid : Z) (oldname : cstring) (newdirfid : Z)
        (newname : cstring) (c : t) (w : T) : status_t * t * T :=
      let request := P9Message.new (fMsize c) in
      let '(status, request) := P9Message.Init request in
      if negb (is_ok status) then (status, c, w) else
      let '(tag, c) := AllocateTag c in
      let '(status, request) :=
        P9Message.BuildRenameat tag olddirfid oldname newdirfid newname
          request in
      if negb (is_ok status) then (status, ReleaseTag tag c, w) else
      let '(status, response, w) := DoRequest request c w in
      let c := ReleaseTag tag c in
      if negb (is_ok status) then (status, c, w) else
      let '(status, response) := CheckError response in
      (status, c, w).

Definition StatFS (fid : Z) (c : t) (w : T)
      : status_t * option P9StatFS * t * T :=
      let request := P9Message.new (fMsize c) in
      let '(status, request) := P9Message.Init request in
      if negb (is_ok status) then (status, None, c, w) else
      let '(tag, c) := AllocateTag c in
      let '(status, request) := P9Message.BuildStatfs tag fid request in
      if negb (is_ok status) then (status, None, ReleaseTag tag c, w) else
      let '(status, response, w) := DoRequest request c w in
      let c := ReleaseTag tag c in
      if negb (is_ok status) then (status, None, c, w) else
      let '(status, response) := CheckError response in
      if negb (is_ok status) then (status, None, c, w) else
      if negb (P9Message.Type_ response =? P9_RSTATFS)
      then (B_ERROR, None, c, w) else
      let '(status, statfs, response) := P9Message.ParseStatfs response in
      (status, statfs, c, w).

Definition FSync (fid : Z) (dataOnly : bool) (c : t) (w : T)
      : status_t * t * T :=
      let request := P9Message.new (fMsize c) in
      let '(status, request) := P9Message.Init request in
      if negb (is_ok status) then (status, c, w) else
      let '(tag, c) := AllocateTag c in
      let '(status, request) :=
        P9Message.BuildFsync tag fid (if dataOnly then 1 else 0) request in
      if negb (is_ok status) then (status, ReleaseTag tag c, w) else
      let '(status, response, w) := DoRequest request c w in
      let c := ReleaseTag tag c in
      if negb (is_ok status) then (status, c, w) else
      let '(status, response) := CheckError response in
      (status, c, w).

Definition ReadLink (fid targetSize : Z) (c : t) (w : T)
      : status_t * cstring * t * T :=
      let request := P9Message.new (fMsize c) in
      let '(status, request) := P9Message.Init request in
      if negb (is_ok status) then (status, [], c, w) else
      let '(tag, c) := AllocateTag c in
      let '(status, request) := P9Message.BuildReadlink tag fid request in
      if negb (is_ok status) then (status, [], ReleaseTag tag c, w) else
      let '(status, response, w) := DoRequest request c w in
      let c := ReleaseTag tag c in
      if negb (is_ok status) then (status, [], c, w) else
      let '(status, response) := CheckError response in
      if negb (is_ok status) then (status, [], c, w) else
      if negb (P9Message.Type_ response =? P9_RREADLINK)
      then (B_ERROR, [], c, w) else
      let '(status, target, response) :=
        P9Message.ParseReadlink targetSize response in
      (status, target, c, w).

Definition Symlink (dfid : Z) (name target : cstring) (gid : Z)
        (qid : bool) (c : t) (w : T) : status_t * option P9Qid * t * T :=
      let request := P9Message.new (fMsize c) in
      let '(status, request) := P9Message.Init request in
      if negb (is_ok status) then (status, None, c, w) else
      let '(tag, c) := AllocateTag c in
      let '(status, request) :=
        P9Message.BuildSymlink tag dfid name target gid request in
      if negb (is_ok status) then (status, None, ReleaseTag tag c, w) else
      let '(status, response, w) := DoRequest request c w in
      let c := ReleaseTag tag c in
      if negb (is_ok status) then (status, None, c, w) else
      let '(status, response) := CheckError response in
      if negb (is_ok status) then (status, None, c, w) else
      if negb (P9Message.Type_ response =? P9_RSYMLINK)
      then (B_ERROR, None, c, w) else
      if qid then
        let '(status, q, response) := P9Message.ParseSymlink response in
        (status, Some q, c, w)
      else (status, None, c, w).

Definition Link (dfid fid : Z) (name : cstring) (c : t) (w : T)
      : status_t * t * T :=
      let request := P9Message.new (fMsize c) in
      let '(status, request) := P9Message.Init request in
      if negb (is_ok status) then (status, c, w) else
      let '(tag, c) := AllocateTag c in
      let '(status, request) := P9Message.BuildLink tag dfid fid name request in
      if negb (is_ok status) then (status, ReleaseTag tag c, w) else
      let '(status, response, w) := DoRequest request c w in
      let c := ReleaseTag tag c in
      if negb (is_ok status) then (status, c, w) else
      let '(status, response) := CheckError response in
      (status, c, w).

Definition Connect (aname : cstring) (c : t) (w : T) : status_t * t * T :=
      if negb (fTransport c) then (B_NO_INIT, c, w) else
      if fConnected c then (B_OK, c, w) else
      (* Version negotiation *)
      let request := P9Message.new (fMsize c) in
      let '(status, request) := P9Message.Init request in
      if negb (is_ok status) then (status, c, w) else
      let '(status, request) :=
        P9Message.BuildVersion P9_NOTAG (fMsize c) P9_VERSION_9P2000_L
          request in
      if negb (is_ok status) then (status, c, w) else
      let '(status, response, w) := DoRequest request c w in
      if negb (is_ok status) then (status, c, w) else
      let '(status, (type, tag, size), response) :=
        P9Message.ReadHeader response in
      if negb (is_ok status) || negb (type =? P9_RVERSION) then
        (if negb (is_ok status) then status else B_ERROR, c, w)
      else
      let '(status, (serverMsize, version), response) :=
        P9Message.ParseVersion 32 response in
      if negb (is_ok status) then (status, c, w) else
      (* Use smaller of client/server msize *)
      let c := if serverMsize <? fMsize c then with_msize serverMsize c
               else c in
      (* Verify version *)
      if negb (streq version P9_VERSION_9P2000_L)
      then (B_NOT_SUPPORTED, c, w) else
      (* Attach to filesystem *)
      let '(fid, c) := AllocateFid c in
      let c := with_rootfid fid c in
      if fRootFid c =? P9_NOFID then (B_NO_MEMORY, c, w) else
      let request := P9Message.Reset request in
      let '(status, request) := P9Message.Init request in
      if negb (is_ok status) then (status, ReleaseFid (fRootFid c) c, w) else
      let '(attachTag, c) := AllocateTag c in
      let '(status, request) :=
        P9Message.BuildAttach attachTag (fRootFid c) P9_NOFID [] aname
          P9_NONUNAME request in
      if negb (is_ok status) then
        (status, ReleaseFid (fRootFid c) (ReleaseTag attachTag c), w)
      else
      let '(status, response, w) := DoRequest request c w in
      let c := ReleaseTag attachTag c in
      if negb (is_ok status) then (status, ReleaseFid (fRootFid c) c, w) else
      let '(status, (type, tag, size), response) :=
        P9Message.ReadHeader response in
      if negb (is_ok status) then (status, ReleaseFid (fRootFid c) c, w) else
      if type =? P9_RLERROR then
        let '(status, error, response) := P9Message.ParseLerror response in
        let error := if is_ok status then error else indeterminate in
        (p9_error_to_haiku error, ReleaseFid (fRootFid c) c, w)
      else
      if negb (type =? P9_RATTACH)
      then (B_ERROR, ReleaseFid (fRootFid c) c, w) else
      let '(status, qid, response) := P9Message.ParseAttach response in
      if negb (is_ok status) then (status, ReleaseFid (fRootFid c) c, w) else
      (* Set default IO unit *)
      let c := with_iounit (uint32 (fMsize c - P9_HEADER_SIZE - 4)) c in
      (B_OK, with_connected true c, w).

Definition Disconnect (c : t) (w : T) : t * T :=
      if negb (fConnected c) then (c, w) else
      let '(_, c, w) := Clunk (fRootFid c) c w in
      let c := ReleaseFid (fRootFid c) c in
      (with_connected false c, w).

Definition Uninit (c : t) (w : T) : t * T :=
      let '(c, w) := Disconnect c w in
      (with_transport false c, w).

End WithTransport.

End P9Client.

(** ** Volume: mount state and argument parsing (Volume.cpp) *)

(** "tag", "aname", "msize" (Volume.h) *)
Definition P9_MOUNT_OPT_TAG : cstring := [116; 97; 103].
Definition P9_MOUNT_OPT_ANAME : cstring := [97; 110; 97; 109; 101].
Definition P9_MOUNT_OPT_MSIZE : cstring := [109; 115; 105; 122; 101].

(** [B_MOUNT_READ_ONLY] of the host's fs_interface.h. *)
Definition B_MOUNT_READ_ONLY : Z := 1.

(** An entry of the transport registry (virtio_9p_device.cpp). *)
Record TransportEntry : Set := mkEntry { mountTag : cstring; inUse : bool }.

(** The index of the first entry in use registered under [tag]; [None]
    is the NULL result. *)
Fixpoint virtio_9p_find_transport (registry : list TransportEntry)
    (tag : option cstring) : option nat :=
  match tag with
  | None => None
  | Some t =>
      match registry with
      | [] => None
      | e :: rest =>
          if inUse e && streq (mountTag e) t then Some O
          else S <$> virtio_9p_find_transport rest tag
      end
  end.

Module Volume.

Record t : Set := mk {
    fClient : P9Client.t;
    fTransport : option nat;
    fRootFid : Z;
    fRootInode : option Z;
    fMountTag : option cstring;
    fAname : option cstring;
    fReadOnly : bool }.

Definition new : t :=
    mk P9Client.new None P9_NOFID None None None false.

Definition with_client (c : P9Client.t) (v : t) : t :=
    mk c (fTransport v) (fRootFid v) (fRootInode v) (fMountTag v) (fAname v)
       (fReadOnly v).

Definition Client (v : t) : P9Client.t := fClient v.
Definition RootFid (v : t) : Z := fRootFid v.
Definition IsReadOnly (v : t) : bool := fReadOnly v.

Definition QidToIno (qid : P9Qid) : Z := qid_path qid.

  (** [strchr(opt, '=')] followed by [*value++ = 0]: the option name and,
      when there is an '=' (61), the text after the first one. *)
Fixpoint split_value (opt : list Z) : list Z * option (list Z) :=
    match opt with
    | [] => ([], None)
    | b :: rest =>
        if b =? 61 then ([], Some rest)
        else let '(k, v) := split_value rest in (b :: k, v)
    end.

  (** The body of the loop over the options: [value ? strdup(value) :
      NULL] is stored, and [copied] tells whether that [strdup] returns
      memory. *)
Definition parse_option (copied : bool) (v : t) (opt : list Z) : t :=
    let '(name, value) := split_value opt in
    let value := if copied then value else None in
    if streq name P9_MOUNT_OPT_TAG then
      mk (fClient v) (fTransport v) (fRootFid v) (fRootInode v) value
         (fAname v) (fReadOnly v)
    else if streq name P9_MOUNT_OPT_ANAME then
      mk (fClient v) (fTransport v) (fRootFid v) (fRootInode v) (fMountTag v)
         value (fReadOnly v)
    else v.

  (** The loop: [i] numbers the option at the head of [opts]. *)
Fixpoint parse_options (copied : nat -> bool) (i : nat) (opts : list (list Z))
      (v : t) : t :=
    match opts with
    | [] => v
    | opt :: opts =>
        parse_options copied (S i) opts (parse_option (copied i) v opt)
    end.

  (** [args] is [None] for a NULL pointer; the options are the tokens
      between commas (44).  [copied] gives the outcome of each [strdup]:
      [copied 0] for the copy of [args], [copied i] for the copy of the
      value of the [i]-th option, counted from 1. *)
Definition _ParseArgs (copied : nat -> bool) (args : option cstring) (v : t)
    : status_t * t :=
    match args with
    | None => (B_OK, v)
    | Some args =>
        if negb (copied O) then (B_NO_MEMORY, v) else
        (B_OK, parse_options copied 1 (tokens 44 (c_str args) []) v)
    end.

Definition _FindTransport (registry : list TransportEntry) (v : t)
    : status_t * t :=
    match fMountTag v with
    | None => (B_BAD_VALUE, v)
    | Some _ =>
        let found := virtio_9p_find_transport registry (fMountTag v) in
        let v := mk (fClient v) found (fRootFid v) (fRootInode v)
                    (fMountTag v) (fAname v) (fReadOnly v) in
        match found with
        | None => (B_DEVICE_NOT_FOUND, v)
        | Some _ => (B_OK, v)
        end
    end.

End Volume.

(** ** Inode: the file-system adaptation layer (Inode.cpp) *)

(** File-type bits of [mode_t] and the [B_STAT_*] masks of the host. *)
Definition S_IFMT : Z := 61440.
Definition S_IFDIR : Z := 16384.
Definition S_IFREG : Z := 32768.
Definition S_IFLNK : Z := 40960.
Definition B_STAT_MODE : Z := 1.
Definition B_STAT_UID : Z := 2.
Definition B_STAT_GID : Z := 4.
Definition B_STAT_SIZE : Z := 8.
Definition B_STAT_ACCESS_TIME : Z := 16.
Definition B_STAT_MODIFICATION_TIME : Z := 32.

Record FileCookie : Set := mkFileCookie {
  cookie_fid : Z; cookie_openMode : Z; cookie_position : Z }.

(** The fields of [struct stat] that [WriteStat] reads. *)
Record stat : Set := mkStat {
  st_mode : Z; st_uid : Z; st_gid : Z; st_size : Z;
  st_atim_sec : Z; st_atim_nsec : Z; st_mtim_sec : Z; st_mtim_nsec : Z }.

(** The vnode cache of the host kernel: [V] is its state, [N] what it
    stores per vnode. *)
Class HostVFS (V N : Type) : Type := {
  get_vnode : V -> Z -> status_t * option N;
  publish_vnode : V -> Z -> N -> Z -> status_t * V;
  put_vnode : V -> Z -> status_t * V }.

Module Inode.

Record t : Set := mk {
    fID : Z;
    fFid : Z;
    fQid : P9Qid;
    fMode : Z;
    fSize : Z;
    fStatValid : bool }.

  (** The constructor sets the initial mode from the qid type. *)
Definition new (id fid : Z) (qid : P9Qid) : t :=
    let mode :=
      if negb (Z.land (qid_type qid) P9_QTDIR =? 0) then Z.lor S_IFDIR 493
      else if negb (Z.land (qid_type qid) P9_QTSYMLINK =? 0)
           then Z.lor S_IFLNK 511
      else Z.lor S_IFREG 420 in
    mk id fid qid mode 0 false.

Definition ID (i : t) : Z := fID i.
Definition Fid (i : t) : Z := fFid i.
Definition Mode (i : t) : Z := fMode i.
Definition IsDirectory (i : t) : bool := Z.land (fMode i) S_IFMT =? S_IFDIR.
Definition IsFile (i : t) : bool := Z.land (fMode i) S_IFMT =? S_IFREG.
Definition IsSymlink (i : t) : bool := Z.land (fMode i) S_IFMT =? S_IFLNK.

Definition with_stat_valid (b : bool) (i : t) : t :=
    mk (fID i) (fFid i) (fQid i) (fMode i) (fSize i) b.

Section WithHost.

Context {T : Type} `{P9Transport T}.
Context {V : Type} `{HostVFS V t}.
Variable indeterminate : Z.

#[local] Abbreviation Walk := (P9Client.Walk indeterminate).
#[local] Abbreviation Clunk := (P9Client.Clunk indeterminate).

    (** The destructor: clunk the fid unless it is the root's or none. *)
Definition delete (i : t) (vol : Volume.t) (w : T) : Volume.t * T :=
      if negb (fFid i =? Volume.RootFid vol) && negb (fFid i =? P9_NOFID) then
        let '(_, c, w) := Clunk (fFid i) (Volume.Client vol) w in
        (Volume.with_client c vol, w)
      else (vol, w).

Definition _UpdateStat (i : t) (vol : Volume.t) (w : T)
      : status_t * t * Volume.t * T :=
      let '(status, attr, c, w) :=
        P9Client.GetAttr indeterminate (fFid i) P9_GETATTR_BASIC
          (Volume.Client vol) w in
      let vol := Volume.with_client c vol in
      if negb (is_ok status) then (status, i, vol, w) else
      match attr with
      | Some attr =>
          (B_OK,
           mk (fID i) (fFid i) (fQid i) (p9_mode_to_haiku (attr_mode attr))
              (attr_size attr) true,
           vol, w)
      | None => (B_OK, i, vol, w)
      end.

Definition Init (i : t) (vol : Volume.t) (w : T)
      : status_t * t * Volume.t * T :=
      _UpdateStat i vol w.

    (** The loop of [Read].  [fuel] bounds the iterations of the model;
        [dest] is what has been copied into the caller's buffer. *)
Fixpoint Read_loop (fuel : nat) (cookie : FileCookie) (pos : Z)
        (remaining totalRead : Z) (dest : list Z) (length_ : Z)
        (vol : Volume.t) (w : T)
      : option (status_t * (Z * list Z) * Volume.t * T) :=
      if remaining >? 0 then
        match fuel with
        | O => None
        | S fuel' =>
            let iounit := P9Client.fIOUnit (Volume.Client vol) in
            let toRead :=
              uint32 (if remaining >? iounit then iounit else remaining) in
            let '(status, (toRead, data), c, w) :=
              P9Client.Read indeterminate (cookie_fid cookie)
                (uint64 (pos + totalRead)) toRead (Volume.Client vol) w in
            let vol := Volume.with_client c vol in
            let dest := dest ++ data in
            if negb (is_ok status) then Some (status, (length_, dest), vol, w)
            else if toRead =? 0 then Some (B_OK, (totalRead, dest), vol, w)
            else
              Read_loop fuel' cookie pos (uint64 (remaining - toRead))
                (uint64 (totalRead + toRead)) dest length_ vol w
        end
      else Some (B_OK, (totalRead, dest), vol, w).

    (** [Read(cookie, pos, buffer, _length)]: the result carries the
        final [*_length] and the bytes stored in [buffer]. *)
Definition Read (fuel : nat) (cookie : FileCookie) (pos length_ : Z)
        (vol : Volume.t) (w : T)
      : option (status_t * (Z * list Z) * Volume.t * T) :=
      if pos <? 0 then Some (B_BAD_VALUE, (length_, []), vol, w) else
      Read_loop fuel cookie pos length_ 0 [] length_ vol w.

Fixpoint Write_loop (fuel : nat) (cookie : FileCookie) (pos : Z)
        (remaining totalWritten : Z) (src : list Z) (length_ : Z)
        (vol : Volume.t) (w : T)
      : option (status_t * Z * bool * Volume.t * T) :=
      if remaining >? 0 then
        match fuel with
        | O => None
        | S fuel' =>
            let iounit := P9Client.fIOUnit (Volume.Client vol) in
            let toWrite :=
              uint32 (if remaining >? iounit then iounit else remaining) in
            let '(status, toWrite, c, w) :=
              P9Client.Write indeterminate (cookie_fid cookie)
                (uint64 (pos + totalWritten)) src toWrite
                (Volume.Client vol) w in
            let vol := Volume.with_client c vol in
            if negb (is_ok status) then Some (status, length_, false, vol, w)
            else if toWrite =? 0 then Some (B_OK, totalWritten, true, vol, w)
            else
              Write_loop fuel' cookie pos (uint64 (remaining - toWrite))
                (uint64 (totalWritten + toWrite))
                (drop (Z.to_nat toWrite) src) length_ vol w
        end
      else Some (B_OK, totalWritten, true, vol, w).

    (** [Write(cookie, pos, buffer, _length)]: the result carries the
        final [*_length]; the cached stat is invalidated when the loop
        is left normally. *)
Definition Write (fuel : nat) (cookie : FileCookie) (pos : Z)
        (buffer : list Z) (length_ : Z) (i : t) (vol : Volume.t) (w : T)
      : option (status_t * Z * t * Volume.t * T) :=
      if pos <? 0 then Some (B_BAD_VALUE, length_, i, vol, w) else
      if Volume.IsReadOnly vol
      then Some (B_READ_ONLY_DEVICE, length_, i, vol, w) else
      match Write_loop fuel cookie pos length_ 0 buffer length_ vol w with
      | None => None
      | Some (status, len, invalidate, vol, w) =>
          Some (status, len,
                (if invalidate then with_stat_valid false i else i), vol, w)
      end.

Definition WriteStat (st : stat) (statMask : Z) (i : t) (vol : Volume.t)
        (w : T) : status_t * t * Volume.t * T :=
      if Volume.IsReadOnly vol then (B_READ_ONLY_DEVICE, i, vol, w) else
      let has m := negb (Z.land statMask m =? 0) in
      let valid := 0 in
      let '(valid, mode) :=
        if has B_STAT_MODE
        then (Z.lor valid 1, haiku_mode_to_p9 (st_mode st)) else (valid, 0) in
      let '(valid, uid) :=
        if has B_STAT_UID then (Z.lor valid 2, uint32 (st_uid st))
        else (valid, 0) in
      let '(valid, gid) :=
        if has B_STAT_GID then (Z.lor valid 4, uint32 (st_gid st))
        else (valid, 0) in
      let '(valid, size) :=
        if has B_STAT_SIZE then (Z.lor valid 8, uint64 (st_size st))
        else (valid, 0) in
      let '(valid, atime_sec, atime_nsec) :=
        if has B_STAT_ACCESS_TIME
        then (Z.lor valid (Z.lor 16 128), uint64 (st_atim_sec st),
              uint64 (st_atim_nsec st))
        else (valid, 0, 0) in
      let '(valid, mtime_sec, mtime_nsec) :=
        if has B_STAT_MODIFICATION_TIME
        then (Z.lor valid (Z.lor 32 256), uint64 (st_mtim_sec st),
              uint64 (st_mtim_nsec st))
        else (valid, 0, 0) in
      let '(status, c, w) :=
        P9Client.SetAttr indeterminate (fFid i) valid mode uid gid size
          atime_sec atime_nsec mtime_sec mtime_nsec (Volume.Client vol) w in
      let vol := Volume.with_client c vol in
      (status, (if is_ok status then with_stat_valid false i else i), vol, w).

    (** Clunk and release a fid the failed operation had allocated. *)
Definition drop_fid (fid : Z) (vol : Volume.t) (w : T) : Volume.t * T :=
      let '(_, c, w) := Clunk fid (Volume.Client vol) w in
      (Volume.with_client (P9Client.ReleaseFid fid c) vol, w).

    (** [Create]: the result carries the cookie and the new inode id.
        [inodeAllocated] and [cookieAllocated] tell whether
        [new(std::nothrow) Inode] and [new(std::nothrow) FileCookie]
        return memory. *)
Definition Create (inodeAllocated cookieAllocated : bool) (name : cstring)
        (openMode perms : Z) (i : t) (vol : Volume.t) (w : T) (v : V)
      : status_t * option (FileCookie * Z) * Volume.t * T * V :=
      if negb (IsDirectory i) then (B_NOT_A_DIRECTORY, None, vol, w, v) else
      if Volume.IsReadOnly vol then (B_READ_ONLY_DEVICE, None, vol, w, v) else
      (* Clone directory fid *)
      let '(newFid, c) := P9Client.AllocateFid (Volume.Client vol) in
      let vol := Volume.with_client c vol in
      if newFid =? P9_NOFID then (B_NO_MEMORY, None, vol, w, v) else
      let '(status, _, c, w) := Walk (fFid i) newFid None (Volume.Client vol) w in
      let vol := Volume.with_client c vol in
      if negb (is_ok status) then
        (status, None,
         Volume.with_client (P9Client.ReleaseFid newFid c) vol, w, v)
      else
      (* Create file *)
      let flags := haiku_to_p9_open_flags openMode in
      let mode := haiku_mode_to_p9 (Z.lor S_IFREG perms) in
      let '(status, out, c, w) :=
        P9Client.Create indeterminate newFid name flags mode 0
          (Volume.Client vol) w in
      let vol := Volume.with_client c vol in
      if negb (is_ok status) then
        let '(vol, w) := drop_fid newFid vol w in (status, None, vol, w, v)
      else
      let qid := default (mkQid 0 0 0) (fst <$> out) in
      (* Create inode for new file *)
      let id := Volume.QidToIno qid in
      if negb inodeAllocated then
        let '(vol, w) := drop_fid newFid vol w in
        (B_NO_MEMORY, None, vol, w, v)
      else
      let inode := new id P9_NOFID qid in
      let '(status, inode, vol, w) := Init inode vol w in
      if negb (is_ok status) then
        let '(vol, w) := delete inode vol w in
        let '(vol, w) := drop_fid newFid vol w in (status, None, vol, w, v)
      else
      (* Publish vnode *)
      let '(status, v) := publish_vnode v id inode S_IFREG in
      if negb (is_ok status) then
        let '(vol, w) := delete inode vol w in
        let '(vol, w) := drop_fid newFid vol w in (status, None, vol, w, v)
      else
      (* Create cookie *)
      if negb cookieAllocated then
        let '(_, v) := put_vnode v id in (B_NO_MEMORY, None, vol, w, v)
      else
      (B_OK, Some (mkFileCookie newFid openMode 0, id), vol, w, v).

Definition Remove (name : cstring) (i : t) (vol : Volume.t) (w : T)
      : status_t * Volume.t * T :=
      if negb (IsDirectory i) then (B_NOT_A_DIRECTORY, vol, w) else
      if Volume.IsReadOnly vol then (B_READ_ONLY_DEVICE, vol, w) else
      let '(status, c, w) :=
        P9Client.Unlink indeterminate (fFid i) name 0 (Volume.Client vol) w in
      (status, Volume.with_client c vol, w).

Definition Rename (fromName : cstring) (toDir : t) (toName : cstring)
        (i : t) (vol : Volume.t) (w : T) : status_t * Volume.t * T :=
      if negb (IsDirectory i) || negb (IsDirectory toDir)
      then (B_NOT_A_DIRECTORY, vol, w) else
      if Volume.IsReadOnly vol then (B_READ_ONLY_DEVICE, vol, w) else
      let '(status, c, w) :=
        P9Client.Rename indeterminate (fFid i) fromName (Fid toDir) toName
          (Volume.Client vol) w in
      (status, Volume.with_client c vol, w).

Definition CreateSymlink (name target : cstring) (i : t) (vol : Volume.t)
        (w : T) : status_t * Volume.t * T :=
      if negb (IsDirectory i) then (B_NOT_A_DIRECTORY, vol, w) else
      if Volume.IsReadOnly vol then (B_READ_ONLY_DEVICE, vol, w) else
      let '(status, _, c, w) :=
        P9Client.Symlink indeterminate (fFid i) name target 0 false
          (Volume.Client vol) w in
      (status, Volume.with_client c vol, w).

Definition CreateDir (name : cstring) (perms : Z) (i : t) (vol : Volume.t)
        (w : T) : status_t * Volume.t * T :=
      if negb (IsDirectory i) then (B_NOT_A_DIRECTORY, vol, w) else
      if Volume.IsReadOnly vol then (B_READ_ONLY_DEVICE, vol, w) else
      let mode := haiku_mode_to_p9 (Z.lor S_IFDIR perms) in
      let '(status, _, c, w) :=
        P9Client.Mkdir indeterminate (fFid i) name mode 0 false
          (Volume.Client vol) w in
      (status, Volume.with_client c vol, w).

Definition RemoveDir (name : cstring) (i : t) (vol : Volume.t) (w : T)
      : status_t * Volume.t * T :=
      if negb (IsDirectory i) then (B_NOT_A_DIRECTORY, vol, w) else
      if Volume.IsReadOnly vol then (B_READ_ONLY_DEVICE, vol, w) else
      (* AT_REMOVEDIR flag *)
      let '(status, c, w) :=
        P9Client.Unlink indeterminate (fFid i) name 512 (Volume.Client vol) w in
      (status, Volume.with_client c vol, w).

Definition Sync (i : t) (vol : Volume.t) (w : T)
      : status_t * Volume.t * T :=
      if Volume.IsReadOnly vol then (B_OK, vol, w) else
      let '(status, c, w) :=
        P9Client.FSync indeterminate (fFid i) false (Volume.Client vol) w in
      (status, Volume.with_client c vol, w).

    (** [WalkToChild(name, _childFid, _childQid)]: the result carries the
        child fid and the qid [Walk] stored, if any. *)
Definition WalkToChild (name : cstring) (i : t) (vol : Volume.t) (w : T)
      : status_t * option (Z * option P9Qid) * Volume.t * T :=
      let '(childFid, c) := P9Client.AllocateFid (Volume.Client vol) in
      let vol := Volume.with_client c vol in
      if childFid =? P9_NOFID then (B_NO_MEMORY, None, vol, w) else
      let '(status, qid, c, w) :=
        Walk (fFid i) childFid (Some name) (Volume.Client vol) w in
      let vol := Volume.with_client c vol in
      if negb (is_ok status) then
        (status, None,
         Volume.with_client (P9Client.ReleaseFid childFid c) vol, w)
      else (B_OK, Some (childFid, qid), vol, w).

    (** [Open(openMode, _cookie)]: the result carries the cookie.
        [new FileCookie] is taken to succeed. *)
Definition Open (openMode : Z) (i : t) (vol : Volume.t) (w : T)
      : status_t * option FileCookie * Volume.t * T :=
      (* Clone fid for this open *)
      let '(newFid, c) := P9Client.AllocateFid (Volume.Client vol) in
      let vol := Volume.with_client c vol in
      if newFid =? P9_NOFID then (B_NO_MEMORY, None, vol, w) else
      let '(status, _, c, w) :=
        P9Client.Walk indeterminate (fFid i) newFid None
          (Volume.Client vol) w in
      let vol := Volume.with_client c vol in
      if negb (is_ok status) then
        (status, None,
         Volume.with_client (P9Client.ReleaseFid newFid c) vol, w)
      else
      (* Convert Haiku open mode to 9P flags *)
      let flags := haiku_to_p9_open_flags openMode in
      let '(status, _, c, w) :=
        P9Client.Open indeterminate newFid flags (Volume.Client vol) w in
      let vol := Volume.with_client c vol in
      if negb (is_ok status) then
        let '(vol, w) := drop_fid newFid vol w in
        (status, None, vol, w)
      else
      (B_OK, Some (mkFileCookie newFid openMode 0), vol, w).

    (** Nothing to do - cleanup in FreeCookie *)
Definition Close (cookie : FileCookie) (vol : Volume.t) (w : T)
      : status_t * Volume.t * T :=
      (B_OK, vol, w).

Definition FreeCookie (cookie : FileCookie) (vol : Volume.t) (w : T)
      : status_t * Volume.t * T :=
      let '(vol, w) := drop_fid (cookie_fid cookie) vol w in
      (B_OK, vol, w).

End WithHost.

End Inode.

(** ** Volume: mounting (Volume.cpp, the part that needs [Inode]) *)

Module VolumeMount.

Section WithHost.

Context {T : Type} `{P9Transport T}.
Context {V : Type} `{HostVFS V Inode.t}.
Variable indeterminate : Z.

Definition with_root (fid : Z) (inode : option Z) (vol : Volume.t) : Volume.t :=
  Volume.mk (Volume.fClient vol) (Volume.fTransport vol) fid inode
    (Volume.fMountTag vol) (Volume.fAname vol) (Volume.fReadOnly vol).

Definition with_read_only (b : bool) (vol : Volume.t) : Volume.t :=
  Volume.mk (Volume.fClient vol) (Volume.fTransport vol) (Volume.fRootFid vol)
    (Volume.fRootInode vol) (Volume.fMountTag vol) (Volume.fAname vol) b.

(** [GetInode(fid, qid, _inode)].  [new(std::nothrow) Inode] is taken to
    succeed. *)
Definition GetInode (fid : Z) (qid : P9Qid) (vol : Volume.t) (w : T) (v : V)
  : status_t * option Inode.t * Volume.t * T * V :=
  let id := Volume.QidToIno qid in
  (* Try to get existing vnode *)
  let '(status, node) := get_vnode v id in
  if is_ok status then
    if negb (fid =? Volume.fRootFid vol) then
      let '(_, c, w) := P9Client.Clunk indeterminate fid (Volume.Client vol) w in
      (B_OK, node, Volume.with_client c vol, w, v)
    else (B_OK, node, vol, w, v)
  else
  (* Create new inode *)
  let inode := Inode.new id fid qid in
  let '(status, inode, vol, w) := Inode.Init indeterminate inode vol w in
  if negb (is_ok status) then
    let '(vol, w) := Inode.delete indeterminate inode vol w in
    (status, None, vol, w, v)
  else
  (* Publish vnode *)
  let '(status, v) :=
    publish_vnode v id inode (Z.land (Inode.Mode inode) S_IFMT) in
  if negb (is_ok status) then
    let '(vol, w) := Inode.delete indeterminate inode vol w in
    (status, None, vol, w, v)
  else (B_OK, Some inode, vol, w, v).

Definition disconnect (vol : Volume.t) (w : T) : Volume.t * T :=
  let '(c, w) := P9Client.Disconnect indeterminate (Volume.Client vol) w in
  (Volume.with_client c vol, w).

(** [Mount(device, flags, args, rootID)]; [registry] is the transport
    registry [_FindTransport] consults and [copied] the outcomes of the
    [strdup]s of [_ParseArgs].  The client is initialised with the
    default [msize] argument of [P9Client::Init]. *)
Definition Mount (copied : nat -> bool) (flags : Z) (args : option cstring)
    (registry : list TransportEntry) (vol : Volume.t) (w : T) (v : V)
  : status_t * option Z * Volume.t * T * V :=
  (* Parse mount arguments *)
  let '(status, vol) := Volume._ParseArgs copied args vol in
  if negb (is_ok status) then (status, None, vol, w, v) else
  let vol := with_read_only (negb (Z.land flags B_MOUNT_READ_ONLY =? 0)) vol in
  (* Find virtio-9p transport *)
  let '(status, vol) := Volume._FindTransport registry vol in
  if negb (is_ok status) then (status, None, vol, w, v) else
  (* Initialize 9P client *)
  let '(status, c) :=
    P9Client.Init (bool_decide (is_Some (Volume.fTransport vol)))
      P9_DEFAULT_MSIZE (Volume.Client vol) in
  let vol := Volume.with_client c vol in
  if negb (is_ok status) then (status, None, vol, w, v) else
  (* Connect to 9P server *)
  let '(status, c, w) :=
    P9Client.Connect indeterminate (default [] (Volume.fAname vol))
      (Volume.Client vol) w in
  let vol := Volume.with_client c vol in
  if negb (is_ok status) then (status, None, vol, w, v) else
  let vol :=
    with_root (P9Client.fRootFid (Volume.Client vol)) (Volume.fRootInode vol)
      vol in
  (* Get root attributes *)
  let '(status, attr, c, w) :=
    P9Client.GetAttr indeterminate (Volume.fRootFid vol) P9_GETATTR_BASIC
      (Volume.Client vol) w in
  let vol := Volume.with_client c vol in
  if negb (is_ok status) then
    let '(vol, w) := disconnect vol w in (status, None, vol, w, v)
  else
  let qid := default (mkQid 0 0 0) (attr_qid <$> attr) in
  (* Create root inode *)
  let '(status, inode, vol, w, v) := GetInode (Volume.fRootFid vol) qid vol w v in
  if negb (is_ok status) then
    let '(vol, w) := disconnect vol w in (status, None, vol, w, v)
  else
  let rootID := Inode.ID <$> inode in
  (B_OK, rootID, with_root (Volume.fRootFid vol) rootID vol, w, v).

Definition Unmount (vol : Volume.t) (w : T) : status_t * Volume.t * T :=
  let '(vol, w) := disconnect vol w in (B_OK, vol, w).

End WithHost.

End VolumeMount.

(** * Vocabulary of the statements *)

(** ** Codec *)

(** [pending b R]: the bytes of [b] written and not yet read are [R]. *)
Definition pending (b : P9Buffer.t) (R : list Z) : Prop :=
  0 <= P9Buffer.fReadPos b <= P9Buffer.fWritePos b /\
  P9Buffer.fWritePos b <= P9Buffer.fCapacity b /\
  P9Buffer.fCapacity b <= Z.of_nat (length (P9Buffer.fBuffer b)) /\
  drop (Z.to_nat (P9Buffer.fReadPos b))
       (take (Z.to_nat (P9Buffer.fWritePos b)) (P9Buffer.fBuffer b)) = R.

(** [room n b]: everything written to [b] has been read and [n] more
    bytes fit. *)
Definition room (n : Z) (b : P9Buffer.t) : Prop :=
  P9Buffer.fReadPos b = P9Buffer.fWritePos b /\
  0 <= P9Buffer.fWritePos b /\
  P9Buffer.fWritePos b + n <= P9Buffer.fCapacity b /\
  P9Buffer.fCapacity b <= Z.of_nat (length (P9Buffer.fBuffer b)).

(** Writing with [write] and then reading with [read] succeeds, yields
    [v] and leaves nothing unread. *)
Definition round_trips {A : Type}
    (write : P9Buffer.t -> status_t * P9Buffer.t)
    (read : P9Buffer.t -> status_t * A * P9Buffer.t)
    (v : A) (b : P9Buffer.t) : Prop :=
  exists b1 b2, write b = (B_OK, b1) /\ read b1 = (B_OK, v, b2) /\
                P9Buffer.fReadPos b2 = P9Buffer.fWritePos b2.

(** After [write], the [n] bytes from the old write position on hold
    [v] least significant byte first. *)
Definition little_endian (n : nat) (v : Z)
    (write : P9Buffer.t -> status_t * P9Buffer.t) (b : P9Buffer.t) : Prop :=
  forall i : nat, (i < n)%nat ->
    P9Buffer.fBuffer (snd (write b)) !! (Z.to_nat (P9Buffer.fWritePos b) + i)%nat
    = Some (Z.land (Z.shiftr v (8 * Z.of_nat i)) 255).

Definition qid_in_range (q : P9Qid) : Prop :=
  0 <= qid_type q < 2 ^ 8 /\ 0 <= qid_version q < 2 ^ 32 /\
  0 <= qid_path q < 2 ^ 64.

(** A message freshly constructed and initialised, as every operation
    starts with. *)
Definition fresh_message (msize : Z) : P9Message.t :=
  snd (P9Message.Init (P9Message.new msize)).

(** ** Pools *)

(** Every word of the bitmap is a 32-bit value. *)
Definition uint32_words (bitmap : list Z) : Prop :=
  Forall (fun w => 0 <= w < 2 ^ 32) bitmap.

(** The fields of a tag pool hold values of their C++ types. *)
Definition tag_pool_typed (p : TagPool.t) : Prop :=
  uint32_words (TagPool.fBitmap p) /\ 0 <= TagPool.fMaxTags p < 2 ^ 16.

Definition fid_pool_typed (p : FidPool.t) : Prop :=
  uint32_words (FidPool.fBitmap p) /\ 0 <= FidPool.fMaxFids p < 2 ^ 32.

(** ** Transports for statements and examples *)

(** A transport that records every frame handed to [SendMessage] before
    passing it to the transport it wraps. *)
Record Recorder (T : Type) : Type := mkRecorder {
  rec_log : list (list Z);
  rec_inner : T }.
Arguments mkRecorder {T} _ _.
Arguments rec_log {T} _.
Arguments rec_inner {T} _.

#[global] Instance recorder_transport {T : Type} `{P9Transport T}
  : P9Transport (Recorder T) := {
  SendMessage r frame :=
    let '(status, t) := SendMessage (rec_inner r) frame in
    (status, mkRecorder (rec_log r ++ [frame]) t);
  ReceiveMessage r capacity :=
    let '(status, data, t) := ReceiveMessage (rec_inner r) capacity in
    (status, data, mkRecorder (rec_log r) t) }.

(** A server that accepts every frame and answers from a script, one
    reply per receive; it fails with an I/O error once the script is
    exhausted. *)
Definition Script : Type := list (list Z).

#[global] Instance script_transport : P9Transport Script := {
  SendMessage s frame := (B_OK, s);
  ReceiveMessage s capacity :=
    match s with
    | [] => (B_IO_ERROR, [], s)
    | reply :: rest => (B_OK, reply, rest)
    end }.

(** A vnode cache kept as an association list. *)
Definition VnodeList : Type := list (Z * Inode.t).

#[global] Instance vnode_list_vfs : HostVFS VnodeList Inode.t := {
  get_vnode v id :=
    match list_find (fun e => bool_decide (fst e = id)) v with
    | Some (_, e) => (B_OK, Some (snd e))
    | None => (B_ENTRY_NOT_FOUND, None)
    end;
  publish_vnode v id node type := (B_OK, (id, node) :: v);
  put_vnode v id := (B_OK, v) }.

(** ** The operations of the client as one type *)

Inductive client_op : Set :=
  | OpConnect (aname : cstring)
  | OpWalk (fid newfid : Z) (path : option cstring)
  | OpOpen (fid flags : Z)
  | OpCreate (fid : Z) (name : cstring) (flags mode gid : Z)
  | OpRead (fid offset count : Z)
  | OpWrite (fid offset : Z) (buffer : list Z) (count : Z)
  | OpClunk (fid : Z)
  | OpRemove (fid : Z)
  | OpGetAttr (fid mask : Z)
  | OpSetAttr (fid valid mode uid gid size
               atime_sec atime_nsec mtime_sec mtime_nsec : Z)
  | OpReadDir (fid offset count : Z)
  | OpMkdir (dfid : Z) (name : cstring) (mode gid : Z) (qid : bool)
  | OpUnlink (dfid : Z) (name : cstring) (flags : Z)
  | OpRename (olddirfid : Z) (oldname : cstring) (newdirfid : Z)
             (newname : cstring)
  | OpStatFS (fid : Z)
  | OpFSync (fid : Z) (dataOnly : bool)
  | OpReadLink (fid targetSize : Z)
  | OpSymlink (dfid : Z) (name target : cstring) (gid : Z) (qid : bool)
  | OpLink (dfid fid : Z) (name : cstring).

(** The T-code of the request an operation sends and the R-code that
    acknowledges it. *)
Definition request_type (o : client_op) : Z :=
  match o with
  | OpConnect _ => P9_TATTACH
  | OpWalk _ _ _ => P9_TWALK
  | OpOpen _ _ => P9_TLOPEN
  | OpCreate _ _ _ _ _ => P9_TLCREATE
  | OpRead _ _ _ => P9_TREAD
  | OpWrite _ _ _ _ => P9_TWRITE
  | OpClunk _ => P9_TCLUNK
  | OpRemove _ => P9_TREMOVE
  | OpGetAttr _ _ => P9_TGETATTR
  | OpSetAttr _ _ _ _ _ _ _ _ _ _ => P9_TSETATTR
  | OpReadDir _ _ _ => P9_TREADDIR
  | OpMkdir _ _ _ _ _ => P9_TMKDIR
  | OpUnlink _ _ _ => P9_TUNLINKAT
  | OpRename _ _ _ _ => P9_TRENAMEAT
  | OpStatFS _ => P9_TSTATFS
  | OpFSync _ _ => P9_TFSYNC
  | OpReadLink _ _ => P9_TREADLINK
  | OpSymlink _ _ _ _ _ => P9_TSYMLINK
  | OpLink _ _ _ => P9_TLINK
  end.

Definition expected_reply (o : client_op) : Z := request_type o + 1.

Section RunOp.

Context {T : Type} `{P9Transport T}.
Variable indeterminate : Z.

(** Run an operation, keeping its status and the states it leaves. *)
Definition run_op (o : client_op) (c : P9Client.t) (w : T)
  : status_t * P9Client.t * T :=
  match o with
  | OpConnect aname => P9Client.Connect indeterminate aname c w
  | OpWalk fid newfid path =>
      let '(s, _, c, w) := P9Client.Walk indeterminate fid newfid path c w in
      (s, c, w)
  | OpOpen fid flags =>
      let '(s, _, c, w) := P9Client.Open indeterminate fid flags c w in
      (s, c, w)
  | OpCreate fid name flags mode gid =>
      let '(s, _, c, w) :=
        P9Client.Create indeterminate fid name flags mode gid c w in
      (s, c, w)
  | OpRead fid offset count =>
      let '(s, _, c, w) := P9Client.Read indeterminate fid offset count c w in
      (s, c, w)
  | OpWrite fid offset buffer count =>
      let '(s, _, c, w) :=
        P9Client.Write indeterminate fid offset buffer count c w in
      (s, c, w)
  | OpClunk fid => P9Client.Clunk indeterminate fid c w
  | OpRemove fid => P9Client.Remove indeterminate fid c w
  | OpGetAttr fid mask =>
      let '(s, _, c, w) := P9Client.GetAttr indeterminate fid mask c w in
      (s, c, w)
  | OpSetAttr fid valid mode uid gid size a1 a2 m1 m2 =>
      P9Client.SetAttr indeterminate fid valid mode uid gid size a1 a2 m1 m2
        c w
  | OpReadDir fid offset count =>
      let '(s, _, c, w) :=
        P9Client.ReadDir indeterminate fid offset count c w in
      (s, c, w)
  | OpMkdir dfid name mode gid qid =>
      let '(s, _, c, w) :=
        P9Client.Mkdir indeterminate dfid name mode gid qid c w in
      (s, c, w)
  | OpUnlink dfid name flags => P9Client.Unlink indeterminate dfid name flags c w
  | OpRename olddirfid oldname newdirfid newname =>
      P9Client.Rename indeterminate olddirfid oldname newdirfid newname c w
  | OpStatFS fid =>
      let '(s, _, c, w) := P9Client.StatFS indeterminate fid c w in
      (s, c, w)
  | OpFSync fid dataOnly => P9Client.FSync indeterminate fid dataOnly c w
  | OpReadLink fid targetSize =>
      let '(s, _, c, w) :=
        P9Client.ReadLink indeterminate fid targetSize c w in
      (s, c, w)
  | OpSymlink dfid name target gid qid =>
      let '(s, _, c, w) :=
        P9Client.Symlink indeterminate dfid name target gid qid c w in
      (s, c, w)
  | OpLink dfid fid name => P9Client.Link indeterminate dfid fid name c w
  end.

(** The states a client goes through: constructed, then any sequence of
    calls of its public functions, [Init], [Uninit], [Disconnect],
    [AllocateFid], [ReleaseFid], [WalkPath] and the operations, against
    any transport states. *)
Inductive reachable : P9Client.t -> Prop :=
  | reach_new : reachable P9Client.new
  | reach_Init c transport msize :
      reachable c -> reachable (snd (P9Client.Init transport msize c))
  | reach_op c o w :
      reachable c -> reachable (snd (fst (run_op o c w)))
  | reach_AllocateFid c :
      reachable c -> reachable (snd (P9Client.AllocateFid c))
  | reach_ReleaseFid c fid :
      reachable c -> reachable (P9Client.ReleaseFid fid c)
  | reach_WalkPath c fid newfid nwname wnames w :
      reachable c ->
      reachable
        (snd (fst (P9Client.WalkPath indeterminate fid newfid nwname wnames
                     c w)))
  | reach_Disconnect c w :
      reachable c -> reachable (fst (P9Client.Disconnect indeterminate c w))
  | reach_Uninit c w :
      reachable c -> reachable (fst (P9Client.Uninit indeterminate c w)).

End RunOp.

(** ** Version negotiation *)

Section Negotiation.

Context {T : Type} `{P9Transport T}.

(** The [Tversion] request [Connect] builds. *)
Definition version_request (c : P9Client.t) : P9Message.t :=
  snd (P9Message.BuildVersion P9_NOTAG (P9Client.fMsize c) P9_VERSION_9P2000_L
         (fresh_message (P9Client.fMsize c))).

(** The transport delivers the version request and hands back a frame
    that reads as [Rversion] carrying [serverMsize] and [version]. *)
Definition answers_Rversion (c : P9Client.t) (w : T)
    (serverMsize : Z) (version : cstring) : Prop :=
  exists response w1 tag size r1 v r2,
    P9Client.DoRequest (version_request c) c w = (B_OK, response, w1) /\
    P9Message.ReadHeader response = (B_OK, (P9_RVERSION, tag, size), r1) /\
    P9Message.ParseVersion 32 r1 = (B_OK, (serverMsize, v), r2) /\
    c_str v = version.

End Negotiation.

(** ** Walking *)

Section Walking.

Context {T : Type} `{P9Transport T}.

(** The names [Walk] sends for [path] and their 16-bit count. *)
Definition walk_nwname (path : cstring) : Z :=
  uint16 (Z.of_nat (length (P9Client.components (c_str path)))).

Definition walk_wnames (path : cstring) : list cstring :=
  take (Z.to_nat (walk_nwname path)) (P9Client.components (c_str path)).

(** The [Twalk] transaction of [Walk(fid, newfid, path)] completes: the
    request is built and exchanged, and the response reads as an [Rwalk]
    that parses with [nwqid] qids. *)
Definition Rwalk_received (c : P9Client.t) (w : T) (fid newfid : Z)
    (path : cstring) (nwqid : Z) : Prop :=
  exists request response w1 tag size r1 qids r2,
    P9Message.BuildWalk (P9Client.AllocateTag c).1 fid newfid
      (walk_nwname path) (walk_wnames path)
      (fresh_message (P9Client.fMsize c)) = (B_OK, request) /\
    P9Client.DoRequest request (P9Client.AllocateTag c).2 w
      = (B_OK, response, w1) /\
    P9Message.ReadHeader response = (B_OK, (P9_RWALK, tag, size), r1) /\
    P9Message.ParseWalk (walk_nwname path) r1 = (B_OK, (nwqid, qids), r2).

End Walking.

(** ** Frames on the wire (docs/9P_PROTOCOL.md)

    [size[4] type[1] tag[2]] followed by the payload, all little-endian. *)

Definition frame (type tag : Z) (payload : list Z) : list Z :=
  le_bytes 4 (7 + Z.of_nat (length payload)) ++ le_bytes 1 type
  ++ le_bytes 2 tag ++ payload.

Definition qid_bytes (q : P9Qid) : list Z :=
  le_bytes 1 (qid_type q) ++ le_bytes 4 (qid_version q)
  ++ le_bytes 8 (qid_path q).

(** [Tread: fid[4] offset[8] count[4]] *)
Definition Tread_frame (tag fid offset count : Z) : list Z :=
  frame P9_TREAD tag (le_bytes 4 fid ++ le_bytes 8 offset ++ le_bytes 4 count).

(** Replies a server may send. *)
Definition Rversion_frame (msize : Z) (version : list Z) : list Z :=
  frame P9_RVERSION P9_NOTAG
    (le_bytes 4 msize ++ le_bytes 2 (Z.of_nat (length version)) ++ version).
Definition Rattach_frame (tag : Z) (q : P9Qid) : list Z :=
  frame P9_RATTACH tag (qid_bytes q).
Definition Rlerror_frame (tag ecode : Z) : list Z :=
  frame P9_RLERROR tag (le_bytes 4 ecode).
Definition Rwalk_frame (tag : Z) (qids : list P9Qid) : list Z :=
  frame P9_RWALK tag
    (le_bytes 2 (Z.of_nat (length qids)) ++ concat (map qid_bytes qids)).
Definition Rread_frame (tag : Z) (data : list Z) : list Z :=
  frame P9_RREAD tag (le_bytes 4 (Z.of_nat (length data)) ++ data).
Definition Rclunk_frame (tag : Z) : list Z := frame P9_RCLUNK tag [].
Definition Rgetattr_frame (tag : Z) (q : P9Qid) (mode size : Z) : list Z :=
  frame P9_RGETATTR tag
    (le_bytes 8 P9_GETATTR_BASIC ++ qid_bytes q ++ le_bytes 4 mode
     ++ le_bytes 4 0 ++ le_bytes 4 0 ++ le_bytes 8 1 ++ le_bytes 8 0
     ++ le_bytes 8 size ++ replicate 96 0).

(** ** Chunked reads *)

(** One [Tread] transaction of [Inode::Read]: the tag it used, the
    offset and count it asked for and the count the reply carried. *)
Record chunk : Set := mkChunk {
  ch_tag : Z; ch_offset : Z; ch_count : Z; ch_got : Z }.

(** The transactions of a read of [remaining] bytes at [pos] of which
    [total] have been returned: each asks at [pos + total] for the
    smaller of what remains and [iounit]; an empty reply ends the read,
    any other is followed by a request for the rest. *)
Fixpoint read_plan (iounit pos remaining total : Z) (chunks : list chunk)
  : Prop :=
  match chunks with
  | [] => remaining <= 0
  | ch :: rest =>
      0 < remaining /\
      ch_offset ch = uint64 (pos + total) /\
      ch_count ch = Z.min remaining iounit /\
      if ch_got ch =? 0 then rest = []
      else read_plan iounit pos (uint64 (remaining - ch_got ch))
             (uint64 (total + ch_got ch)) rest
  end.

(** The byte count accumulated over the transactions. *)
Fixpoint plan_total (total : Z) (chunks : list chunk) : Z :=
  match chunks with
  | [] => total
  | ch :: rest => plan_total (uint64 (total + ch_got ch)) rest
  end.

Definition chunk_frame (fid : Z) (ch : chunk) : list Z :=
  Tread_frame (ch_tag ch) fid (ch_offset ch) (ch_count ch).

(** The reply stayed within what was asked for. *)
Definition chunk_fits (ch : chunk) : Prop := 0 <= ch_got ch <= ch_count ch.

Section ReadReplies.

Context {T : Type} `{P9Transport T}.
Variable indeterminate : Z.

(** Whatever state the transport is in, a successful [P9Client::Read] on
    [fid] reports no more bytes than the caller asked for. *)
Definition replies_fit (fid : Z) : Prop :=
  forall (offset count : Z) (c : P9Client.t) (w : T),
    0 <= count ->
    let '(status, (got, _), _, _) :=
      P9Client.Read indeterminate fid offset count c w in
    is_ok status = true -> 0 <= got <= count.

End ReadReplies.

(** The sum of the reply counts. *)
Definition chunks_got (chunks : list chunk) : Z :=
  foldr (fun ch acc => ch_got ch + acc) 0 chunks.

(** ** States and servers of the examples *)

Definition root_qid : P9Qid := mkQid P9_QTDIR 0 1.

(** A client initialised with [msize] and connected against a server
    that accepts the version and the attach. *)
Definition connected_client (msize : Z) : P9Client.t :=
  (P9Client.Connect 0 []
     (P9Client.Init true msize P9Client.new).2
     [Rversion_frame msize P9_VERSION_9P2000_L; Rattach_frame 0 root_qid]).1.2.

(** A volume mounted on such a client. *)
Definition mounted_volume (msize : Z) (readOnly : bool) : Volume.t :=
  Volume.mk (connected_client msize) (Some O)
    (P9Client.fRootFid (connected_client msize)) (Some 1)
    (Some [104; 111; 115; 116]) None readOnly.

(** The root directory and a regular file. *)
Definition root_inode : Inode.t := Inode.mk 1 1 root_qid (Z.lor S_IFDIR 493) 0 true.
Definition file_inode : Inode.t :=
  Inode.mk 2 2 (mkQid 0 0 2) (Z.lor S_IFREG 420) 12000 true.

(** A file opened on fid 2. *)
Definition open_cookie : FileCookie := mkFileCookie 2 0 0.

(** S4: with [msize] 4107, hence [iounit] 4096, the server answers three
    reads in full. *)
Definition S4_volume : Volume.t := mounted_volume 4107 false.
Definition S4_server : Recorder Script :=
  mkRecorder []
    [Rread_frame 1 (replicate 4096 7); Rread_frame 2 (replicate 4096 7);
     Rread_frame 3 (replicate 3808 7)].

(** A server that answers a read of 10 bytes with 4 bytes, then with the
    remaining 6. *)
Definition short_reply_server : Recorder Script :=
  mkRecorder []
    [Rread_frame 1 (replicate 4 7); Rread_frame 2 (replicate 6 7)].

(** What a caller and the wire see of a read: the status, the final
    [*_length] and the frames sent. *)
Definition read_outcome {T : Type}
    (r : option (status_t * (Z * list Z) * Volume.t * Recorder T))
  : option (status_t * Z * list (list Z)) :=
  match r with
  | Some (status, (len, _), _, w) => Some (status, len, rec_log w)
  | None => None
  end.

(** ** The mutating operations of an inode as one type

    Each with its arguments and, for [Create], the outcomes of its two
    allocations. *)

Inductive mutation : Set :=
  | MWrite (cookie : FileCookie) (pos : Z) (buffer : list Z) (length_ : Z)
  | MCreate (inodeAllocated cookieAllocated : bool) (name : cstring)
      (openMode perms : Z)
  | MRemove (name : cstring)
  | MRename (fromName : cstring) (toDir : Inode.t) (toName : cstring)
  | MCreateDir (name : cstring) (perms : Z)
  | MRemoveDir (name : cstring)
  | MCreateSymlink (name target : cstring)
  | MWriteStat (st : stat) (statMask : Z).

(** The check of its arguments an operation makes before it looks at
    the read-only flag: [B_OK] when it passes. *)
Definition argument_check (m : mutation) (i : Inode.t) : status_t :=
  match m with
  | MWrite _ pos _ _ => if pos <? 0 then B_BAD_VALUE else B_OK
  | MWriteStat _ _ => B_OK
  | MRename _ toDir _ =>
      if negb (Inode.IsDirectory i) || negb (Inode.IsDirectory toDir)
      then B_NOT_A_DIRECTORY else B_OK
  | _ => if negb (Inode.IsDirectory i) then B_NOT_A_DIRECTORY else B_OK
  end.

Section RunMutation.

Context {T : Type} `{P9Transport T}.
Context {V : Type} `{HostVFS V Inode.t}.
Variable indeterminate : Z.

(** Run a mutating operation on inode [i], keeping its status and every
    state it can touch. *)
Definition run_mutation (fuel : nat) (m : mutation) (i : Inode.t)
    (vol : Volume.t) (w : T) (v : V)
  : option (status_t * Inode.t * Volume.t * T * V) :=
  match m with
  | MWrite cookie pos buffer length_ =>
      match Inode.Write indeterminate fuel cookie pos buffer length_ i vol w with
      | Some (s, _, i, vol, w) => Some (s, i, vol, w, v)
      | None => None
      end
  | MCreate inodeAllocated cookieAllocated name openMode perms =>
      let '(s, _, vol, w, v) :=
        Inode.Create indeterminate inodeAllocated cookieAllocated name
          openMode perms i vol w v in
      Some (s, i, vol, w, v)
  | MRemove name =>
      let '(s, vol, w) := Inode.Remove indeterminate name i vol w in
      Some (s, i, vol, w, v)
  | MRename fromName toDir toName =>
      let '(s, vol, w) :=
        Inode.Rename indeterminate fromName toDir toName i vol w in
      Some (s, i, vol, w, v)
  | MCreateDir name perms =>
      let '(s, vol, w) := Inode.CreateDir indeterminate name perms i vol w in
      Some (s, i, vol, w, v)
  | MRemoveDir name =>
      let '(s, vol, w) := Inode.RemoveDir indeterminate name i vol w in
      Some (s, i, vol, w, v)
  | MCreateSymlink name target =>
      let '(s, vol, w) :=
        Inode.CreateSymlink indeterminate name target i vol w in
      Some (s, i, vol, w, v)
  | MWriteStat st statMask =>
      let '(s, i, vol, w) := Inode.WriteStat indeterminate st statMask i vol w in
      Some (s, i, vol, w, v)
  end.

End RunMutation.

(** ** Mounting: arguments, registry and server of the examples *)

(** "tag=host,msize=4096" and "tag=host" *)
Definition args_tag_msize : cstring :=
  [116; 97; 103; 61; 104; 111; 115; 116; 44;
   109; 115; 105; 122; 101; 61; 52; 48; 57; 54].
Definition args_tag : cstring := [116; 97; 103; 61; 104; 111; 115; 116].
(** A registry with one transport in use, tagged "host". *)
Definition host_registry : list TransportEntry :=
  [mkEntry [104; 111; 115; 116] true].
(** A server that accepts the version and the attach and describes the
    root directory twice. *)
Definition mount_server : Recorder Script :=
  mkRecorder []
    [Rversion_frame 8192 P9_VERSION_9P2000_L; Rattach_frame 0 root_qid;
     Rgetattr_frame 1 root_qid (Z.lor S_IFDIR 493) 0;
     Rgetattr_frame 2 root_qid (Z.lor S_IFDIR 493) 0].
(** [Tversion: msize[4] version[s]] *)
Definition Tversion_frame (msize : Z) (version : list Z) : list Z :=
  frame P9_TVERSION P9_NOTAG
    (le_bytes 4 msize ++ le_bytes 2 (Z.of_nat (length version)) ++ version).

(** What a caller and the wire see of a mount: the status, the client's
    [msize] and the first frame sent. *)
Definition mount_outcome {T V : Type}
    (r : status_t * option Z * Volume.t * Recorder T * V)
  : status_t * Z * option (list Z) :=
  let '(status, _, vol, w, _) := r in
  (status, P9Client.fMsize (Volume.Client vol), head (rec_log w)).

(** ** Pools, requests, replies, the registry and directory entries *)

(** The bitmap has the [(maxFids + 31) / 32] words that [Init]
    allocates. *)
Definition fid_pool_sized (p : FidPool.t) : Prop :=
  Z.of_nat (length (FidPool.fBitmap p)) = (FidPool.fMaxFids p + 31) / 32.


Section Answers.
Context {T : Type} `{P9Transport T}.


End Answers.

(** [Connect] is the one operation that makes two exchanges. *)
Definition is_connect (o : client_op) : bool :=
  match o with OpConnect _ => true | _ => false end.

(** A server that offers an [msize] of 32 and accepts the attach. *)
Definition version_server : Script :=
  [Rversion_frame 32 P9_VERSION_9P2000_L; Rattach_frame 0 root_qid].

(** The bytes below the write position: the frame so far. *)
Definition written (b : P9Buffer.t) : list Z :=
  take (Z.to_nat (P9Buffer.fWritePos b)) (P9Buffer.fBuffer b).

(** The write position lies within the capacity and the capacity within
    the storage. *)
Definition buffer_wf (b : P9Buffer.t) : Prop :=
  0 <= P9Buffer.fWritePos b <= P9Buffer.fCapacity b /\
  P9Buffer.fCapacity b <= Z.of_nat (length (P9Buffer.fBuffer b)).

(** [appends W bs]: in any well-formed buffer the writer [W] succeeds
    exactly when [bs] fits below the capacity, and then it has added
    [bs] to the bytes written; otherwise it fails with
    [B_BUFFER_OVERFLOW], having added at most a prefix of [bs].  It
    never touches the capacity, the read position or the bytes written
    before. *)
Definition appends (W : P9Buffer.t -> status_t * P9Buffer.t) (bs : list Z)
  : Prop :=
  forall b, buffer_wf b ->
    buffer_wf (W b).2 /\
    P9Buffer.fCapacity (W b).2 = P9Buffer.fCapacity b /\
    P9Buffer.fReadPos (W b).2 = P9Buffer.fReadPos b /\
    if P9Buffer.fWritePos b + Z.of_nat (length bs) <=? P9Buffer.fCapacity b
    then (W b).1 = B_OK /\ written (W b).2 = written b ++ bs
    else (W b).1 = B_BUFFER_OVERFLOW /\
         exists k, written (W b).2 = written b ++ take k bs.

(** The writers [ws] in order, stopping at the first failure: what
    [P9Message.fields] does to the embedded buffer. *)
Fixpoint write_all (ws : list (P9Buffer.t -> status_t * P9Buffer.t))
    (b : P9Buffer.t) : status_t * P9Buffer.t :=
  match ws with
  | [] => (B_OK, b)
  | w :: ws' =>
      let '(status, b) := w b in
      if negb (is_ok status) then (status, b) else write_all ws' b
  end.

(** The field [s] of a string: the 16-bit count [strlen] narrows to and
    that many bytes of the string. *)
Definition string_field (s : cstring) : list Z :=
  le_bytes 2 (uint16 (strlen s))
  ++ take (Z.to_nat (uint16 (strlen s))) (c_str s).

(** The bytes as the cursor stores them. *)
Definition byte_values (data : list Z) : list Z :=
  concat (map (le_bytes 1) data).

(** ** The requests of the client, with the arguments of their builders *)
Inductive request : Set :=
  | Tversion (msize : Z) (version : cstring)
  | Tattach (fid afid : Z) (uname aname : cstring) (n_uname : Z)
  | Twalk (fid newfid : Z) (wnames : list cstring)
  | Tlopen (fid flags : Z)
  | Tlcreate (fid : Z) (name : cstring) (flags mode gid : Z)
  | Tread (fid offset count : Z)
  | Twrite (fid offset : Z) (data : list Z)
  | Tclunk (fid : Z)
  | Tremove (fid : Z)
  | Tgetattr (fid mask : Z)
  | Tsetattr (fid valid mode uid gid size
              atime_sec atime_nsec mtime_sec mtime_nsec : Z)
  | Treaddir (fid offset count : Z)
  | Tmkdir (dfid : Z) (name : cstring) (mode gid : Z)
  | Tunlinkat (dfid : Z) (name : cstring) (flags : Z)
  | Trenameat (olddirfid : Z) (oldname : cstring) (newdirfid : Z)
              (newname : cstring)
  | Tstatfs (fid : Z)
  | Tfsync (fid datasync : Z)
  | Treadlink (fid : Z)
  | Tsymlink (dfid : Z) (name target : cstring) (gid : Z)
  | Tlink (dfid fid : Z) (name : cstring).

Definition request_code (r : request) : Z :=
  match r with
  | Tversion _ _ => P9_TVERSION
  | Tattach _ _ _ _ _ => P9_TATTACH
  | Twalk _ _ _ => P9_TWALK
  | Tlopen _ _ => P9_TLOPEN
  | Tlcreate _ _ _ _ _ => P9_TLCREATE
  | Tread _ _ _ => P9_TREAD
  | Twrite _ _ _ => P9_TWRITE
  | Tclunk _ => P9_TCLUNK
  | Tremove _ => P9_TREMOVE
  | Tgetattr _ _ => P9_TGETATTR
  | Tsetattr _ _ _ _ _ _ _ _ _ _ => P9_TSETATTR
  | Treaddir _ _ _ => P9_TREADDIR
  | Tmkdir _ _ _ _ => P9_TMKDIR
  | Tunlinkat _ _ _ => P9_TUNLINKAT
  | Trenameat _ _ _ _ => P9_TRENAMEAT
  | Tstatfs _ => P9_TSTATFS
  | Tfsync _ _ => P9_TFSYNC
  | Treadlink _ => P9_TREADLINK
  | Tsymlink _ _ _ _ => P9_TSYMLINK
  | Tlink _ _ _ => P9_TLINK
  end.

(** The builder of each request.  [Twalk] sends all its names and
    [Twrite] all its data. *)
Definition build_request (tag : Z) (r : request) (m : P9Message.t)
  : status_t * P9Message.t :=
  match r with
  | Tversion msize version => P9Message.BuildVersion tag msize version m
  | Tattach fid afid uname aname n_uname =>
      P9Message.BuildAttach tag fid afid uname aname n_uname m
  | Twalk fid newfid wnames =>
      P9Message.BuildWalk tag fid newfid (Z.of_nat (length wnames)) wnames m
  | Tlopen fid flags => P9Message.BuildLopen tag fid flags m
  | Tlcreate fid name flags mode gid =>
      P9Message.BuildLcreate tag fid name flags mode gid m
  | Tread fid offset count => P9Message.BuildRead tag fid offset count m
  | Twrite fid offset data =>
      P9Message.BuildWrite tag fid offset data (Z.of_nat (length data)) m
  | Tclunk fid => P9Message.BuildClunk tag fid m
  | Tremove fid => P9Message.BuildRemove tag fid m
  | Tgetattr fid mask => P9Message.BuildGetattr tag fid mask m
  | Tsetattr fid valid mode uid gid size a1 a2 m1 m2 =>
      P9Message.BuildSetattr tag fid valid mode uid gid size a1 a2 m1 m2 m
  | Treaddir fid offset count => P9Message.BuildReaddir tag fid offset count m
  | Tmkdir dfid name mode gid => P9Message.BuildMkdir tag dfid name mode gid m
  | Tunlinkat dfid name flags => P9Message.BuildUnlinkat tag dfid name flags m
  | Trenameat olddirfid oldname newdirfid newname =>
      P9Message.BuildRenameat tag olddirfid oldname newdirfid newname m
  | Tstatfs fid => P9Message.BuildStatfs tag fid m
  | Tfsync fid datasync => P9Message.BuildFsync tag fid datasync m
  | Treadlink fid => P9Message.BuildReadlink tag fid m
  | Tsymlink dfid name target gid =>
      P9Message.BuildSymlink tag dfid name target gid m
  | Tlink dfid fid name => P9Message.BuildLink tag dfid fid name m
  end.

(** The payload of each request as docs/9P_PROTOCOL.md lays it out:
    [x[n]] is an [n]-byte little-endian integer, [x[s]] a string field.
    [Tremove] and [Tlink] are not in that document; theirs are the
    layouts of 9P2000.L. *)
Definition documented_payload (r : request) : list Z :=
  match r with
  | Tversion msize version => le_bytes 4 msize ++ string_field version
  | Tattach fid afid uname aname n_uname =>
      le_bytes 4 fid ++ le_bytes 4 afid ++ string_field uname
      ++ string_field aname ++ le_bytes 4 n_uname
  | Twalk fid newfid wnames =>
      le_bytes 4 fid ++ le_bytes 4 newfid
      ++ le_bytes 2 (Z.of_nat (length wnames))
      ++ concat (map string_field wnames)
  | Tlopen fid flags => le_bytes 4 fid ++ le_bytes 4 flags
  | Tlcreate fid name flags mode gid =>
      le_bytes 4 fid ++ string_field name ++ le_bytes 4 flags
      ++ le_bytes 4 mode ++ le_bytes 4 gid
  | Tread fid offset count =>
      le_bytes 4 fid ++ le_bytes 8 offset ++ le_bytes 4 count
  | Twrite fid offset data =>
      le_bytes 4 fid ++ le_bytes 8 offset
      ++ le_bytes 4 (Z.of_nat (length data)) ++ byte_values data
  | Tclunk fid => le_bytes 4 fid
  | Tremove fid => le_bytes 4 fid
  | Tgetattr fid mask => le_bytes 4 fid ++ le_bytes 8 mask
  | Tsetattr fid valid mode uid gid size a1 a2 m1 m2 =>
      le_bytes 4 fid ++ le_bytes 4 valid ++ le_bytes 4 mode ++ le_bytes 4 uid
      ++ le_bytes 4 gid ++ le_bytes 8 size ++ le_bytes 8 a1 ++ le_bytes 8 a2
      ++ le_bytes 8 m1 ++ le_bytes 8 m2
  | Treaddir fid offset count =>
      le_bytes 4 fid ++ le_bytes 8 offset ++ le_bytes 4 count
  | Tmkdir dfid name mode gid =>
      le_bytes 4 dfid ++ string_field name ++ le_bytes 4 mode ++ le_bytes 4 gid
  | Tunlinkat dfid name flags =>
      le_bytes 4 dfid ++ string_field name ++ le_bytes 4 flags
  | Trenameat olddirfid oldname newdirfid newname =>
      le_bytes 4 olddirfid ++ string_field oldname ++ le_bytes 4 newdirfid
      ++ string_field newname
  | Tstatfs fid => le_bytes 4 fid
  | Tfsync fid datasync => le_bytes 4 fid ++ le_bytes 4 datasync
  | Treadlink fid => le_bytes 4 fid
  | Tsymlink dfid name target gid =>
      le_bytes 4 dfid ++ string_field name ++ string_field target
      ++ le_bytes 4 gid
  | Tlink dfid fid name =>
      le_bytes 4 dfid ++ le_bytes 4 fid ++ string_field name
  end.

(** A byte string a C string can hold as it is: no NUL. *)
Definition no_nul (s : list Z) : Prop := Forall (fun b => b <> 0) s.
(** An option of the argument list: not empty, no comma, no NUL. *)
Definition option_text (s : list Z) : Prop :=
  s <> [] /\ Forall (fun b => b <> 0 /\ b <> 44) s.

(** ** The transport registry (virtio_9p_device.cpp) *)
Module Registry.

Definition MAX_VIRTIO_9P_DEVICES : nat := 8.

(** A [P9Transport*] is an address; [None] is NULL.  [mountTag] is the
    string its array holds. *)
Record Slot : Set := mkSlot {
  transport : option Z;
  mountTag : cstring;
  inUse : bool }.

(** [sTransports] and [sInitialized]; the static array starts zeroed. *)
Record t : Set := mk {
  sTransports : list Slot;
  sInitialized : bool }.

Definition empty_slot : Slot := mkSlot None [] false.

Definition new : t := mk (replicate MAX_VIRTIO_9P_DEVICES empty_slot) false.

Definition _InitRegistry (r : t) : t :=
  if sInitialized r then r
  else mk (replicate MAX_VIRTIO_9P_DEVICES empty_slot) true.

(** [strlcpy(dst, src, size)]: at most [size - 1] bytes of [src]. *)
Definition strlcpy (src : cstring) (size : nat) : cstring :=
  take (size - 1) (c_str src).

(** The loop of [virtio_9p_register_transport]: the first slot not in
    use takes the transport. *)
Fixpoint register_slot (slots : list Slot) (p : Z) (tag : cstring)
  : option (list Slot) :=
  match slots with
  | [] => None
  | s :: rest =>
      if negb (inUse s) then Some (mkSlot (Some p) (strlcpy tag 256) true :: rest)
      else cons s <$> register_slot rest p tag
  end.

Definition virtio_9p_register_transport (transport : option Z)
    (mountTag : option cstring) (r : t) : status_t * t :=
  match transport, mountTag with
  | Some p, Some tag =>
      let r := _InitRegistry r in
      match register_slot (sTransports r) p tag with
      | Some slots => (B_OK, mk slots (sInitialized r))
      | None => (B_NO_MEMORY, r)
      end
  | _, _ => (B_BAD_VALUE, r)
  end.

(** The loop of [virtio_9p_unregister_transport]: the first slot in use
    that holds the transport is cleared. *)
Fixpoint unregister_slot (slots : list Slot) (p : Z) : list Slot :=
  match slots with
  | [] => []
  | s :: rest =>
      if inUse s && bool_decide (transport s = Some p)
      then empty_slot :: rest
      else s :: unregister_slot rest p
  end.

Definition virtio_9p_unregister_transport (transport : option Z) (r : t) : t :=
  match transport with
  | None => r
  | Some p => mk (unregister_slot (sTransports r) p) (sInitialized r)
  end.

(** The loop of [virtio_9p_find_transport]. *)
Fixpoint find_slot (slots : list Slot) (tag : cstring) : option Z :=
  match slots with
  | [] => None
  | s :: rest =>
      if inUse s && streq (mountTag s) tag then transport s
      else find_slot rest tag
  end.

Definition virtio_9p_find_transport (mountTag : option cstring) (r : t)
  : option Z * t :=
  match mountTag with
  | None => (None, r)
  | Some tag =>
      let r := _InitRegistry r in
      (find_slot (sTransports r) tag, r)
  end.

End Registry.

(** The slots in use that carry [tag]. *)
Definition tagged (tag : cstring) (s : Registry.Slot) : bool :=
  Registry.inUse s && streq (Registry.mountTag s) tag.

(** What the registry functions keep: the array has its eight slots,
    and until the first call initialises it none is in use. *)
Definition registry_wf (r : Registry.t) : Prop :=
  length (Registry.sTransports r) = Registry.MAX_VIRTIO_9P_DEVICES /\
  Forall (fun s => Registry.inUse s = false -> s = Registry.empty_slot)
    (Registry.sTransports r) /\
  (Registry.sInitialized r = false ->
   Registry.sTransports r
   = replicate Registry.MAX_VIRTIO_9P_DEVICES Registry.empty_slot).

(** A server that accepts a clone and an open. *)
Definition open_server : Script :=
  [Rwalk_frame 1 []; frame P9_RLOPEN 2 (qid_bytes (mkQid 0 0 2) ++ le_bytes 4 0)].

(** A server that accepts a clone and a create and describes the new
    file. *)
Definition create_server : Script :=
  [Rwalk_frame 1 [];
   frame P9_RLCREATE 2 (qid_bytes (mkQid 0 0 2) ++ le_bytes 4 0);
   Rgetattr_frame 3 (mkQid 0 0 2) (Z.lor S_IFREG 420) 0].

(** What an operation other than [Connect] leaves of the client: all
    but the tag pool. *)
Definition same_but_tags (c c' : P9Client.t) : Prop :=
  P9Client.fTransport c' = P9Client.fTransport c /\
  P9Client.fFidPool c' = P9Client.fFidPool c /\
  P9Client.fMsize c' = P9Client.fMsize c /\
  P9Client.fIOUnit c' = P9Client.fIOUnit c /\
  P9Client.fRootFid c' = P9Client.fRootFid c /\
  P9Client.fConnected c' = P9Client.fConnected c.

(** What [with_client] leaves of the volume. *)
Definition same_volume (vol vol' : Volume.t) : Prop :=
  same_but_tags (Volume.fClient vol) (Volume.fClient vol') /\
  Volume.fTransport vol' = Volume.fTransport vol /\
  Volume.fRootFid vol' = Volume.fRootFid vol /\
  Volume.fRootInode vol' = Volume.fRootInode vol /\
  Volume.fMountTag vol' = Volume.fMountTag vol /\
  Volume.fAname vol' = Volume.fAname vol /\
  Volume.fReadOnly vol' = Volume.fReadOnly vol.

(** The names [P9Client::Walk] passes to [BuildWalk]: none for a clone
    (no path, an empty path, or a count of components that is zero as a
    [uint16]), else the first [nwname] components. *)
Definition walk_request_names (path : option cstring) : list cstring :=
  match path with
  | None => []
  | Some path =>
      match c_str path with
      | [] => []
      | _ =>
          let names := P9Client.components (c_str path) in
          let nwname := uint16 (Z.of_nat (length names)) in
          if nwname =? 0 then [] else take (Z.to_nat nwname) names
      end
  end.

(** The request each operation hands to its builder; for [Connect],
    the attach that follows the version exchange. *)
Definition request_of (o : client_op) (c : P9Client.t) : request :=
  let capped count :=
    if count >? P9Client.fIOUnit c then P9Client.fIOUnit c else count in
  match o with
  | OpConnect aname =>
      Tattach (FidPool.Allocate (P9Client.fFidPool c)).1 P9_NOFID [] aname
        P9_NONUNAME
  | OpWalk fid newfid path => Twalk fid newfid (walk_request_names path)
  | OpOpen fid flags => Tlopen fid flags
  | OpCreate fid name flags mode gid => Tlcreate fid name flags mode gid
  | OpRead fid offset count => Tread fid offset (capped count)
  | OpWrite fid offset buffer count =>
      Twrite fid offset (take (Z.to_nat (capped count)) buffer)
  | OpClunk fid => Tclunk fid
  | OpRemove fid => Tremove fid
  | OpGetAttr fid mask => Tgetattr fid mask
  | OpSetAttr fid valid mode uid gid size a1 a2 m1 m2 =>
      Tsetattr fid valid mode uid gid size a1 a2 m1 m2
  | OpReadDir fid offset count => Treaddir fid offset (capped count)
  | OpMkdir dfid name mode gid _ => Tmkdir dfid name mode gid
  | OpUnlink dfid name flags => Tunlinkat dfid name flags
  | OpRename olddirfid oldname newdirfid newname =>
      Trenameat olddirfid oldname newdirfid newname
  | OpStatFS fid => Tstatfs fid
  | OpFSync fid dataOnly => Tfsync fid (if dataOnly then 1 else 0)
  | OpReadLink fid _ => Treadlink fid
  | OpSymlink dfid name target gid _ => Tsymlink dfid name target gid
  | OpLink dfid fid name => Tlink dfid fid name
  end.

(** The buffer of a write holds the bytes the caller says it holds. *)
Definition buffer_holds (o : client_op) : Prop :=
  match o with
  | OpWrite _ _ buffer count => 0 <= count <= Z.of_nat (length buffer)
  | _ => True
  end.

(** ** The replies the client parses, with the values they carry *)
Inductive reply : Set :=
  | Rlerror (ecode : Z)
  | Rversion (msize : Z) (version : list Z)
  | Rattach (qid : P9Qid)
  | Rwalk (qids : list P9Qid)
  | Rlopen (qid : P9Qid) (iounit : Z)
  | Rlcreate (qid : P9Qid) (iounit : Z)
  | Rread (data : list Z)
  | Rwrite (count : Z)
  | Rgetattr (attr : P9Attr)
  | Rreaddir (data : list Z)
  | Rmkdir (qid : P9Qid)
  | Rstatfs (statfs : P9StatFS)
  | Rreadlink (target : list Z)
  | Rsymlink (qid : P9Qid).

Definition reply_code (r : reply) : Z :=
  match r with
  | Rlerror _ => P9_RLERROR
  | Rversion _ _ => P9_RVERSION
  | Rattach _ => P9_RATTACH
  | Rwalk _ => P9_RWALK
  | Rlopen _ _ => P9_RLOPEN
  | Rlcreate _ _ => P9_RLCREATE
  | Rread _ => P9_RREAD
  | Rwrite _ => P9_RWRITE
  | Rgetattr _ => P9_RGETATTR
  | Rreaddir _ => P9_RREADDIR
  | Rmkdir _ => P9_RMKDIR
  | Rstatfs _ => P9_RSTATFS
  | Rreadlink _ => P9_RREADLINK
  | Rsymlink _ => P9_RSYMLINK
  end.

(** [x[s]] of a reply: a 16-bit length, then the bytes. *)
Definition string_bytes (s : list Z) : list Z :=
  le_bytes 2 (Z.of_nat (length s)) ++ s.

(** A run of unsigned fields, each with its width in bytes. *)
Definition uint_fields (fields : list (nat * Z)) : list Z :=
  concat (map (fun f => le_bytes f.1 f.2) fields).

Definition attr_fields (a : P9Attr) : list (nat * Z) :=
  [(4%nat, attr_mode a); (4%nat, attr_uid a); (4%nat, attr_gid a);
   (8%nat, attr_nlink a); (8%nat, attr_rdev a); (8%nat, attr_size a);
   (8%nat, attr_blksize a); (8%nat, attr_blocks a);
   (8%nat, attr_atime_sec a); (8%nat, attr_atime_nsec a);
   (8%nat, attr_mtime_sec a); (8%nat, attr_mtime_nsec a);
   (8%nat, attr_ctime_sec a); (8%nat, attr_ctime_nsec a);
   (8%nat, attr_btime_sec a); (8%nat, attr_btime_nsec a);
   (8%nat, attr_gen a); (8%nat, attr_data_version a)].

Definition statfs_fields (s : P9StatFS) : list (nat * Z) :=
  [(4%nat, sfs_type s); (4%nat, sfs_bsize s); (8%nat, sfs_blocks s);
   (8%nat, sfs_bfree s); (8%nat, sfs_bavail s); (8%nat, sfs_files s);
   (8%nat, sfs_ffree s); (8%nat, sfs_fsid s); (4%nat, sfs_namelen s)].

(** The payload of each reply as docs/9P_PROTOCOL.md lays it out. *)
Definition documented_reply (r : reply) : list Z :=
  match r with
  | Rlerror ecode => le_bytes 4 ecode
  | Rversion msize version => le_bytes 4 msize ++ string_bytes version
  | Rattach qid => qid_bytes qid
  | Rwalk qids =>
      le_bytes 2 (Z.of_nat (length qids)) ++ concat (map qid_bytes qids)
  | Rlopen qid iounit => qid_bytes qid ++ le_bytes 4 iounit
  | Rlcreate qid iounit => qid_bytes qid ++ le_bytes 4 iounit
  | Rread data => le_bytes 4 (Z.of_nat (length data)) ++ data
  | Rwrite count => le_bytes 4 count
  | Rgetattr a =>
      le_bytes 8 (attr_valid a) ++ qid_bytes (attr_qid a)
      ++ uint_fields (attr_fields a)
  | Rreaddir data => le_bytes 4 (Z.of_nat (length data)) ++ data
  | Rmkdir qid => qid_bytes qid
  | Rstatfs s => uint_fields (statfs_fields s)
  | Rreadlink target => string_bytes target
  | Rsymlink qid => qid_bytes qid
  end.

Definition fields_in_range (fields : list (nat * Z)) : Prop :=
  Forall (fun f => 0 <= f.2 < 256 ^ Z.of_nat f.1) fields.

(** Every field of the reply holds a value of its width; [limit] is the
    bound the caller of the parser passes: the size of the destination
    of a string, the number of qids it has room for. *)
Definition reply_in_range (limit : Z) (r : reply) : Prop :=
  match r with
  | Rlerror ecode => 0 <= ecode < 2 ^ 32
  | Rversion msize version =>
      0 <= msize < 2 ^ 32 /\ Z.of_nat (length version) < 2 ^ 16 /\
      Z.of_nat (length version) < limit
  | Rattach qid | Rmkdir qid | Rsymlink qid => qid_in_range qid
  | Rwalk qids =>
      Forall qid_in_range qids /\ Z.of_nat (length qids) < 2 ^ 16 /\
      Z.of_nat (length qids) <= limit
  | Rlopen qid iounit | Rlcreate qid iounit =>
      qid_in_range qid /\ 0 <= iounit < 2 ^ 32
  | Rread data | Rreaddir data => Z.of_nat (length data) < 2 ^ 32
  | Rwrite count => 0 <= count < 2 ^ 32
  | Rgetattr a =>
      0 <= attr_valid a < 2 ^ 64 /\ qid_in_range (attr_qid a) /\
      fields_in_range (attr_fields a)
  | Rstatfs s => fields_in_range (statfs_fields s)
  | Rreadlink target =>
      Z.of_nat (length target) < 2 ^ 16 /\ Z.of_nat (length target) < limit
  end.

(** The parser of the reply's kind takes [m] to [m'] and yields the
    values of [r]; the data of a read stays in the message, at the
    position the parser returns. *)
Definition parses_to (limit : Z) (r : reply) (m m' : P9Message.t) : Prop :=
  let at_position data pos :=
    peek (P9Buffer.fBuffer (P9Message.fBuffer m')) (Z.to_nat pos) (length data)
    = data in
  match r with
  | Rlerror ecode => P9Message.ParseLerror m = (B_OK, ecode, m')
  | Rversion msize version =>
      P9Message.ParseVersion limit m = (B_OK, (msize, version ++ [0]), m')
  | Rattach qid => P9Message.ParseAttach m = (B_OK, qid, m')
  | Rwalk qids =>
      P9Message.ParseWalk limit m
      = (B_OK, (Z.of_nat (length qids), qids), m')
  | Rlopen qid iounit => P9Message.ParseLopen m = (B_OK, (qid, iounit), m')
  | Rlcreate qid iounit =>
      P9Message.ParseLcreate m = (B_OK, (qid, iounit), m')
  | Rread data =>
      exists pos,
        P9Message.ParseRead m = (B_OK, (Z.of_nat (length data), pos), m') /\
        at_position data pos
  | Rwrite count => P9Message.ParseWrite m = (B_OK, count, m')
  | Rgetattr a => P9Message.ParseGetattr m = (B_OK, Some a, m')
  | Rreaddir data =>
      exists pos,
        P9Message.ParseReaddir m = (B_OK, (Z.of_nat (length data), pos), m') /\
        at_position data pos
  | Rmkdir qid => P9Message.ParseMkdir m = (B_OK, qid, m')
  | Rstatfs s => P9Message.ParseStatfs m = (B_OK, Some s, m')
  | Rreadlink target =>
      P9Message.ParseReadlink limit m = (B_OK, target ++ [0], m')
  | Rsymlink qid => P9Message.ParseSymlink m = (B_OK, qid, m')
  end.

(** What a parser leaves unread: the data of a read. *)
Definition unparsed (r : reply) : list Z :=
  match r with
  | Rread data | Rreaddir data => data
  | _ => []
  end.

(** ** P9DirEntryParser: the entries of an [Rreaddir] *)
(** [name] is a pointer: [None] for NULL. *)
Record P9DirEnt : Set := mkDirEnt {
  de_qid : P9Qid; de_offset : Z; de_type : Z; de_name : option cstring }.

Module P9DirEntryParser.

Definition t : Set := P9Buffer.t.

  (** [P9DirEntryParser(data, size)]: [data] is the memory from the
      pointer on. *)
Definition new (data : list Z) (size : Z) : t :=
    P9Buffer.SetSize size (P9Buffer.new data size).

Definition HasNext (p : t) : bool := P9Buffer.ReadRemaining p >? 0.

  (** [Next(entry)]: the fields of [entry] read before a failure are
      stored, the others keep what [entry] held; [allocated] tells
      whether the [malloc] of [ReadStringAlloc] returns memory. *)
Definition Next (allocated : bool) (entry : P9DirEnt) (p : t)
    : status_t * P9DirEnt * t :=
    let '(status, qid, p) := P9Buffer.ReadQid p in
    let entry := mkDirEnt qid (de_offset entry) (de_type entry) (de_name entry) in
    if negb (is_ok status) then (status, entry, p) else
    let '(status, offset, p) := P9Buffer.ReadUint64 p in
    let entry := mkDirEnt (de_qid entry) offset (de_type entry) (de_name entry) in
    if negb (is_ok status) then (status, entry, p) else
    let '(status, type, p) := P9Buffer.ReadUint8 p in
    let entry := mkDirEnt (de_qid entry) (de_offset entry) type (de_name entry) in
    if negb (is_ok status) then (status, entry, p) else
    let '(status, name, len, p) :=
      P9Buffer.ReadStringAlloc allocated (de_name entry) p in
    let entry := mkDirEnt (de_qid entry) (de_offset entry) (de_type entry) name in
    if negb (is_ok status) then (status, entry, p) else
    (B_OK, entry, p).

End P9DirEntryParser.

(** [qid[13] offset[8] type[1] name[s]] *)
Definition dirent_bytes (qid : P9Qid) (offset type : Z) (name : list Z)
  : list Z :=
  qid_bytes qid ++ le_bytes 8 offset ++ le_bytes 1 type ++ string_bytes name.

Definition dirent_in_range (qid : P9Qid) (offset type : Z) (name : list Z)
  : Prop :=
  qid_in_range qid /\ 0 <= offset < 2 ^ 64 /\ 0 <= type < 2 ^ 8 /\
  Z.of_nat (length name) < 2 ^ 16.

(** * Verification *)

Lemma is_ok_true s : is_ok s = true <-> s = B_OK.
Proof. destruct s; simpl; split; congruence. Qed.


(** *** Little-endian encoding *)

Lemma le_bytes_length n v : length (le_bytes n v) = n.
Proof. revert v; induction n as [|n IH]; intros v; simpl; [done|]. by rewrite IH. Qed.

Lemma le_value_le_bytes n v :
  le_value (le_bytes n v) = v mod 256 ^ Z.of_nat n.
Proof.
  revert v; induction n as [|n IH]; intros v.
  - simpl. by rewrite Z.mod_1_r.
  - cbn [le_bytes le_value]. rewrite IH.
    rewrite Nat2Z.inj_succ, Z.pow_succ_r by lia.
    rewrite Z.rem_mul_r by lia. lia.
Qed.

Lemma le_round_trip n v :
  0 <= v < 256 ^ Z.of_nat n -> le_value (le_bytes n v) = v.
Proof. intros Hv. rewrite le_value_le_bytes. by apply Z.mod_small. Qed.

(** Byte [i] of the encoding is bits [8i .. 8i+7] of the value. *)
Lemma le_bytes_lookup n v (i : nat) :
  (i < n)%nat ->
  le_bytes n v !! i = Some (Z.land (Z.shiftr v (8 * Z.of_nat i)) 255).
Proof.
  revert v i; induction n as [|n IH]; intros v i Hi; [lia|].
  destruct i as [|i]; cbn [le_bytes lookup list_lookup].
  - simpl. f_equal. change 255 with (Z.ones 8). rewrite Z.land_ones by lia.
    by rewrite Z.shiftr_0_r.
  - rewrite IH by lia. f_equal. f_equal.
    rewrite Z.shiftr_div_pow2 by lia. rewrite Z.shiftr_div_pow2 by lia.
    replace (8 * Z.of_nat (S i)) with (8 + 8 * Z.of_nat i) by lia.
    rewrite Z.pow_add_r by lia. rewrite Z.div_div by lia. done.
Qed.

(** *** Raw memory *)

Lemma memcpy_length mem pos src : length (memcpy mem pos src) = length mem.
Proof.
  revert mem pos; induction src as [|b src IH]; intros mem pos; simpl; [done|].
  by rewrite IH, length_insert.
Qed.

Lemma memcpy_spec mem pos src :
  (pos + length src <= length mem)%nat ->
  memcpy mem pos src = take pos mem ++ src ++ drop (pos + length src) mem.
Proof.
  revert mem pos; induction src as [|b src IH]; intros mem pos Hlen; simpl in *.
  - rewrite Nat.add_0_r. by rewrite take_drop.
  - rewrite IH by (rewrite length_insert; simpl in *; lia).
    rewrite (take_S_r _ _ b) by (apply list_lookup_insert_eq; lia).
    rewrite take_insert_ge by lia.
    rewrite drop_insert_lt by lia.
    rewrite <- app_assoc. simpl. f_equal. f_equal. f_equal. f_equal; lia.
Qed.

Lemma peek_memcpy mem pos src :
  (pos + length src <= length mem)%nat ->
  peek (memcpy mem pos src) pos (length src) = src.
Proof.
  intros Hlen. unfold peek. rewrite memcpy_spec by done.
  rewrite drop_app_length' by (rewrite length_take; lia).
  by rewrite take_app_length.
Qed.

#[local] Arguments le_bytes : simpl never.
#[local] Arguments le_value : simpl never.

Lemma pending_length b R :
  pending b R -> Z.of_nat (length R) = P9Buffer.fWritePos b - P9Buffer.fReadPos b.
Proof.
  intros (H1 & H2 & H3 & <-). rewrite length_drop, length_take. lia.
Qed.

Lemma pending_store b R src :
  pending b R ->
  P9Buffer.fWritePos b + Z.of_nat (length src) <= P9Buffer.fCapacity b ->
  pending (P9Buffer.store src (Z.of_nat (length src)) b) (R ++ src).
Proof.
  intros (H1 & H2 & H3 & H4) Hroom. unfold pending, P9Buffer.store; simpl.
  rewrite memcpy_length. repeat split; try lia.
  rewrite memcpy_spec by lia.
  replace (Z.to_nat (P9Buffer.fWritePos b + Z.of_nat (length src)))
    with (Z.to_nat (P9Buffer.fWritePos b) + length src)%nat by lia.
  rewrite app_assoc.
  rewrite take_app_length' by (rewrite length_app, length_take; lia).
  rewrite drop_app_le by (rewrite length_take; lia).
  by rewrite H4.
Qed.

Lemma pending_load b x R (n : Z) :
  pending b (x ++ R) -> n = Z.of_nat (length x) ->
  P9Buffer.load n b = x /\ pending (P9Buffer.advance n b) R.
Proof.
  intros Hp ->. pose proof (pending_length _ _ Hp) as Hlen.
  destruct Hp as (H1 & H2 & H3 & H4). rewrite length_app in Hlen.
  unfold P9Buffer.load, peek, pending, P9Buffer.advance; simpl.
  rewrite Nat2Z.id.
  assert (Hx : take (length x)
            (drop (Z.to_nat (P9Buffer.fReadPos b)) (P9Buffer.fBuffer b)) = x).
  { rewrite <- (take_app_length x R) at 2. rewrite <- H4.
    rewrite !take_drop_commute, take_take. do 2 f_equal. lia. }
  split; [done|]. repeat split; try lia.
  replace (Z.to_nat (P9Buffer.fReadPos b + Z.of_nat (length x)))
    with (Z.to_nat (P9Buffer.fReadPos b) + length x)%nat by lia.
  rewrite <- drop_drop, H4. by rewrite drop_app_length.
Qed.

(** A reader of a [k]-byte unsigned integer. *)
Lemma ReadUint8_pending b x R :
  pending b (x ++ R) -> length x = 1%nat ->
  exists b', P9Buffer.ReadUint8 b = (B_OK, le_value x, b') /\ pending b' R.
Proof.
  intros Hp Hx. pose proof (pending_length _ _ Hp) as Hlen.
  rewrite length_app, Hx in Hlen.
  destruct (pending_load b x R 1 Hp) as [Hl Hp']; [lia|].
  unfold P9Buffer.ReadUint8. case_match; [lia|]. rewrite Hl. eauto.
Qed.

Lemma ReadUint16_pending b x R :
  pending b (x ++ R) -> length x = 2%nat ->
  exists b', P9Buffer.ReadUint16 b = (B_OK, le_value x, b') /\ pending b' R.
Proof.
  intros Hp Hx. pose proof (pending_length _ _ Hp) as Hlen.
  rewrite length_app, Hx in Hlen.
  destruct (pending_load b x R 2 Hp) as [Hl Hp']; [lia|].
  unfold P9Buffer.ReadUint16. case_match; [lia|]. rewrite Hl. eauto.
Qed.

Lemma ReadUint32_pending b x R :
  pending b (x ++ R) -> length x = 4%nat ->
  exists b', P9Buffer.ReadUint32 b = (B_OK, le_value x, b') /\ pending b' R.
Proof.
  intros Hp Hx. pose proof (pending_length _ _ Hp) as Hlen.
  rewrite length_app, Hx in Hlen.
  destruct (pending_load b x R 4 Hp) as [Hl Hp']; [lia|].
  unfold P9Buffer.ReadUint32. case_match; [lia|]. rewrite Hl. eauto.
Qed.

Lemma ReadUint64_pending b x R :
  pending b (x ++ R) -> length x = 8%nat ->
  exists b', P9Buffer.ReadUint64 b = (B_OK, le_value x, b') /\ pending b' R.
Proof.
  intros Hp Hx. pose proof (pending_length _ _ Hp) as Hlen.
  rewrite length_app, Hx in Hlen.
  destruct (pending_load b x R 8 Hp) as [Hl Hp']; [lia|].
  unfold P9Buffer.ReadUint64. case_match; [lia|]. rewrite Hl. eauto.
Qed.

Lemma WriteUint8_pending b R v :
  pending b R -> P9Buffer.fWritePos b + 1 <= P9Buffer.fCapacity b ->
  exists b', P9Buffer.WriteUint8 v b = (B_OK, b') /\
             pending b' (R ++ le_bytes 1 v) /\
             P9Buffer.fWritePos b' = P9Buffer.fWritePos b + 1 /\
             P9Buffer.fCapacity b' = P9Buffer.fCapacity b.
Proof.
  intros Hp Hroom. unfold P9Buffer.WriteUint8. case_match; [lia|].
  eexists; split; [done|]. split; [|done].
  apply (pending_store b R (le_bytes 1 v)); [done|]. rewrite le_bytes_length. lia.
Qed.

Lemma WriteUint16_pending b R v :
  pending b R -> P9Buffer.fWritePos b + 2 <= P9Buffer.fCapacity b ->
  exists b', P9Buffer.WriteUint16 v b = (B_OK, b') /\
             pending b' (R ++ le_bytes 2 v) /\
             P9Buffer.fWritePos b' = P9Buffer.fWritePos b + 2 /\
             P9Buffer.fCapacity b' = P9Buffer.fCapacity b.
Proof.
  intros Hp Hroom. unfold P9Buffer.WriteUint16. case_match; [lia|].
  eexists; split; [done|]. split; [|done].
  apply (pending_store b R (le_bytes 2 v)); [done|]. rewrite le_bytes_length. lia.
Qed.

Lemma WriteUint32_pending b R v :
  pending b R -> P9Buffer.fWritePos b + 4 <= P9Buffer.fCapacity b ->
  exists b', P9Buffer.WriteUint32 v b = (B_OK, b') /\
             pending b' (R ++ le_bytes 4 v) /\
             P9Buffer.fWritePos b' = P9Buffer.fWritePos b + 4 /\
             P9Buffer.fCapacity b' = P9Buffer.fCapacity b.
Proof.
  intros Hp Hroom. unfold P9Buffer.WriteUint32. case_match; [lia|].
  eexists; split; [done|]. split; [|done].
  apply (pending_store b R (le_bytes 4 v)); [done|]. rewrite le_bytes_length. lia.
Qed.

Lemma WriteUint64_pending b R v :
  pending b R -> P9Buffer.fWritePos b + 8 <= P9Buffer.fCapacity b ->
  exists b', P9Buffer.WriteUint64 v b = (B_OK, b') /\
             pending b' (R ++ le_bytes 8 v) /\
             P9Buffer.fWritePos b' = P9Buffer.fWritePos b + 8 /\
             P9Buffer.fCapacity b' = P9Buffer.fCapacity b.
Proof.
  intros Hp Hroom. unfold P9Buffer.WriteUint64. case_match; [lia|].
  eexists; split; [done|]. split; [|done].
  apply (pending_store b R (le_bytes 8 v)); [done|]. rewrite le_bytes_length. lia.
Qed.

Lemma c_str_id s : Forall (fun b => b <> 0) s -> c_str s = s.
Proof.
  induction 1 as [|b s Hb _ IH]; simpl; [done|].
  destruct (Z.eqb_spec b 0); [done|]. by rewrite IH.
Qed.

Lemma WriteString_pending b R s :
  pending b R -> Forall (fun c => c <> 0) s ->
  Z.of_nat (length s) < 2 ^ 16 ->
  P9Buffer.fWritePos b + 2 + Z.of_nat (length s) <= P9Buffer.fCapacity b ->
  exists b', P9Buffer.WriteString s b = (B_OK, b') /\
             pending b' (R ++ le_bytes 2 (Z.of_nat (length s)) ++ s) /\
             P9Buffer.fWritePos b' = P9Buffer.fWritePos b + 2 + Z.of_nat (length s) /\
             P9Buffer.fCapacity b' = P9Buffer.fCapacity b.
Proof.
  intros Hp Hs Hlen Hroom.
  unfold P9Buffer.WriteString, P9Buffer.WriteStringLen, strlen, uint16.
  rewrite (c_str_id s Hs). rewrite Z.mod_small by lia.
  case_match; [lia|].
  destruct (WriteUint16_pending b R (Z.of_nat (length s)) Hp) as (b1 & -> & Hp1 & Hw1 & Hc1); [lia|].
  cbn [negb is_ok]. rewrite Nat2Z.id, firstn_all.
  destruct (Z.gtb_spec (Z.of_nat (length s)) 0).
  - eexists; split; [done|]. split.
    + rewrite app_assoc. apply pending_store; [done|lia].
    + simpl. lia.
  - destruct s; [|simpl in *; lia]. eexists; split; [done|].
    split; [|simpl in *; lia]. by rewrite app_nil_r.
Qed.

Lemma ReadString_pending b s R size :
  pending b (le_bytes 2 (Z.of_nat (length s)) ++ s ++ R) ->
  Z.of_nat (length s) < 2 ^ 16 -> Z.of_nat (length s) < size ->
  exists b', P9Buffer.ReadString size b = (B_OK, s ++ [0], b') /\ pending b' R.
Proof.
  intros Hp Hlen Hsize. unfold P9Buffer.ReadString.
  destruct (ReadUint16_pending b _ _ Hp) as (b1 & -> & Hp1); [by rewrite le_bytes_length|].
  cbn [negb is_ok]. rewrite le_round_trip by (change (256 ^ Z.of_nat 2) with (2^16); lia).
  pose proof (pending_length _ _ Hp1) as Hl. rewrite length_app in Hl.
  case_match; [lia|]. case_match; [lia|].
  destruct (pending_load b1 s R (Z.of_nat (length s)) Hp1) as [-> Hp2]; [done|].
  eauto.
Qed.

Lemma room_pending n b : room n b -> 0 <= n -> pending b [].
Proof.
  intros (H1 & H2 & H3 & H4) Hn. unfold pending. rewrite H1.
  repeat split; try lia. apply drop_ge. rewrite length_take. lia.
Qed.

Lemma pending_nil_end b : pending b [] -> P9Buffer.fReadPos b = P9Buffer.fWritePos b.
Proof. intros Hp. pose proof (pending_length _ _ Hp). simpl in *. lia. Qed.

Lemma pending_lookup b R (i : nat) x :
  pending b R -> R !! i = Some x ->
  P9Buffer.fBuffer b !! (Z.to_nat (P9Buffer.fReadPos b) + i)%nat = Some x.
Proof.
  intros (H1 & H2 & H3 & <-) Hi. rewrite lookup_drop in Hi.
  apply lookup_take_Some in Hi. by destruct Hi.
Qed.

Lemma WriteQid_pending b R q :
  pending b R -> P9Buffer.fWritePos b + 13 <= P9Buffer.fCapacity b ->
  exists b', P9Buffer.WriteQid q b = (B_OK, b') /\
    pending b' (R ++ le_bytes 1 (qid_type q) ++ le_bytes 4 (qid_version q)
                  ++ le_bytes 8 (qid_path q)) /\
    P9Buffer.fWritePos b' = P9Buffer.fWritePos b + 13 /\
    P9Buffer.fCapacity b' = P9Buffer.fCapacity b.
Proof.
  intros Hp Hroom. unfold P9Buffer.WriteQid.
  destruct (WriteUint8_pending b R (qid_type q) Hp) as (b1 & -> & Hp1 & Hw1 & Hc1); [lia|].
  cbn [negb is_ok].
  destruct (WriteUint32_pending b1 _ (qid_version q) Hp1) as (b2 & -> & Hp2 & Hw2 & Hc2); [lia|].
  cbn [negb is_ok].
  destruct (WriteUint64_pending b2 _ (qid_path q) Hp2) as (b3 & -> & Hp3 & Hw3 & Hc3); [lia|].
  eexists; split; [done|]. rewrite <- !app_assoc in Hp3. split; [done|]. lia.
Qed.

Lemma ReadQid_pending b q R :
  qid_in_range q ->
  pending b (le_bytes 1 (qid_type q) ++ le_bytes 4 (qid_version q)
             ++ le_bytes 8 (qid_path q) ++ R) ->
  exists b', P9Buffer.ReadQid b = (B_OK, q, b') /\ pending b' R.
Proof.
  intros (Ht & Hv & Hpa) Hp. unfold P9Buffer.ReadQid.
  destruct (ReadUint8_pending b _ _ Hp) as (b1 & -> & Hp1); [by rewrite le_bytes_length|].
  cbn [negb is_ok].
  destruct (ReadUint32_pending b1 _ _ Hp1) as (b2 & -> & Hp2); [by rewrite le_bytes_length|].
  cbn [negb is_ok].
  destruct (ReadUint64_pending b2 _ _ Hp2) as (b3 & -> & Hp3); [by rewrite le_bytes_length|].
  rewrite !le_round_trip by done. destruct q; eauto.
Qed.

(** Back-patching the first bytes of a buffer read from the start. *)
Lemma pending_patch b x R src :
  pending b (x ++ R) -> P9Buffer.fReadPos b = 0 ->
  length src = length x ->
  pending (P9Buffer.mk (memcpy (P9Buffer.fBuffer b) 0 src)
             (P9Buffer.fCapacity b) (P9Buffer.fWritePos b)
             (P9Buffer.fReadPos b)) (src ++ R).
Proof.
  intros Hp Hr Hlen. pose proof (pending_length _ _ Hp) as Hl.
  destruct Hp as (H1 & H2 & H3 & H4). rewrite length_app in Hl.
  unfold pending; simpl. rewrite memcpy_length. repeat split; try lia.
  rewrite Hr in *. simpl in *. rewrite drop_0 in *.
  rewrite memcpy_spec by (simpl; lia). simpl.
  rewrite take_app_ge by lia. f_equal.
  rewrite <- (drop_app_length x R), <- H4.
  rewrite take_drop_commute, Hlen. do 2 f_equal. lia.
Qed.

Ltac msg_simpl :=
  cbn [negb is_ok P9Message.with_buffer P9Message.fBuffer P9Message.fMsize
       P9Message.fType P9Message.fTag P9Message.fOwnsBuffer fst snd].

(** The frame [BuildVersion] leaves in a fresh message. *)
Lemma BuildVersion_frame msize tag ms version :
  Forall (fun c => c <> 0) version ->
  Z.of_nat (length version) < 2 ^ 16 ->
  13 + Z.of_nat (length version) <= msize ->
  exists m1,
    P9Message.BuildVersion tag ms version
      (snd (P9Message.Init (P9Message.new msize))) = (B_OK, m1) /\
    P9Message.Size m1 = 13 + Z.of_nat (length version) /\
    P9Buffer.fReadPos (P9Message.fBuffer m1) = 0 /\
    pending (P9Message.fBuffer m1)
      (le_bytes 4 (13 + Z.of_nat (length version)) ++
       le_bytes 1 P9_TVERSION ++ le_bytes 2 tag ++ le_bytes 4 ms ++
       le_bytes 2 (Z.of_nat (length version)) ++ version).
Proof.
  intros Hv Hlen Hm.
  set (b0 := P9Buffer.new (replicate (Z.to_nat msize) 0) msize).
  assert (Hp0 : pending b0 []).
  { unfold pending, b0; simpl. rewrite length_replicate. repeat split; try lia. }
  unfold P9Message.BuildVersion, P9Message.build, P9Message.WriteHeader,
    P9Message.fields, P9Message.put, P9Message.FinalizeHeader.
  cbn [P9Message.Init P9Message.new P9Message.Reset P9Message.fOwnsBuffer
       P9Message.fBuffer P9Message.fMsize P9Message.fType P9Message.fTag snd
       P9Buffer.Reset P9Buffer.new P9Buffer.fBuffer P9Buffer.fCapacity].
  fold b0. change (P9Buffer.Reset b0) with b0.
  destruct (WriteUint32_pending b0 [] 0 Hp0) as (b1 & -> & Hp1 & Hw1 & Hc1);
    [simpl; lia|]. msg_simpl.
  destruct (WriteUint8_pending b1 _ P9_TVERSION Hp1) as (b2 & -> & Hp2 & Hw2 & Hc2);
    [simpl in *; lia|]. msg_simpl.
  destruct (WriteUint16_pending b2 _ tag Hp2) as (b3 & -> & Hp3 & Hw3 & Hc3);
    [simpl in *; lia|]. msg_simpl.
  destruct (WriteUint32_pending b3 _ ms Hp3) as (b4 & -> & Hp4 & Hw4 & Hc4);
    [simpl in *; lia|]. msg_simpl.
  destruct (WriteString_pending b4 _ version Hp4 Hv Hlen) as (b5 & -> & Hp5 & Hw5 & Hc5);
    [simpl in *; lia|]. msg_simpl.
  assert (Hr5 : P9Buffer.fReadPos b5 = 0).
  { pose proof (pending_length _ _ Hp5) as Hl.
    rewrite !length_app, !le_bytes_length in Hl. simpl in *. lia. }
  assert (Hsz : P9Buffer.fWritePos b5 = 13 + Z.of_nat (length version))
    by (simpl in *; lia).
  rewrite <- ?app_assoc in Hp5. rewrite app_nil_l in Hp5.
  pose proof (pending_patch b5 _ _
    (le_bytes 4 (uint32 (P9Buffer.Size b5))) Hp5 Hr5) as Hp6.
  rewrite !le_bytes_length in Hp6. specialize (Hp6 eq_refl).
  unfold uint32, P9Buffer.Size in *. rewrite Hsz, Z.mod_small in Hp6 by lia.
  eexists. split; [reflexivity|]. unfold P9Message.Size, P9Buffer.Size. msg_simpl.
  cbn [P9Buffer.fWritePos P9Buffer.fReadPos]. rewrite Hsz, Z.mod_small by lia. done.
Qed.

(** [ReadHeader] on a message whose buffer starts with a header. *)
Lemma ReadHeader_pending m size type tag R :
  P9Buffer.fReadPos (P9Message.fBuffer m) = 0 ->
  pending (P9Message.fBuffer m)
    (le_bytes 4 size ++ le_bytes 1 type ++ le_bytes 2 tag ++ R) ->
  0 <= size < 2 ^ 32 -> 0 <= type < 2 ^ 8 -> 0 <= tag < 2 ^ 16 ->
  exists m2,
    P9Message.ReadHeader m = (B_OK, (type, tag, size), m2) /\
    pending (P9Message.fBuffer m2) R /\ P9Message.fType m2 = type.
Proof.
  intros Hr Hp Hs Hty Htag. unfold P9Message.ReadHeader.
  replace (P9Buffer.ResetRead (P9Message.fBuffer m)) with (P9Message.fBuffer m)
    by (unfold P9Buffer.ResetRead; rewrite <- Hr; by destruct (P9Message.fBuffer m)).
  destruct (ReadUint32_pending _ _ _ Hp) as (c1 & -> & Hq1); [by rewrite le_bytes_length|].
  msg_simpl.
  destruct (ReadUint8_pending _ _ _ Hq1) as (c2 & -> & Hq2); [by rewrite le_bytes_length|].
  msg_simpl.
  destruct (ReadUint16_pending _ _ _ Hq2) as (c3 & -> & Hq3); [by rewrite le_bytes_length|].
  msg_simpl. rewrite !le_round_trip by done. eauto.
Qed.

Lemma ParseVersion_pending m ms version size R :
  pending (P9Message.fBuffer m)
    (le_bytes 4 ms ++ le_bytes 2 (Z.of_nat (length version)) ++ version ++ R) ->
  0 <= ms < 2 ^ 32 ->
  Z.of_nat (length version) < 2 ^ 16 -> Z.of_nat (length version) < size ->
  exists m3,
    P9Message.ParseVersion size m = (B_OK, (ms, version ++ [0]), m3) /\
    pending (P9Message.fBuffer m3) R.
Proof.
  intros Hp Hms Hlen Hsize. unfold P9Message.ParseVersion, P9Message.get.
  destruct (ReadUint32_pending _ _ _ Hp) as (c4 & -> & Hq4); [by rewrite le_bytes_length|].
  msg_simpl.
  destruct (ReadString_pending _ _ _ size Hq4 Hlen Hsize) as (c5 & -> & Hq5).
  rewrite le_round_trip by done. eauto.
Qed.

Lemma BuildVersion_round_trip msize tag ms version size :
  0 <= tag < 2 ^ 16 -> 0 <= ms < 2 ^ 32 ->
  Forall (fun c => c <> 0) version ->
  Z.of_nat (length version) < 2 ^ 16 -> Z.of_nat (length version) < size ->
  13 + Z.of_nat (length version) <= msize ->
  exists m1 m2 m3,
    P9Message.BuildVersion tag ms version (snd (P9Message.Init (P9Message.new msize)))
      = (B_OK, m1) /\
    P9Message.ReadHeader m1 = (B_OK, (P9_TVERSION, tag, P9Message.Size m1), m2) /\
    P9Message.ParseVersion size m2 = (B_OK, (ms, version ++ [0]), m3).
Proof.
  intros Htag Hms Hv Hlen Hsize Hm.
  destruct (BuildVersion_frame msize tag ms version Hv Hlen Hm)
    as (m1 & Hb & Hsz & Hr & Hp).
  destruct (ReadHeader_pending m1 _ _ _ _ Hr Hp) as (m2 & Hh & Hp2 & _);
    [lia|done|done|].
  rewrite <- (app_nil_r version) in Hp2 at 2.
  destruct (ParseVersion_pending m2 _ _ size _ Hp2 Hms Hlen Hsize) as (m3 & Hv3 & _).
  exists m1, m2, m3. by rewrite Hsz.
Qed.

Lemma testbit_shiftl_1 bit n :
  0 <= bit -> 0 <= n -> Z.testbit (Z.shiftl 1 bit) n = (bit =? n).
Proof. intros Hb Hn. rewrite Z.shiftl_1_l. by apply Z.pow2_bits_eqb. Qed.

Lemma land_bit_0 w bit :
  0 <= bit -> Z.land w (Z.shiftl 1 bit) = 0 -> Z.testbit w bit = false.
Proof.
  intros Hb H. assert (Ht : Z.testbit (Z.land w (Z.shiftl 1 bit)) bit = false)
    by (by rewrite H, Z.bits_0).
  rewrite Z.land_spec, testbit_shiftl_1, Z.eqb_refl, andb_true_r in Ht; done.
Qed.

Lemma word_set_clear w bit :
  0 <= w < 2 ^ 32 -> 0 <= bit < 32 -> Z.land w (Z.shiftl 1 bit) = 0 ->
  Z.land (Z.lor w (Z.shiftl 1 bit)) (uint32 (Z.lnot (Z.shiftl 1 bit))) = w.
Proof.
  intros Hw Hb H0. apply land_bit_0 in H0; [|lia].
  apply Z.bits_inj'. intros n Hn. unfold uint32.
  rewrite Z.land_spec, Z.lor_spec, testbit_shiftl_1 by lia.
  destruct (Z.lt_ge_cases n 32) as [Hlt|Hge].
  - rewrite Z.mod_pow2_bits_low, Z.lnot_spec, testbit_shiftl_1 by lia.
    destruct (Z.eqb_spec bit n) as [->|Hne]; simpl.
    + by rewrite H0, orb_true_r.
    + by rewrite orb_false_r, andb_true_r.
  - rewrite Z.mod_pow2_bits_high by lia. rewrite andb_false_r.
    symmetry. destruct (Z.eq_dec w 0) as [->|Hnz]; [apply Z.bits_0|].
    apply Z.bits_above_log2; [lia|].
    assert (Z.log2 w < 32) by (apply Z.log2_lt_pow2; lia). lia.
Qed.

Lemma word_clear_test w bit :
  0 <= bit < 32 ->
  Z.land (Z.land w (uint32 (Z.lnot (Z.shiftl 1 bit)))) (Z.shiftl 1 bit) = 0.
Proof.
  intros Hb. apply Z.bits_inj'. intros n Hn. unfold uint32.
  rewrite !Z.land_spec, testbit_shiftl_1, Z.bits_0 by lia.
  destruct (Z.eqb_spec bit n) as [->|Hne]; [|by rewrite andb_false_r].
  rewrite Z.mod_pow2_bits_low, Z.lnot_spec, testbit_shiftl_1, Z.eqb_refl by lia.
  simpl. by rewrite !andb_false_r.
Qed.

Lemma bitmap_word_range bm word :
  uint32_words bm -> 0 <= bitmap_word bm word < 2 ^ 32.
Proof.
  intros Hbm. unfold bitmap_word.
  destruct (bm !! Z.to_nat word) as [x|] eqn:Hx; simpl; [|lia].
  by apply (Forall_lookup_1 _ _ _ _ Hbm Hx).
Qed.

(** Releasing a slot that was free before it was taken restores the bitmap. *)
Lemma bitmap_clear_set bm id :
  uint32_words bm -> 0 <= id -> bitmap_test bm id = 0 ->
  bitmap_clear (bitmap_set bm id) id = bm.
Proof.
  intros Hbm Hid Ht. unfold bitmap_clear, bitmap_set, bitmap_test in *.
  assert (Hbit : 0 <= id mod 32 < 32) by (apply Z.mod_pos_bound; lia).
  destruct (decide (Z.to_nat (id / 32) < length bm)%nat) as [Hin|Hout].
  - unfold bitmap_word at 1. rewrite list_lookup_insert_eq by done. simpl.
    rewrite list_insert_insert_eq.
    rewrite word_set_clear; [|by apply bitmap_word_range|done|done].
    apply list_insert_id. unfold bitmap_word.
    destruct (lookup_lt_is_Some_2 bm _ Hin) as [x Hx]. by rewrite Hx.
  - by rewrite !list_insert_ge by (rewrite ?length_insert; lia).
Qed.

Lemma bitmap_test_clear bm id :
  0 <= id -> bitmap_test (bitmap_clear bm id) id = 0.
Proof.
  intros Hid. unfold bitmap_clear, bitmap_test.
  assert (Hbit : 0 <= id mod 32 < 32) by (apply Z.mod_pos_bound; lia).
  destruct (decide (Z.to_nat (id / 32) < length bm)%nat) as [Hin|Hout].
  - unfold bitmap_word at 1. rewrite list_lookup_insert_eq by done. simpl.
    by apply word_clear_test.
  - rewrite list_insert_ge by lia. unfold bitmap_word.
    rewrite lookup_ge_None_2 by lia. simpl. apply Z.land_0_l.
Qed.

Lemma bitmap_set_words bm id :
  uint32_words bm -> 0 <= id -> uint32_words (bitmap_set bm id).
Proof.
  intros Hbm Hid. unfold bitmap_set.
  assert (Hbit : 0 <= id mod 32 < 32) by (apply Z.mod_pos_bound; lia).
  destruct (decide (Z.to_nat (id / 32) < length bm)%nat) as [Hin|Hout].
  - apply Forall_insert; [done|].
    pose proof (bitmap_word_range bm (id / 32) Hbm) as Hw.
    split; [apply Z.lor_nonneg; split; [lia|apply Z.shiftl_nonneg; lia]|].
    apply Z.log2_lt_cancel. rewrite Z.log2_pow2 by lia.
    destruct (Z.eq_dec (Z.lor (bitmap_word bm (id / 32)) (Z.shiftl 1 (id mod 32))) 0) as [->|Hnz];
      [simpl; lia|].
    rewrite Z.log2_lor by (try lia; apply Z.shiftl_nonneg; lia).
    apply Z.max_lub_lt.
    + destruct (Z.eq_dec (bitmap_word bm (id / 32)) 0) as [->|?]; [simpl; lia|].
      apply Z.log2_lt_pow2; lia.
    + rewrite Z.shiftl_1_l, Z.log2_pow2; lia.
  - by rewrite list_insert_ge by lia.
Qed.

Lemma bitmap_clear_words bm id :
  uint32_words bm -> 0 <= id -> uint32_words (bitmap_clear bm id).
Proof.
  intros Hbm Hid. unfold bitmap_clear.
  destruct (decide (Z.to_nat (id / 32) < length bm)%nat) as [Hin|Hout].
  - apply Forall_insert; [done|].
    pose proof (bitmap_word_range bm (id / 32) Hbm) as Hw.
    assert (Hm : 0 <= uint32 (Z.lnot (Z.shiftl 1 (id mod 32))) < 2 ^ 32)
      by (apply Z.mod_pos_bound; lia).
    split; [apply Z.land_nonneg; lia|].
    set (x := Z.land _ _).
    assert (0 <= x) by (apply Z.land_nonneg; lia).
    destruct (Z.eq_dec x 0) as [->|Hnz]; [lia|].
    apply Z.log2_lt_pow2; [lia|].
    pose proof (Z.log2_land (bitmap_word bm (id / 32))
                  (uint32 (Z.lnot (Z.shiftl 1 (id mod 32))))) as Hl.
    fold x in Hl.
    destruct (Z.eq_dec (bitmap_word bm (id / 32)) 0) as [E|?].
    { subst x. rewrite E, Z.land_0_l in Hnz. done. }
    assert (Z.log2 (bitmap_word bm (id / 32)) < 32)
      by (apply Z.log2_lt_pow2; lia).
    lia.
  - by rewrite list_insert_ge by lia.
Qed.

(** *** TagPool *)

Lemma TagPool_scan_spec n i p tag p' :
  0 < TagPool.fMaxTags p ->
  TagPool.scan n i p = (tag, p') ->
  (tag = P9_NOTAG /\ p' = p) \/
  (0 <= tag < TagPool.fMaxTags p /\
   bitmap_test (TagPool.fBitmap p) tag = 0 /\
   TagPool.fBitmap p' = bitmap_set (TagPool.fBitmap p) tag /\
   TagPool.fMaxTags p' = TagPool.fMaxTags p).
Proof.
  intros Hmax. revert i. induction n as [|n IH]; intros i; simpl.
  - intros [= <- <-]. by left.
  - set (tag' := uint16 ((TagPool.fNextHint p + i) mod TagPool.fMaxTags p)).
    destruct (Z.eqb_spec (bitmap_test (TagPool.fBitmap p) tag') 0) as [Ht|Ht].
    + intros [= <- <-]. right. simpl. repeat split; try done.
      * apply Z.mod_pos_bound. done.
      * unfold tag', uint16.
        pose proof (Z.mod_pos_bound (TagPool.fNextHint p + i) (TagPool.fMaxTags p) Hmax).
        pose proof (Z.mod_le ((TagPool.fNextHint p + i) mod TagPool.fMaxTags p) (2 ^ 16)).
        lia.
    + apply IH.
Qed.

Lemma TagPool_Allocate_spec p tag p' :
  TagPool.Allocate p = (tag, p') ->
  (tag = P9_NOTAG /\ p' = p) \/
  (0 <= tag < TagPool.fMaxTags p /\
   bitmap_test (TagPool.fBitmap p) tag = 0 /\
   TagPool.fBitmap p' = bitmap_set (TagPool.fBitmap p) tag /\
   TagPool.fMaxTags p' = TagPool.fMaxTags p).
Proof.
  unfold TagPool.Allocate. intros Hs.
  destruct (Z.lt_ge_cases 0 (TagPool.fMaxTags p)) as [Hmax|Hmax].
  - by apply (TagPool_scan_spec _ _ _ _ _ Hmax Hs).
  - replace (Z.to_nat (TagPool.fMaxTags p)) with O in Hs by lia.
    simpl in Hs. injection Hs as <- <-. by left.
Qed.

(** Releasing the tag [Allocate] returned restores the bitmap. *)
Lemma TagPool_Release_Allocate p :
  tag_pool_typed p ->
  TagPool.fBitmap (TagPool.Release (TagPool.Allocate p).1 (TagPool.Allocate p).2)
  = TagPool.fBitmap p.
Proof.
  intros [Hw Hmax]. destruct (TagPool.Allocate p) as [tag p'] eqn:Ha. simpl.
  apply TagPool_Allocate_spec in Ha as [[-> ->]|(Ht & Hfree & Hbm & Hm)].
  - unfold TagPool.Release. rewrite Z.eqb_refl, orb_true_r. done.
  - unfold TagPool.Release. rewrite Hm.
    destruct (Z.geb_spec tag (TagPool.fMaxTags p)); [lia|].
    destruct (Z.eqb_spec tag P9_NOTAG) as [E|_];
      [unfold P9_NOTAG in E; lia|].
    simpl. rewrite Hbm. apply bitmap_clear_set; [done|lia|done].
Qed.

Lemma TagPool_Allocate_typed p :
  tag_pool_typed p -> tag_pool_typed (TagPool.Allocate p).2.
Proof.
  intros [Hw Hmax]. destruct (TagPool.Allocate p) as [tag p'] eqn:Ha. simpl.
  apply TagPool_Allocate_spec in Ha as [[-> ->]|(Ht & Hfree & Hbm & Hm)];
    [done|]. split; [|lia]. rewrite Hbm. apply bitmap_set_words; [done|lia].
Qed.

(** *** FidPool *)

Lemma FidPool_scan_spec n i p fid p' :
  0 < FidPool.fMaxFids p ->
  FidPool.scan n i p = (fid, p') ->
  (fid = P9_NOFID /\ p' = p) \/
  (0 <= fid < FidPool.fMaxFids p /\
   bitmap_test (FidPool.fBitmap p) fid = 0 /\
   FidPool.fBitmap p' = bitmap_set (FidPool.fBitmap p) fid /\
   FidPool.fMaxFids p' = FidPool.fMaxFids p).
Proof.
  intros Hmax. revert i. induction n as [|n IH]; intros i; simpl.
  - intros [= <- <-]. by left.
  - set (fid' := uint32 (FidPool.fNextHint p + i) mod FidPool.fMaxFids p).
    destruct (Z.eqb_spec (bitmap_test (FidPool.fBitmap p) fid') 0) as [Ht|Ht].
    + intros [= <- <-]. right. simpl. repeat split; try done;
        apply Z.mod_pos_bound; done.
    + apply IH.
Qed.

Lemma FidPool_Allocate_spec p fid p' :
  FidPool.Allocate p = (fid, p') ->
  (fid = P9_NOFID /\ p' = p) \/
  (0 <= fid < FidPool.fMaxFids p /\
   bitmap_test (FidPool.fBitmap p) fid = 0 /\
   FidPool.fBitmap p' = bitmap_set (FidPool.fBitmap p) fid /\
   FidPool.fMaxFids p' = FidPool.fMaxFids p).
Proof.
  unfold FidPool.Allocate. intros Hs.
  destruct (Z.lt_ge_cases 0 (FidPool.fMaxFids p)) as [Hmax|Hmax].
  - by apply (FidPool_scan_spec _ _ _ _ _ Hmax Hs).
  - replace (Z.to_nat (FidPool.fMaxFids p)) with O in Hs by lia.
    simpl in Hs. injection Hs as <- <-. by left.
Qed.

(** Releasing a fid that [Allocate] handed out restores the bitmap and
    leaves the fid invalid, whatever happened to the tag pool or the
    hint in between. *)
Lemma FidPool_Release_Allocated p fid p' :
  uint32_words (FidPool.fBitmap p) ->
  FidPool.Allocate p = (fid, p') -> fid <> P9_NOFID ->
  FidPool.fBitmap (FidPool.Release fid p') = FidPool.fBitmap p /\
  FidPool.IsValid fid (FidPool.Release fid p') = false.
Proof.
  intros Hw Ha Hne.
  apply FidPool_Allocate_spec in Ha as [[-> ->]|(Ht & Hfree & Hbm & Hm)]; [done|].
  unfold FidPool.Release, FidPool.IsValid. rewrite Hm.
  destruct (Z.geb_spec fid (FidPool.fMaxFids p)); [lia|]. simpl.
  destruct (Z.geb_spec fid (FidPool.fMaxFids p)); [lia|].
  rewrite Hbm. split; [apply bitmap_clear_set; [done|lia|done]|].
  rewrite bitmap_test_clear by lia. done.
Qed.

Lemma P9Message_Init_new msize :
  P9Message.Init (P9Message.new msize) = (B_OK, fresh_message msize).
Proof. reflexivity. Qed.

Ltac client_unfold :=
  unfold P9Client.Walk, P9Client.WalkPath, P9Client.Open, P9Client.Create,
    P9Client.Read, P9Client.Write, P9Client.Clunk, P9Client.Remove,
    P9Client.GetAttr, P9Client.SetAttr, P9Client.ReadDir, P9Client.Mkdir,
    P9Client.Unlink, P9Client.Rename, P9Client.StatFS, P9Client.FSync,
    P9Client.ReadLink, P9Client.Symlink, P9Client.Link;
  rewrite ?P9Message_Init_new; cbn [negb is_ok].

Section Client.
Context {T : Type} `{P9Transport T}.
Variable indeterminate : Z.

(** Every operation other than [Connect] leaves the client as it was but
    for one tag allocated and released. *)
Lemma run_op_client o c w :
  (forall aname, o <> OpConnect aname) ->
  (run_op indeterminate o c w).1.2
  = P9Client.ReleaseTag (P9Client.AllocateTag c).1 (P9Client.AllocateTag c).2.
Proof.
  intros Hne. destruct o; try (by destruct (Hne aname)); clear Hne;
    cbn [run_op]; client_unfold; repeat case_match; simplify_eq; reflexivity.
Qed.

End Client.

Ltac client_fields :=
  cbn [P9Client.fTransport P9Client.fFidPool P9Client.fTagPool P9Client.fMsize
       P9Client.fIOUnit P9Client.fRootFid P9Client.fConnected
       P9Client.with_fidpool P9Client.with_tagpool P9Client.with_msize
       P9Client.with_iounit P9Client.with_rootfid P9Client.with_connected
       P9Client.with_transport P9Client.ReleaseTag P9Client.ReleaseFid
       fst snd] in *.

Lemma AllocateTag_fields c :
  let c' := (P9Client.AllocateTag c).2 in
  P9Client.fTransport c' = P9Client.fTransport c /\
  P9Client.fFidPool c' = P9Client.fFidPool c /\
  P9Client.fTagPool c' = (TagPool.Allocate (P9Client.fTagPool c)).2 /\
  P9Client.fMsize c' = P9Client.fMsize c /\
  P9Client.fIOUnit c' = P9Client.fIOUnit c /\
  P9Client.fRootFid c' = P9Client.fRootFid c /\
  P9Client.fConnected c' = P9Client.fConnected c /\
  (P9Client.AllocateTag c).1 = (TagPool.Allocate (P9Client.fTagPool c)).1.
Proof.
  unfold P9Client.AllocateTag. destruct (TagPool.Allocate _); simpl. tauto.
Qed.

Lemma AllocateFid_fields c :
  let c' := (P9Client.AllocateFid c).2 in
  P9Client.fTransport c' = P9Client.fTransport c /\
  P9Client.fFidPool c' = (FidPool.Allocate (P9Client.fFidPool c)).2 /\
  P9Client.fTagPool c' = P9Client.fTagPool c /\
  P9Client.fMsize c' = P9Client.fMsize c /\
  P9Client.fIOUnit c' = P9Client.fIOUnit c /\
  P9Client.fRootFid c' = P9Client.fRootFid c /\
  P9Client.fConnected c' = P9Client.fConnected c /\
  (P9Client.AllocateFid c).1 = (FidPool.Allocate (P9Client.fFidPool c)).1.
Proof.
  unfold P9Client.AllocateFid. destruct (FidPool.Allocate _); simpl. tauto.
Qed.

Section Client.
Context {T : Type} `{P9Transport T}.
Variable indeterminate : Z.

(** What [Connect] does to the tag pool: nothing, or one allocation
    followed by the release of the tag obtained. *)
Lemma Connect_tagpool aname c w :
  let c' := (P9Client.Connect indeterminate aname c w).1.2 in
  P9Client.fTagPool c' = P9Client.fTagPool c \/
  P9Client.fTagPool c'
  = TagPool.Release (TagPool.Allocate (P9Client.fTagPool c)).1
      (TagPool.Allocate (P9Client.fTagPool c)).2.
Proof.
  unfold P9Client.Connect. rewrite P9Message_Init_new.
  cbn [negb is_ok].
  repeat case_match; simplify_eq; cbn [fst snd];
    repeat match goal with
    | H : P9Client.AllocateTag ?x = _ |- _ =>
        let F := fresh in
        pose proof (AllocateTag_fields x) as F; rewrite H in F;
        cbn [fst snd] in F; destruct F as (? & ? & ? & ? & ? & ? & ? & ?);
        clear H
    | H : P9Client.AllocateFid ?x = _ |- _ =>
        let F := fresh in
        pose proof (AllocateFid_fields x) as F; rewrite H in F;
        cbn [fst snd] in F; destruct F as (? & ? & ? & ? & ? & ? & ? & ?);
        clear H
    end; client_fields; subst; try (left; congruence);
    try (right; congruence).
Qed.

End Client.

Section Client.
Context {T : Type} `{P9Transport T}.
Variable indeterminate : Z.

(** C4: whatever the operation and whatever the transport does with it,
    the tag bitmap after the operation is the bitmap before it.  The
    operation is any of the nineteen, so every path is covered: a request
    that cannot be built, a failed send or receive, an [Rlerror], a reply
    of the wrong type and success; a tag taken for the transaction is
    released before the operation returns. *)
Theorem tag_released o c w :
  tag_pool_typed (P9Client.fTagPool c) ->
  TagPool.fBitmap (P9Client.fTagPool (run_op indeterminate o c w).1.2)
  = TagPool.fBitmap (P9Client.fTagPool c).
Proof.
  intros Hty.
  assert (Hrel : TagPool.fBitmap
            (TagPool.Release (TagPool.Allocate (P9Client.fTagPool c)).1
               (TagPool.Allocate (P9Client.fTagPool c)).2)
          = TagPool.fBitmap (P9Client.fTagPool c))
    by (by apply TagPool_Release_Allocate).
  assert (Hcase : (exists aname, o = OpConnect aname) \/
                  (forall aname, o <> OpConnect aname))
    by (destruct o; eauto).
  destruct Hcase as [[aname ->]|Hne].
  - cbn [run_op].
    destruct (Connect_tagpool indeterminate aname c w) as [-> | ->]; done.
  - rewrite run_op_client by done.
    destruct (AllocateTag_fields c) as (_ & _ & Htp & _ & _ & _ & _ & Htag).
    unfold P9Client.ReleaseTag. cbn [P9Client.fTagPool P9Client.with_tagpool].
    by rewrite Htp, Htag.
Qed.

(** The pool stays typed, so the hypothesis holds again for the next
    operation. *)
Lemma tag_pool_typed_run_op o c w :
  tag_pool_typed (P9Client.fTagPool c) ->
  tag_pool_typed (P9Client.fTagPool (run_op indeterminate o c w).1.2).
Proof.
  intros Hty.
  assert (Hrel : tag_pool_typed
            (TagPool.Release (TagPool.Allocate (P9Client.fTagPool c)).1
               (TagPool.Allocate (P9Client.fTagPool c)).2)).
  { pose proof (TagPool_Release_Allocate _ Hty) as Hb.
    pose proof (TagPool_Allocate_typed _ Hty) as [_ Hm].
    destruct Hty as [Hw Hmax]. split.
    - by rewrite Hb.
    - unfold TagPool.Release. case_match; done. }
  assert (Hcase : (exists aname, o = OpConnect aname) \/
                  (forall aname, o <> OpConnect aname))
    by (destruct o; eauto).
  destruct Hcase as [[aname ->]|Hne].
  - cbn [run_op].
    destruct (Connect_tagpool indeterminate aname c w) as [-> | ->]; done.
  - rewrite run_op_client by done.
    destruct (AllocateTag_fields c) as (_ & _ & Htp & _ & _ & _ & _ & Htag).
    unfold P9Client.ReleaseTag. cbn [P9Client.fTagPool P9Client.with_tagpool].
    by rewrite Htp, Htag.
Qed.

End Client.

Ltac alloc_fields :=
  repeat match goal with
    | H : P9Client.AllocateTag ?x = _ |- _ =>
        let F := fresh in
        pose proof (AllocateTag_fields x) as F; rewrite H in F;
        cbn [fst snd] in F; destruct F as (? & ? & ? & ? & ? & ? & ? & ?);
        clear H
    | H : P9Client.AllocateFid ?x = _ |- _ =>
        let F := fresh in
        pose proof (AllocateFid_fields x) as F; rewrite H in F;
        cbn [fst snd] in F; destruct F as (? & ? & ? & ? & ? & ? & ? & ?);
        clear H
    end.

Section Client.
Context {T : Type} `{P9Transport T}.
Variable indeterminate : Z.

(** [Connect] changes neither the transport pointer nor, unless it
    succeeds, the connected flag. *)
Lemma Connect_flags aname c w :
  let r := P9Client.Connect indeterminate aname c w in
  P9Client.fTransport r.1.2 = P9Client.fTransport c /\
  (P9Client.fConnected r.1.2 = P9Client.fConnected c \/
   (P9Client.fConnected r.1.2 = true /\ P9Client.fTransport c = true)).
Proof.
  unfold P9Client.Connect. rewrite P9Message_Init_new. cbn [negb is_ok].
  repeat case_match; simplify_eq; cbn [fst snd]; alloc_fields; client_fields;
    subst; split; try congruence; try (left; congruence).
  all: try (right; split; [done|]; by destruct (P9Client.fTransport c)).
Qed.

Lemma Disconnect_flags c w :
  let r := P9Client.Disconnect indeterminate c w in
  P9Client.fConnected r.1 = false /\
  P9Client.fTransport r.1 = P9Client.fTransport c.
Proof.
  unfold P9Client.Disconnect.
  destruct (P9Client.fConnected c) eqn:Hc; cbn [negb]; [|done].
  pose proof (run_op_client indeterminate (OpClunk (P9Client.fRootFid c)) c w) as Hr.
  cbn [run_op] in Hr. destruct (P9Client.Clunk _ _ _ _) as [[s c1] w1].
  cbn [fst snd] in *. rewrite Hr by done.
  destruct (AllocateTag_fields c) as (? & ? & ? & ? & ? & ? & ? & ?).
  client_fields. done.
Qed.

(** [WalkPath] called on its own leaves the client as it was but for one
    tag allocated and released. *)
Lemma WalkPath_client fid newfid nwname wnames c w :
  (P9Client.WalkPath indeterminate fid newfid nwname wnames c w).1.2
  = P9Client.ReleaseTag (P9Client.AllocateTag c).1 (P9Client.AllocateTag c).2.
Proof.
  unfold P9Client.WalkPath. rewrite P9Message_Init_new. cbn [negb is_ok].
  repeat case_match; simplify_eq; reflexivity.
Qed.

(** A connected client has its transport pointer set, in every state
    the client can be in. *)
Lemma reachable_connected c :
  reachable indeterminate c ->
  P9Client.fConnected c = true -> P9Client.fTransport c = true.
Proof.
  induction 1 as [|c transport msize _ IH|c o w _ IH|c _ IH|c fid _ IH
                  |c fid newfid nwname wnames w _ IH|c w _ IH|c w _ IH].
  - done.
  - unfold P9Client.Init. destruct transport; cbn [negb]; [|done].
    repeat case_match; simplify_eq; cbn [fst snd]; client_fields; done.
  - assert (Hcase : (exists aname, o = OpConnect aname) \/
                    (forall aname, o <> OpConnect aname))
      by (destruct o; eauto).
    destruct Hcase as [[aname ->]|Hne].
    + cbn [run_op].
      destruct (Connect_flags aname c w) as [Ht [Hc|[Hc Ht']]].
      * rewrite Ht, Hc. done.
      * rewrite Ht. done.
    + rewrite run_op_client by done.
      destruct (AllocateTag_fields c) as (Ht & _ & _ & _ & _ & _ & Hc & _).
      client_fields. rewrite Ht, Hc. done.
  - destruct (AllocateFid_fields c) as (Ht & _ & _ & _ & _ & _ & Hc & _).
    cbn [snd]. rewrite Ht, Hc. done.
  - done.
  - pose proof (WalkPath_client fid newfid nwname wnames c w) as Hw.
    cbn [fst snd] in *. rewrite Hw.
    destruct (AllocateTag_fields c) as (Ht & _ & _ & _ & _ & _ & Hc & _).
    client_fields. rewrite Ht, Hc. done.
  - destruct (Disconnect_flags c w) as [Hc Ht]. rewrite Hc. done.
  - unfold P9Client.Uninit.
    destruct (Disconnect_flags c w) as [Hc Ht].
    destruct (P9Client.Disconnect _ _ _) as [c1 w1]. client_fields.
    rewrite Hc. done.
Qed.

(** C10: on a client that is already connected, in any state a client
    can reach, [Connect] returns [B_OK] and leaves the client (msize,
    iounit, root fid, connected flag, both pools) and the transport as
    they were: nothing is sent. *)
Theorem Connect_when_connected aname c w :
  reachable indeterminate c ->
  P9Client.fConnected c = true ->
  P9Client.Connect indeterminate aname c w = (B_OK, c, w).
Proof.
  intros Hr Hc. pose proof (reachable_connected c Hr Hc) as Ht.
  unfold P9Client.Connect. by rewrite Ht, Hc.
Qed.

(** After an [Rversion] carrying 8192 and "9P2000.L", a successful
    [Connect] of a client that proposed 65536 leaves [msize] at 8192 and,
    when it marks the client connected, [iounit] at 8181. *)
Lemma Connect_negotiates_msize aname c w c' w' :
  P9Client.fMsize c = 65536 ->
  P9Client.fConnected c = false ->
  answers_Rversion c w 8192 (c_str P9_VERSION_9P2000_L) ->
  P9Client.Connect indeterminate aname c w = (B_OK, c', w') ->
  P9Client.fMsize c' = 8192 /\
  (P9Client.fConnected c' = true -> P9Client.fIOUnit c' = 8181).
Proof.
  intros Hm Hc (response & w1 & tag & size & r1 & v & r2 & Hdo & Hh & Hp & Hv).
  unfold version_request in Hdo. unfold P9Client.Connect.
  rewrite P9Message_Init_new, Hc. cbn [negb is_ok].
  destruct (P9Client.fTransport c); cbn [negb]; [|done].
  destruct (P9Message.BuildVersion _ _ _ _) as [st req]. cbn [snd] in Hdo.
  destruct (is_ok st) eqn:Hst; cbn [negb];
    [|intros [= -> _ _]; discriminate Hst].
  rewrite Hdo. cbn [negb is_ok]. rewrite Hh. cbn [negb is_ok orb].
  change (P9_RVERSION =? P9_RVERSION) with true. cbn [negb].
  rewrite Hp. cbn [negb is_ok]. rewrite Hm.
  change (8192 <? 65536) with true. cbv iota.
  unfold streq. rewrite Hv, bool_decide_eq_true_2 by done. cbn [negb].
  repeat case_match; intros ?; simplify_eq; alloc_fields; client_fields; subst;
    (split; [congruence|]); try (intros; congruence).
  intros _.
  repeat match goal with Hx : P9Client.fMsize _ = _ |- _ => rewrite Hx end.
  reflexivity.
Qed.

(** C2: on a client fresh from [Init], the root fid a successful
    [Connect] leaves is 1, not 0: [FidPool::Init] has already marked
    slot 0 and set the hint to 1, so the scan of [Allocate] hands out
    slot 1. *)
Theorem Connect_root_fid_fresh aname msize w c' w' :
  P9Client.Connect indeterminate aname
    (P9Client.Init true msize P9Client.new).2 w = (B_OK, c', w') ->
  P9Client.fRootFid c' = 1.
Proof.
  set (c := (P9Client.Init true msize P9Client.new).2).
  assert (Hpool : (FidPool.Allocate (P9Client.fFidPool c)).1 = 1)
    by (vm_compute; reflexivity).
  assert (Hconn : P9Client.fConnected c = false) by reflexivity.
  clearbody c.
  unfold P9Client.Connect. rewrite P9Message_Init_new, Hconn. cbn [negb is_ok].
  repeat case_match; intros ?; simplify_eq; alloc_fields; client_fields; subst.
  all: try congruence.
Qed.

End Client.

Lemma ReadHeader_fType m type tag size m' :
  P9Message.ReadHeader m = (B_OK, (type, tag, size), m') ->
  P9Message.fType m' = type.
Proof.
  unfold P9Message.ReadHeader. repeat case_match; intros ?; simplify_eq; done.
Qed.

Lemma components_nil s cur :
  tokens 47 s cur = [] -> cur = [].
Proof.
  revert cur; induction s as [|b s IH]; intros cur; simpl.
  - by destruct cur.
  - destruct (b =? 47).
    + by destruct cur.
    + intros Hn. apply IH in Hn. by destruct cur.
Qed.

Section Client.
Context {T : Type} `{P9Transport T}.
Variable indeterminate : Z.

Lemma Walk_partial fid newfid path c w nwqid :
  Rwalk_received c w fid newfid path nwqid ->
  0 <= nwqid < walk_nwname path ->
  exists qid w',
    P9Client.Walk indeterminate fid newfid (Some path) c w
    = (B_ENTRY_NOT_FOUND, qid,
       P9Client.ReleaseTag (P9Client.AllocateTag c).1 (P9Client.AllocateTag c).2,
       w').
Proof.
  intros (request & response & w1 & tag & size & r1 & qids & r2
          & Hb & Hdo & Hh & Hp) Hn.
  unfold P9Client.Walk.
  destruct (c_str path) as [|b s] eqn:Hs.
  { unfold walk_nwname in Hn. rewrite Hs in Hn.
    change (uint16 _) with 0 in Hn. lia. }
  rewrite <- Hs. fold (walk_nwname path).
  destruct (Z.eqb_spec (walk_nwname path) 0) as [E|_]; [lia|].
  fold (walk_wnames path).
  unfold P9Client.WalkPath. rewrite P9Message_Init_new. cbn [negb is_ok].
  destruct (P9Client.AllocateTag c) as [tg c1]. cbn [fst snd] in *.
  rewrite Hb. cbn [negb is_ok]. rewrite Hdo. cbn [negb is_ok].
  unfold P9Client.CheckError. rewrite Hh. cbn [negb is_ok].
  change (P9_RWALK =? P9_RLERROR) with false. cbv iota. cbn [negb is_ok].
  unfold P9Message.Type_. rewrite (ReadHeader_fType _ _ _ _ _ Hh).
  change (P9_RWALK =? P9_RWALK) with true. cbn [negb]. rewrite Hp.
  cbn [is_ok andb].
  destruct (Z.eqb_spec nwqid (walk_nwname path)) as [E|_]; [lia|]. cbn [negb].
  eauto.
Qed.

(** C3: when the [Twalk] of a walk to [name] completes with an [Rwalk]
    that carries fewer qids than names were sent, [P9Client::Walk]
    returns [B_ENTRY_NOT_FOUND], and [Inode::WalkToChild], the caller that
    took the new fid from the pool, returns the same status with no
    inode and the fid released: the fid bitmap is the one before the
    call and the fid is no longer valid. *)
Theorem Walk_partial_not_found name inode vol w nwqid :
  let c := Volume.Client vol in
  let childFid := (P9Client.AllocateFid c).1 in
  uint32_words (FidPool.fBitmap (P9Client.fFidPool c)) ->
  childFid <> P9_NOFID ->
  Rwalk_received (P9Client.AllocateFid c).2 w (Inode.fFid inode) childFid
    name nwqid ->
  0 <= nwqid < walk_nwname name ->
  (P9Client.Walk indeterminate (Inode.fFid inode) childFid (Some name)
     (P9Client.AllocateFid c).2 w).1.1.1 = B_ENTRY_NOT_FOUND /\
  let r := Inode.WalkToChild indeterminate name inode vol w in
  r.1.1.1 = B_ENTRY_NOT_FOUND /\ r.1.1.2 = None /\
  FidPool.fBitmap (P9Client.fFidPool (Volume.Client r.1.2))
  = FidPool.fBitmap (P9Client.fFidPool c) /\
  FidPool.IsValid childFid (P9Client.fFidPool (Volume.Client r.1.2)) = false.
Proof.
  intros c childFid Hw Hne Hrw Hn.
  destruct (Walk_partial _ _ _ _ _ _ Hrw Hn) as (qid & w' & HW).
  split; [by rewrite HW|].
  unfold Inode.WalkToChild. fold c.
  pose proof (AllocateFid_fields c) as Hf.
  destruct (P9Client.AllocateFid c) as [fid c0] eqn:Ha.
  cbn [fst snd] in *. subst childFid. cbn [fst] in *.
  destruct Hf as (_ & Hfp & _ & _ & _ & _ & _ & Hfid).
  destruct (Z.eqb_spec fid P9_NOFID) as [E|_]; [done|].
  unfold Volume.Client in *.
  cbn [Volume.with_client Volume.fClient]. rewrite HW. cbn [negb is_ok fst snd].
  cbn [Volume.with_client Volume.fClient].
  destruct (AllocateTag_fields c0) as (_ & Hfp' & _).
  unfold P9Client.ReleaseFid, P9Client.ReleaseTag.
  cbn [P9Client.fFidPool P9Client.with_fidpool P9Client.with_tagpool].
  rewrite Hfp', Hfp.
  repeat split; try done;
    apply (FidPool_Release_Allocated (P9Client.fFidPool c) fid); try done;
    by rewrite Hfid, (surjective_pairing (FidPool.Allocate _)).
Qed.

End Client.

Lemma fresh_message_pending msize :
  0 <= msize ->
  pending (P9Message.fBuffer (fresh_message msize)) [] /\
  P9Buffer.fReadPos (P9Message.fBuffer (fresh_message msize)) = 0 /\
  P9Buffer.fWritePos (P9Message.fBuffer (fresh_message msize)) = 0 /\
  P9Buffer.fCapacity (P9Message.fBuffer (fresh_message msize)) = msize.
Proof.
  intros Hm. unfold fresh_message, pending; simpl.
  rewrite length_replicate. repeat split; try lia.
Qed.

(** What a message holds once its frame is complete: the bytes from the
    start of the buffer to the write position. *)
Lemma pending_Data m R :
  pending (P9Message.fBuffer m) R ->
  P9Buffer.fReadPos (P9Message.fBuffer m) = 0 ->
  P9Message.Data m = R.
Proof.
  intros (_ & _ & _ & HR) Hr. rewrite Hr in HR. simpl in HR.
  by rewrite drop_0 in HR.
Qed.

Lemma BuildRead_frame msize tag fid offset count :
  23 <= msize ->
  exists m,
    P9Message.BuildRead tag fid offset count (fresh_message msize) = (B_OK, m) /\
    P9Message.Data m = Tread_frame tag fid offset count.
Proof.
  intros Hm.
  destruct (fresh_message_pending msize) as (Hp0 & Hr0 & Hw0 & Hc0); [lia|].
  unfold P9Message.BuildRead, P9Message.build, P9Message.WriteHeader,
    P9Message.fields, P9Message.put, P9Message.FinalizeHeader.
  set (m0 := fresh_message msize) in *.
  cbn [P9Message.Reset P9Message.fOwnsBuffer
       P9Message.fBuffer P9Message.fMsize P9Message.fType P9Message.fTag].
  set (b0 := P9Message.fBuffer m0) in *.
  assert (Hreset : P9Buffer.Reset b0 = b0).
  { unfold P9Buffer.Reset. rewrite <- Hr0 at 2. rewrite <- Hw0 at 1.
    by destruct b0. }
  rewrite Hreset.
  destruct (WriteUint32_pending b0 [] 0 Hp0) as (b1 & -> & Hp1 & Hw1 & Hc1);
    [lia|]. msg_simpl.
  destruct (WriteUint8_pending b1 _ P9_TREAD Hp1) as (b2 & -> & Hp2 & Hw2 & Hc2);
    [lia|]. msg_simpl.
  destruct (WriteUint16_pending b2 _ tag Hp2) as (b3 & -> & Hp3 & Hw3 & Hc3);
    [lia|]. msg_simpl.
  destruct (WriteUint32_pending b3 _ fid Hp3) as (b4 & -> & Hp4 & Hw4 & Hc4);
    [lia|]. msg_simpl.
  destruct (WriteUint64_pending b4 _ offset Hp4) as (b5 & -> & Hp5 & Hw5 & Hc5);
    [lia|]. msg_simpl.
  destruct (WriteUint32_pending b5 _ count Hp5) as (b6 & -> & Hp6 & Hw6 & Hc6);
    [lia|]. msg_simpl.
  assert (Hr6 : P9Buffer.fReadPos b6 = 0).
  { pose proof (pending_length _ _ Hp6) as Hl.
    rewrite !length_app, !le_bytes_length in Hl. simpl in Hl. lia. }
  rewrite <- ?app_assoc in Hp6. rewrite app_nil_l in Hp6.
  pose proof (pending_patch b6 _ _
    (le_bytes 4 (uint32 (P9Buffer.Size b6))) Hp6 Hr6) as Hp7.
  rewrite !le_bytes_length in Hp7. specialize (Hp7 eq_refl).
  eexists. split; [reflexivity|].
  erewrite pending_Data; [|exact Hp7|exact Hr6].
  unfold Tread_frame, frame. rewrite !length_app, !le_bytes_length.
  unfold uint32, P9Buffer.Size.
  replace (P9Buffer.fWritePos b6) with 23 by lia.
  rewrite <- ?app_assoc. reflexivity.
Qed.

Section Recorded.
Context {T : Type} `{P9Transport T}.
Variable indeterminate : Z.

(** A successful [P9Client::Read] hands exactly one frame to the
    transport, the [Tread] for the capped count, and changes the client
    by one tag allocated and released. *)
Lemma Read_recorded fid offset count c (w : Recorder T) got data c' w' :
  23 <= P9Client.fMsize c ->
  P9Client.Read indeterminate fid offset count c w = (B_OK, (got, data), c', w') ->
  rec_log w' = rec_log w ++
    [Tread_frame (P9Client.AllocateTag c).1 fid offset
       (if count >? P9Client.fIOUnit c then P9Client.fIOUnit c else count)] /\
  c' = P9Client.ReleaseTag (P9Client.AllocateTag c).1 (P9Client.AllocateTag c).2.
Proof.
  intros Hm. unfold P9Client.Read. rewrite P9Message_Init_new. cbn [negb is_ok].
  pose proof (AllocateTag_fields c) as (_ & _ & _ & Hms & _).
  destruct (P9Client.AllocateTag c) as [tag c1]. cbn [fst snd] in *.
  destruct (BuildRead_frame (P9Client.fMsize c) tag fid offset
              (if count >? P9Client.fIOUnit c then P9Client.fIOUnit c else count) Hm)
    as (m & -> & HD).
  cbn [negb is_ok]. unfold P9Client.DoRequest.
  cbn [SendMessage ReceiveMessage recorder_transport]. rewrite HD.
  repeat case_match; intros ?; simplify_eq; cbn [rec_log]; done.
Qed.

End Recorded.

Lemma read_plan_fits iounit pos remaining total chunks :
  0 <= iounit -> 0 <= remaining -> 0 <= total ->
  total + remaining < 2 ^ 64 ->
  read_plan iounit pos remaining total chunks ->
  Forall chunk_fits chunks ->
  plan_total total chunks = total + chunks_got chunks /\
  chunks_got chunks <= remaining.
Proof.
  intros Hi. revert remaining total.
  induction chunks as [|ch rest IH]; intros remaining total Hr Ht Hsum Hplan Hfit.
  - simpl. lia.
  - destruct Hplan as (Hpos & Hoff & Hcnt & Hrest).
    apply Forall_cons_1 in Hfit as [[Hg0 Hg1] Hfit].
    cbn [plan_total chunks_got foldr]. fold (chunks_got rest).
    assert (Hg2 : ch_got ch <= remaining) by lia.
    assert (Hu : uint64 (total + ch_got ch) = total + ch_got ch)
      by (unfold uint64; apply Z.mod_small; lia).
    rewrite Hu.
    destruct (Z.eqb_spec (ch_got ch) 0) as [E|E].
    + subst rest. simpl. lia.
    + assert (Hu' : uint64 (remaining - ch_got ch) = remaining - ch_got ch)
        by (unfold uint64; apply Z.mod_small; lia).
      rewrite Hu, Hu' in Hrest.
      destruct (IH (remaining - ch_got ch) (total + ch_got ch)
                  ltac:(lia) ltac:(lia) ltac:(lia) Hrest Hfit) as [E1 E2].
      lia.
Qed.

Section Loop.
Context {T : Type} `{P9Transport T}.
Variable indeterminate : Z.

Lemma Read_loop_chunks fuel cookie pos length_ :
  forall remaining total dest vol (w : Recorder T) R data vol' w',
  23 <= P9Client.fMsize (Volume.Client vol) ->
  0 <= P9Client.fIOUnit (Volume.Client vol) < 2 ^ 32 ->
  0 <= total < 2 ^ 64 ->
  Inode.Read_loop indeterminate fuel cookie pos remaining total dest length_ vol w
  = Some (B_OK, (R, data), vol', w') ->
  exists chunks,
    rec_log w' = rec_log w ++ map (chunk_frame (cookie_fid cookie)) chunks /\
    read_plan (P9Client.fIOUnit (Volume.Client vol)) pos remaining total chunks /\
    Forall (fun ch => ch_count ch <= P9Client.fIOUnit (Volume.Client vol)) chunks /\
    R = plan_total total chunks.
Proof.
  induction fuel as [|fuel IH]; intros remaining total dest vol w R data vol' w'
    Hm Hio Ht; cbn [Inode.Read_loop];
    destruct (Z.gtb_spec remaining 0) as [Hrem|Hrem].
  - done.
  - intros [= <- <- <- <-]. exists []. simpl. rewrite app_nil_r. done.
  - set (iounit := P9Client.fIOUnit (Volume.Client vol)) in *.
    set (n := uint32 (if remaining >? iounit then iounit else remaining)).
    assert (Hn : n = Z.min remaining iounit).
    { unfold n, uint32. destruct (Z.gtb_spec remaining iounit);
        rewrite Z.mod_small by lia; lia. }
    destruct (P9Client.Read _ _ _ _ _ _) as [[[st [got d]] c1] w1] eqn:HR.
    destruct (is_ok st) eqn:Hst; cbn [negb];
      [|intros [= -> _ _ _ _]; discriminate Hst].
    apply is_ok_true in Hst. subst st.
    destruct (Read_recorded _ _ _ _ _ _ _ _ _ _ Hm HR) as [Hlog Hc1].
    fold iounit in Hlog.
    assert (Hcap : (if n >? iounit then iounit else n) = n)
      by (destruct (Z.gtb_spec n iounit); lia).
    rewrite Hcap in Hlog.
    set (ch := mkChunk (P9Client.AllocateTag (Volume.Client vol)).1
                 (uint64 (pos + total)) n got).
    assert (Hplan0 : 0 < remaining /\ ch_offset ch = uint64 (pos + total) /\
                     ch_count ch = Z.min remaining iounit) by (simpl; lia).
    destruct (Z.eqb_spec got 0) as [E|E].
    + intros [= <- <- <- <-]. exists [ch]. subst got. simpl.
      repeat split; try done; try lia.
      * apply Forall_singleton. simpl. lia.
      * unfold uint64. rewrite Z.add_0_r, Z.mod_small; lia.
    + intros Hrec.
      assert (Hfields : P9Client.fMsize c1 = P9Client.fMsize (Volume.Client vol) /\
                        P9Client.fIOUnit c1 = iounit).
      { subst c1. destruct (AllocateTag_fields (Volume.Client vol))
          as (_ & _ & _ & ? & ? & _). client_fields. done. }
      destruct Hfields as [Hm1 Hio1].
      apply IH in Hrec as (chunks & Hlog' & Hplan & Hcnt & HR');
        cbn [Volume.Client Volume.with_client Volume.fClient] in *;
        [|unfold Volume.Client in *; lia..|unfold uint64; apply Z.mod_pos_bound; lia].
      rewrite Hio1 in *.
      exists (ch :: chunks). rewrite Hlog', Hlog. cbn [map].
      rewrite <- app_assoc.
      assert (Hp : read_plan iounit pos remaining total (ch :: chunks)).
      { cbn [read_plan]. destruct Hplan0 as (? & ? & ?). repeat split; try done.
        cbn [ch ch_got]. destruct (Z.eqb_spec got 0); [done|]. done. }
      assert (Hf : Forall (fun ch0 => ch_count ch0 <= iounit) (ch :: chunks)).
      { constructor; [simpl; lia|done]. }
      done.
  - intros [= <- <- <- <-]. exists []. simpl. rewrite app_nil_r. done.
Qed.

End Loop.

Section Loop.
Context {T : Type} `{P9Transport T}.
Variable indeterminate : Z.

Lemma Read_loop_terminates fuel cookie pos length_ :
  forall remaining total dest vol (w : T),
  replies_fit indeterminate (cookie_fid cookie) ->
  0 <= P9Client.fIOUnit (Volume.Client vol) ->
  0 <= remaining < 2 ^ 64 ->
  (Z.to_nat remaining < fuel)%nat ->
  is_Some (Inode.Read_loop indeterminate fuel cookie pos remaining total dest
             length_ vol w).
Proof.
  induction fuel as [|fuel IH]; intros remaining total dest vol w Hfit Hio Hr Hf;
    [lia|].
  cbn [Inode.Read_loop]. destruct (Z.gtb_spec remaining 0) as [Hrem|Hrem]; [|eauto].
  set (iounit := P9Client.fIOUnit (Volume.Client vol)) in *.
  set (n := uint32 (if remaining >? iounit then iounit else remaining)).
  assert (Hn : 0 <= n <= remaining).
  { unfold n, uint32. destruct (Z.gtb_spec remaining iounit).
    - pose proof (Z.mod_pos_bound iounit (2 ^ 32)).
      pose proof (Z.mod_le iounit (2 ^ 32)). lia.
    - pose proof (Z.mod_pos_bound remaining (2 ^ 32)).
      pose proof (Z.mod_le remaining (2 ^ 32)). lia. }
  pose proof (Hfit (uint64 (pos + total)) n (Volume.Client vol) w
                ltac:(lia)) as Hgot.
  pose proof (run_op_client indeterminate
                (OpRead (cookie_fid cookie) (uint64 (pos + total)) n)
                (Volume.Client vol) w ltac:(done)) as Hc.
  cbn [run_op] in Hc.
  destruct (P9Client.Read _ _ _ _ _ _) as [[[st [got d]] c1] w1].
  cbn [fst snd] in Hc.
  destruct (is_ok st); cbn [negb]; [|eauto].
  specialize (Hgot eq_refl).
  destruct (Z.eqb_spec got 0); [eauto|].
  assert (Hu : uint64 (remaining - got) = remaining - got)
    by (unfold uint64; apply Z.mod_small; lia).
  apply IH; try done.
  - cbn [Volume.Client Volume.with_client Volume.fClient]. subst c1.
    destruct (AllocateTag_fields (Volume.Client vol)) as (_ & _ & _ & _ & E & _).
    client_fields. unfold Volume.Client in *. lia.
  - rewrite Hu. lia.
  - rewrite Hu. lia.
Qed.

End Loop.

(** C5: a read of [L] bytes at a non-negative [pos] that succeeds with
    count [R] sent one [Tread] per transaction of a plan: each asks at
    [pos] plus the bytes returned so far for the smaller of what remains
    and [iounit]; an empty reply ends the read, any other reply, short
    or not, is followed by a request for the rest.  [R] is the sum of the
    reply counts and at most [L] when no reply carries more than was
    asked for.  With such replies and enough fuel the read returns.
    For 12000 bytes at offset 0 with [iounit] 4096 three [Tread]s go out,
    at offsets 0, 4096, 8192 with counts 4096, 4096, 3808. *)
Theorem Inode_Read_chunked {T : Type} `{P9Transport T} (indeterminate : Z)
    (fuel : nat) (cookie : FileCookie) (pos L : Z) (vol : Volume.t)
    (w : Recorder T) :
  0 <= pos -> 0 <= L < 2 ^ 64 ->
  23 <= P9Client.fMsize (Volume.Client vol) ->
  0 <= P9Client.fIOUnit (Volume.Client vol) < 2 ^ 32 ->
  (forall R data vol' w',
     Inode.Read indeterminate fuel cookie pos L vol w
     = Some (B_OK, (R, data), vol', w') ->
     exists chunks,
       rec_log w' = rec_log w ++ map (chunk_frame (cookie_fid cookie)) chunks /\
       read_plan (P9Client.fIOUnit (Volume.Client vol)) pos L 0 chunks /\
       Forall (fun ch => ch_count ch <= P9Client.fIOUnit (Volume.Client vol))
         chunks /\
       R = plan_total 0 chunks /\
       (Forall chunk_fits chunks -> R = chunks_got chunks /\ R <= L)) /\
  (replies_fit (T := Recorder T) indeterminate (cookie_fid cookie) ->
   (Z.to_nat L < fuel)%nat ->
   is_Some (Inode.Read indeterminate fuel cookie pos L vol w)) /\
  read_outcome (Inode.Read indeterminate 4 open_cookie 0 12000 S4_volume S4_server)
  = Some (B_OK, 12000,
          [Tread_frame 1 2 0 4096; Tread_frame 2 2 4096 4096;
           Tread_frame 3 2 8192 3808]).
Proof.
  intros Hpos HL Hm Hio. split; [|split].
  - intros R data vol' w'. unfold Inode.Read.
    destruct (Z.ltb_spec pos 0); [lia|]. intros Hrun.
    destruct (Read_loop_chunks indeterminate fuel cookie pos L L 0 [] vol w
                R data vol' w' Hm Hio ltac:(lia) Hrun)
      as (chunks & Hlog & Hplan & Hcnt & HR).
    exists chunks. repeat split; try done.
    + destruct (read_plan_fits (P9Client.fIOUnit (Volume.Client vol)) pos L 0 chunks ltac:(lia) ltac:(lia)
                  ltac:(lia) ltac:(lia) Hplan H1) as [E _]. lia.
    + destruct (read_plan_fits (P9Client.fIOUnit (Volume.Client vol)) pos L 0 chunks ltac:(lia) ltac:(lia)
                  ltac:(lia) ltac:(lia) Hplan H1) as [E E']. lia.
  - intros Hfit Hfuel. unfold Inode.Read.
    destruct (Z.ltb_spec pos 0); [lia|].
    apply Read_loop_terminates; [exact Hfit|lia|exact HL|exact Hfuel].
  - vm_compute. reflexivity.
Qed.

Lemma Inode_Read_chunked_witness :
  (forall R data vol' w',
     Inode.Read 0 4 open_cookie 0 12000 S4_volume S4_server
     = Some (B_OK, (R, data), vol', w') ->
     exists chunks,
       rec_log w' = rec_log S4_server ++ map (chunk_frame (cookie_fid open_cookie)) chunks /\
       read_plan (P9Client.fIOUnit (Volume.Client S4_volume)) 0 12000 0 chunks /\
       Forall (fun ch => ch_count ch <= P9Client.fIOUnit (Volume.Client S4_volume))
         chunks /\
       R = plan_total 0 chunks /\
       (Forall chunk_fits chunks -> R = chunks_got chunks /\ R <= 12000)) /\
  read_outcome (Inode.Read 0 4 open_cookie 0 12000 S4_volume S4_server)
  = Some (B_OK, 12000,
          [Tread_frame 1 2 0 4096; Tread_frame 2 2 4096 4096;
           Tread_frame 3 2 8192 3808]).
Proof.
  pose proof (Inode_Read_chunked 0 4 open_cookie 0 12000 S4_volume S4_server
                ltac:(lia) ltac:(lia)
                ltac:(vm_compute; discriminate)
                ltac:(split; vm_compute; [discriminate|reflexivity]))
    as (Hchunks & _ & Hout).
  split; [exact Hchunks|exact Hout].
Defined.

Lemma read_outcome_Some {T : Type}
    (r : option (status_t * (Z * list Z) * Volume.t * Recorder T)) s len log :
  read_outcome r = Some (s, len, log) ->
  exists d v w', r = Some (s, (len, d), v, w') /\ rec_log w' = log.
Proof.
  destruct r as [[[[s' [len' d]] v] w']|]; simpl; intros Hr; [|done].
  injection Hr as -> -> <-. eauto.
Qed.

(** A reply of 4 bytes to a request for 10 does not end the read: a
    second [Tread] asks for the remaining 6 at offset 4, and the count
    returned is 10. *)
Lemma Inode_Read_short_reply_continues :
  exists R data vol' w' ch rest,
    Inode.Read 0 5 open_cookie 0 10 S4_volume short_reply_server
    = Some (B_OK, (R, data), vol', w') /\
    rec_log w' = map (chunk_frame 2) (ch :: rest) /\
    read_plan 4096 0 10 0 (ch :: rest) /\
    ch_got ch < ch_count ch /\ rest <> [] /\ R <> ch_got ch.
Proof.
  assert (Hout : read_outcome
            (Inode.Read 0 5 open_cookie 0 10 S4_volume short_reply_server)
          = Some (B_OK, 10, [Tread_frame 1 2 0 10; Tread_frame 2 2 4 6]))
    by (vm_compute; reflexivity).
  destruct (read_outcome_Some _ _ _ _ Hout) as (d & v & w' & Hrun & Hlog).
  exists 10, d, v, w', (mkChunk 1 0 10 4), [mkChunk 2 4 6 6].
  split; [exact Hrun|]. split; [exact Hlog|].
  split; [|simpl; repeat split; try lia; discriminate].
  vm_compute. repeat split; intros; discriminate.
Qed.

Lemma round_trips_uint (n : nat) v b write read :
  room (Z.of_nat n) b -> 0 <= v < 256 ^ Z.of_nat n ->
  (forall b R, pending b R ->
     P9Buffer.fWritePos b + Z.of_nat n <= P9Buffer.fCapacity b ->
     exists b', write b = (B_OK, b') /\ pending b' (R ++ le_bytes n v) /\
                P9Buffer.fWritePos b' = P9Buffer.fWritePos b + Z.of_nat n /\
                P9Buffer.fCapacity b' = P9Buffer.fCapacity b) ->
  (forall b x R, pending b (x ++ R) -> length x = n ->
     exists b', read b = (B_OK, le_value x, b') /\ pending b' R) ->
  round_trips write read v b /\ little_endian n v write b.
Proof.
  intros Hroom Hv Hwrite Hread.
  pose proof (room_pending _ _ Hroom ltac:(lia)) as Hp.
  destruct Hroom as (Hr & Hw & Hc & Hl).
  destruct (Hwrite b [] Hp Hc) as (b1 & Hw1 & Hp1 & Hpos1 & _).
  rewrite app_nil_l in Hp1.
  split.
  - rewrite <- (app_nil_r (le_bytes n v)) in Hp1.
    destruct (Hread b1 _ _ Hp1 (le_bytes_length n v)) as (b2 & Hr2 & Hp2).
    exists b1, b2. rewrite le_round_trip in Hr2 by done.
    repeat split; try done. by apply pending_nil_end.
  - intros i Hi. rewrite Hw1. cbn [snd].
    pose proof (pending_lookup b1 _ i _ Hp1 (le_bytes_lookup n v i Hi)) as Hlk.
    assert (Hrp : P9Buffer.fReadPos b1 = P9Buffer.fWritePos b).
    { pose proof (pending_length _ _ Hp1) as Hlen.
      rewrite le_bytes_length in Hlen. lia. }
    by rewrite Hrp in Hlk.
Qed.

(** C7: in a buffer with room, what [WriteUint8/16/32/64], [WriteString]
    and [WriteQid] append is read back by [ReadUint8/16/32/64],
    [ReadString] and [ReadQid] (values in the range of their type, a
    string without NUL that fits the reader's buffer), the integers laid
    out least significant byte first; and the frame [BuildVersion]
    leaves in a fresh message is read back by [ReadHeader] and
    [ParseVersion], the one [Build]/[Parse] pair of one name whose
    request and response share a layout. *)
Theorem codec_round_trip (b : P9Buffer.t) (v8 v16 v32 v64 : Z) (s : cstring)
    (bufferSize : Z) (q : P9Qid) (tag msize : Z) :
  room (13 + Z.of_nat (length s)) b ->
  0 <= v8 < 2 ^ 8 -> 0 <= v16 < 2 ^ 16 -> 0 <= v32 < 2 ^ 32 ->
  0 <= v64 < 2 ^ 64 ->
  Forall (fun c => c <> 0) s -> Z.of_nat (length s) < 2 ^ 16 ->
  Z.of_nat (length s) < bufferSize ->
  qid_in_range q -> 0 <= tag < 2 ^ 16 -> 13 + Z.of_nat (length s) <= msize ->
  round_trips (P9Buffer.WriteUint8 v8) P9Buffer.ReadUint8 v8 b /\
  (round_trips (P9Buffer.WriteUint16 v16) P9Buffer.ReadUint16 v16 b /\
   little_endian 2 v16 (P9Buffer.WriteUint16 v16) b) /\
  (round_trips (P9Buffer.WriteUint32 v32) P9Buffer.ReadUint32 v32 b /\
   little_endian 4 v32 (P9Buffer.WriteUint32 v32) b) /\
  (round_trips (P9Buffer.WriteUint64 v64) P9Buffer.ReadUint64 v64 b /\
   little_endian 8 v64 (P9Buffer.WriteUint64 v64) b) /\
  round_trips (P9Buffer.WriteString s) (P9Buffer.ReadString bufferSize)
    (s ++ [0]) b /\
  round_trips (P9Buffer.WriteQid q) P9Buffer.ReadQid q b /\
  (exists m1 m2 m3,
     P9Message.BuildVersion tag v32 s (fresh_message msize) = (B_OK, m1) /\
     P9Message.ReadHeader m1 = (B_OK, (P9_TVERSION, tag, P9Message.Size m1), m2) /\
     P9Message.ParseVersion bufferSize m2 = (B_OK, (v32, s ++ [0]), m3)).
Proof.
  intros Hroom H8 H16 H32 H64 Hs Hlen Hsize Hq Htag Hm.
  assert (Hroom' : forall n, 0 <= n <= 13 + Z.of_nat (length s) -> room n b).
  { intros n Hn. destruct Hroom as (? & ? & ? & ?). unfold room. lia. }
  split; [|split; [|split; [|split; [|split; [|split]]]]].
  - apply (round_trips_uint 1); [apply Hroom'; lia|done| |].
    + intros. by apply WriteUint8_pending.
    + intros. by apply ReadUint8_pending.
  - apply (round_trips_uint 2); [apply Hroom'; lia|done| |].
    + intros. by apply WriteUint16_pending.
    + intros. by apply ReadUint16_pending.
  - apply (round_trips_uint 4); [apply Hroom'; lia|done| |].
    + intros. by apply WriteUint32_pending.
    + intros. by apply ReadUint32_pending.
  - apply (round_trips_uint 8); [apply Hroom'; lia|done| |].
    + intros. by apply WriteUint64_pending.
    + intros. by apply ReadUint64_pending.
  - pose proof (room_pending _ _ Hroom ltac:(lia)) as Hp.
    destruct Hroom as (Hr & Hw & Hc & Hl).
    destruct (WriteString_pending b [] s Hp Hs Hlen) as (b1 & Hw1 & Hp1 & _);
      [lia|].
    rewrite app_nil_l in Hp1. rewrite <- (app_nil_r s) in Hp1 at 2.
    destruct (ReadString_pending b1 s [] bufferSize Hp1 Hlen Hsize)
      as (b2 & Hr2 & Hp2).
    exists b1, b2. repeat split; try done. by apply pending_nil_end.
  - pose proof (room_pending _ _ Hroom ltac:(lia)) as Hp.
    destruct Hroom as (Hr & Hw & Hc & Hl).
    destruct (WriteQid_pending b [] q Hp) as (b1 & Hw1 & Hp1 & _); [lia|].
    rewrite app_nil_l in Hp1.
    rewrite <- (app_nil_r (le_bytes 8 _)) in Hp1.
    destruct (ReadQid_pending b1 q [] Hq Hp1) as (b2 & Hr2 & Hp2).
    exists b1, b2. repeat split; try done. by apply pending_nil_end.
  - by apply BuildVersion_round_trip.
Qed.

Lemma codec_round_trip_witness :
  round_trips (P9Buffer.WriteUint32 305419896) P9Buffer.ReadUint32 305419896
    (P9Buffer.new (replicate 32 0) 32) /\
  little_endian 4 305419896 (P9Buffer.WriteUint32 305419896)
    (P9Buffer.new (replicate 32 0) 32) /\
  round_trips (P9Buffer.WriteString P9_VERSION_9P2000_L)
    (P9Buffer.ReadString 32) (P9_VERSION_9P2000_L ++ [0])
    (P9Buffer.new (replicate 32 0) 32).
Proof.
  pose proof (codec_round_trip (P9Buffer.new (replicate 32 0) 32)
                255 4660 305419896 81985529216486895 P9_VERSION_9P2000_L 32
                root_qid 65535 8192) as Hc.
  destruct Hc as (_ & _ & [H32 L32] & _ & Hstr & _).
  - unfold room; simpl; lia.
  - lia.
  - lia.
  - lia.
  - lia.
  - unfold P9_VERSION_9P2000_L. repeat constructor; discriminate.
  - simpl; lia.
  - simpl; lia.
  - unfold qid_in_range, root_qid, P9_QTDIR; simpl; lia.
  - lia.
  - simpl; lia.
  - exact (conj H32 (conj L32 Hstr)).
Defined.

(** C6: on a read-only volume each of [Write], [Create], [Remove],
    [Rename], [CreateDir], [RemoveDir], [CreateSymlink] and [WriteStat]
    returns without touching the inode, the volume (hence the client),
    the transport or the vnode cache, so no request is built or sent.
    The status is [B_READ_ONLY_DEVICE] unless the check of the arguments
    that precedes the read-only test fails: [B_BAD_VALUE] for a write at
    a negative position, [B_NOT_A_DIRECTORY] for a directory operation
    on an inode that is not a directory. *)
Theorem read_only_rejects_mutation {T : Type} `{P9Transport T}
    {V : Type} `{HostVFS V Inode.t} (indeterminate : Z) (fuel : nat)
    (m : mutation) (i : Inode.t) (vol : Volume.t) (w : T) (v : V) :
  Volume.IsReadOnly vol = true ->
  run_mutation indeterminate fuel m i vol w v
  = Some (if is_ok (argument_check m i) then B_READ_ONLY_DEVICE
          else argument_check m i, i, vol, w, v).
Proof.
  intros Hro. destruct m; cbn [run_mutation argument_check];
    unfold Inode.Write, Inode.Create, Inode.Remove, Inode.Rename,
      Inode.CreateDir, Inode.RemoveDir, Inode.CreateSymlink, Inode.WriteStat;
    rewrite Hro;
    repeat match goal with
    | |- context [if ?b then _ else _] => destruct b eqn:?; cbn [negb orb is_ok]
    end; try reflexivity; try discriminate.
Qed.

Lemma read_only_rejects_mutation_witness :
  run_mutation 0 1 (MRemove [97]) root_inode (mounted_volume 8192 true)
    (mkRecorder [] ([] : Script)) ([] : VnodeList)
  = Some (B_READ_ONLY_DEVICE, root_inode, mounted_volume 8192 true,
          mkRecorder [] [], []).
Proof.
  exact (read_only_rejects_mutation 0 1 (MRemove [97]) root_inode
           (mounted_volume 8192 true) (mkRecorder [] ([] : Script))
           ([] : VnodeList) eq_refl).
Defined.

(** A write at a negative position on a read-only volume is refused as
    a bad value, not as a write to a read-only device. *)
Lemma read_only_Write_negative_pos :
  exists len i vol w,
    Inode.Write 0 1 open_cookie (-1) [1; 2; 3] 3 file_inode
      (mounted_volume 8192 true) (mkRecorder [] ([] : Script))
    = Some (B_BAD_VALUE, len, i, vol, w) /\
    B_BAD_VALUE <> B_READ_ONLY_DEVICE.
Proof. eexists _, _, _, _. split; [reflexivity|discriminate]. Qed.

(** C1: [Clunk], [Remove], [SetAttr], [Unlink], [Rename], [FSync] and
    [Link] return [B_OK] when the reply is an [Rread] frame, which is
    neither the R-code they expect nor [Rlerror]: they return what
    [CheckError] returns without the test of [Type()] the other eleven
    operations make. *)
Theorem unchecked_reply_type_accepted (indeterminate : Z) :
  P9_RREAD <> P9_RLERROR /\
  Forall (fun o =>
            P9_RREAD <> expected_reply o /\
            (run_op indeterminate o (connected_client 8192)
               [frame P9_RREAD 1 []]).1.1 = B_OK)
    [OpClunk 2; OpRemove 2; OpSetAttr 2 0 0 0 0 0 0 0 0 0;
     OpUnlink 1 [97] 0; OpRename 1 [97] 1 [98]; OpFSync 2 false;
     OpLink 1 2 [97]].
Proof.
  split; [discriminate|].
  repeat (constructor; [split; [discriminate|vm_compute; reflexivity]|]).
  constructor.
Qed.

(** C8: a client that proposed 65536 and received [Rversion] with 8192
    and "9P2000.L", then [Rlerror] with code 0 in reply to the attach:
    [Connect] returns [B_OK] with [msize] 8192, yet the client is not
    connected and [iounit] is still 0. *)
Theorem Connect_Rlerror_zero (indeterminate : Z) :
  let c := (P9Client.Init true 65536 P9Client.new).2 in
  let r := P9Client.Connect indeterminate [] c
             [Rversion_frame 8192 P9_VERSION_9P2000_L; Rlerror_frame 0 0] in
  r.1.1 = B_OK /\ P9Client.fMsize r.1.2 = 8192 /\
  P9Client.fConnected r.1.2 = false /\ P9Client.fIOUnit r.1.2 = 0.
Proof. vm_compute. repeat split. Qed.

Lemma split_value_app name value :
  Forall (fun b => b <> 61) name ->
  Volume.split_value (name ++ 61 :: value) = (name, Some value).
Proof.
  induction 1 as [|b name Hb _ IH]; simpl; [done|].
  destruct (Z.eqb_spec b 61) as [E|_]; [done|]. by rewrite IH.
Qed.

(** What "tag=host,msize=4096" parses to when the copy of the arguments
    and the copy of the tag are obtained. *)
Lemma ParseArgs_tag_msize copied :
  copied O = true -> copied 1%nat = true ->
  Volume._ParseArgs copied (Some args_tag_msize) Volume.new
  = Volume._ParseArgs (fun _ => true) (Some args_tag_msize) Volume.new.
Proof.
  intros H0 H1. unfold Volume._ParseArgs. rewrite H0. cbn [negb].
  vm_compute. rewrite H1. reflexivity.
Qed.

(** C9: an option named "msize" changes nothing in the volume, whatever
    its value and whether or not a copy of it could be made;
    "tag=host,msize=4096" parses to what "tag=host" parses to, and, when
    the copy of the arguments and the copy of the tag are obtained, a
    mount with it proposes 8192 in its [Tversion] and ends with a client
    [msize] of 8192. *)
Theorem msize_option_ignored (indeterminate : Z) (copied : nat -> bool) :
  copied O = true -> copied 1%nat = true ->
  (forall c value v,
     Volume.parse_option c v (P9_MOUNT_OPT_MSIZE ++ 61 :: value) = v) /\
  Volume._ParseArgs copied (Some args_tag_msize) Volume.new
  = Volume._ParseArgs copied (Some args_tag) Volume.new /\
  mount_outcome
    (VolumeMount.Mount indeterminate copied 0 (Some args_tag_msize)
       host_registry Volume.new mount_server ([] : VnodeList))
  = (B_OK, 8192, Some (Tversion_frame 8192 P9_VERSION_9P2000_L)).
Proof.
  intros H0 H1. split; [|split].
  - intros c value v. unfold Volume.parse_option.
    rewrite split_value_app by (repeat constructor; discriminate).
    reflexivity.
  - unfold Volume._ParseArgs. rewrite H0. cbn [negb].
    vm_compute. reflexivity.
  - unfold VolumeMount.Mount. rewrite (ParseArgs_tag_msize copied H0 H1).
    vm_compute. reflexivity.
Qed.

Lemma msize_option_ignored_witness :
  (forall c value v,
     Volume.parse_option c v (P9_MOUNT_OPT_MSIZE ++ 61 :: value) = v) /\
  Volume._ParseArgs (fun _ => true) (Some args_tag_msize) Volume.new
  = Volume._ParseArgs (fun _ => true) (Some args_tag) Volume.new /\
  mount_outcome
    (VolumeMount.Mount 0 (fun _ => true) 0 (Some args_tag_msize)
       host_registry Volume.new mount_server ([] : VnodeList))
  = (B_OK, 8192, Some (Tversion_frame 8192 P9_VERSION_9P2000_L)).
Proof.
  apply (msize_option_ignored 0 (fun _ => true)); reflexivity.
Defined.

(** A bitmap whose words pass the range test holds 32-bit words. *)
Lemma uint32_words_check bitmap :
  forallb (fun w => (0 <=? w) && (w <? 2 ^ 32)) bitmap = true ->
  uint32_words bitmap.
Proof.
  induction bitmap as [|w bitmap IH]; simpl; intros Hb; constructor.
  - lia.
  - apply IH. destruct (forallb _ bitmap); [done|]. by rewrite andb_comm in Hb.
Qed.

Lemma tag_released_witness :
  TagPool.fBitmap
    (P9Client.fTagPool
       (run_op 0 (OpClunk 2) (connected_client 8192)
          ([Rclunk_frame 1] : Script)).1.2)
  = TagPool.fBitmap (P9Client.fTagPool (connected_client 8192)).
Proof.
  apply (tag_released 0 (OpClunk 2) (connected_client 8192)
           ([Rclunk_frame 1] : Script)).
  split.
  - apply uint32_words_check. vm_compute. reflexivity.
  - split; vm_compute; [discriminate|reflexivity].
Defined.

Lemma Connect_when_connected_witness :
  P9Client.Connect 0 [] (connected_client 8192) ([] : Script)
  = (B_OK, connected_client 8192, []).
Proof.
  apply (Connect_when_connected 0 [] (connected_client 8192) ([] : Script)).
  - exact (reach_op 0 _ (OpConnect [])
             [Rversion_frame 8192 P9_VERSION_9P2000_L; Rattach_frame 0 root_qid]
             (reach_Init 0 _ true 8192 (reach_new 0))).
  - vm_compute; reflexivity.
Defined.

Lemma Connect_root_fid_fresh_witness :
  P9Client.fRootFid (connected_client 8192) = 1.
Proof.
  apply (Connect_root_fid_fresh 0 [] 8192
           [Rversion_frame 8192 P9_VERSION_9P2000_L; Rattach_frame 0 root_qid]
           (connected_client 8192) []).
  vm_compute; reflexivity.
Defined.

Lemma Walk_partial_not_found_witness :
  let c := Volume.Client (mounted_volume 8192 false) in
  let childFid := (P9Client.AllocateFid c).1 in
  (P9Client.Walk 0 (Inode.fFid root_inode) childFid (Some [97])
     (P9Client.AllocateFid c).2 ([Rwalk_frame 1 []] : Script)).1.1.1
  = B_ENTRY_NOT_FOUND /\
  let r := Inode.WalkToChild 0 [97] root_inode (mounted_volume 8192 false)
             ([Rwalk_frame 1 []] : Script) in
  r.1.1.1 = B_ENTRY_NOT_FOUND /\ r.1.1.2 = None /\
  FidPool.fBitmap (P9Client.fFidPool (Volume.Client r.1.2))
  = FidPool.fBitmap (P9Client.fFidPool c) /\
  FidPool.IsValid childFid (P9Client.fFidPool (Volume.Client r.1.2)) = false.
Proof.
  apply (Walk_partial_not_found 0 [97] root_inode (mounted_volume 8192 false)
           ([Rwalk_frame 1 []] : Script) 0).
  - apply uint32_words_check. vm_compute. reflexivity.
  - vm_compute. discriminate.
  - do 8 eexists. split; [vm_compute; reflexivity|].
    split; [vm_compute; reflexivity|].
    split; vm_compute; reflexivity.
  - vm_compute. split; [discriminate|reflexivity].
Defined.

(** ** The pools, the wire, the arguments, the registry and mounting *)

Lemma word_set_test w bit :
  0 <= bit -> Z.land (Z.lor w (Z.shiftl 1 bit)) (Z.shiftl 1 bit) = Z.shiftl 1 bit.
Proof.
  intros Hb. apply Z.bits_inj'. intros n Hn.
  rewrite Z.land_spec, Z.lor_spec, testbit_shiftl_1 by done.
  destruct (Z.eqb_spec bit n); [by rewrite orb_true_r|by rewrite andb_false_r].
Qed.

Lemma word_set_test_other w bit bit' :
  0 <= bit -> 0 <= bit' -> bit <> bit' ->
  Z.land (Z.lor w (Z.shiftl 1 bit)) (Z.shiftl 1 bit')
  = Z.land w (Z.shiftl 1 bit').
Proof.
  intros Hb Hb' Hne. apply Z.bits_inj'. intros n Hn.
  rewrite !Z.land_spec, Z.lor_spec, !testbit_shiftl_1 by done.
  destruct (Z.eqb_spec bit' n) as [<-|_]; [|by rewrite !andb_false_r].
  destruct (Z.eqb_spec bit bit'); [done|by rewrite orb_false_r].
Qed.

Lemma shiftl_1_nonzero bit : 0 <= bit -> Z.shiftl 1 bit <> 0.
Proof. intros Hb. rewrite Z.shiftl_1_l. pose proof (Z.pow_pos_nonneg 2 bit). lia. Qed.

Lemma bitmap_word_insert bm (i : nat) x word :
  0 <= word ->
  bitmap_word (<[i := x]> bm) word
  = if bool_decide (i = Z.to_nat word /\ (i < length bm)%nat) then x
    else bitmap_word bm word.
Proof.
  intros Hw. unfold bitmap_word. case_bool_decide as Hd.
  - destruct Hd as [-> Hl]. by rewrite list_lookup_insert_eq.
  - destruct (decide (i = Z.to_nat word)) as [->|Hne].
    + rewrite !lookup_ge_None_2; [done|lia|rewrite length_insert; lia].
    + by rewrite list_lookup_insert_ne.
Qed.

(** Marking a slot that lies inside the bitmap sets its bit and no other. *)
Lemma bitmap_test_set bm id id' :
  0 <= id -> 0 <= id' -> id / 32 < Z.of_nat (length bm) ->
  bitmap_test (bitmap_set bm id) id'
  = if bool_decide (id = id') then Z.shiftl 1 (id mod 32)
    else bitmap_test bm id'.
Proof.
  intros Hid Hid' Hin. unfold bitmap_test, bitmap_set.
  pose proof (Z.mod_pos_bound id 32 ltac:(lia)).
  pose proof (Z.mod_pos_bound id' 32 ltac:(lia)).
  pose proof (Z.div_pos id 32 ltac:(lia) ltac:(lia)).
  pose proof (Z.div_pos id' 32 ltac:(lia) ltac:(lia)).
  rewrite bitmap_word_insert by done.
  case_bool_decide as Hw.
  - destruct Hw as [Hw _]. apply Z2Nat.inj in Hw; [|lia..].
    case_bool_decide as He.
    + subst. apply word_set_test; lia.
    + rewrite Hw. apply word_set_test_other; [lia..|].
      intros Hm. apply He.
      rewrite (Z.div_mod id 32), (Z.div_mod id' 32) by lia. lia.
  - case_bool_decide as He; [|done]. subst. exfalso. apply Hw. split; [done|lia].
Qed.

(** Clearing a slot clears its bit and no other. *)
Lemma word_clear_test_other w bit bit' :
  0 <= bit < 32 -> 0 <= bit' < 32 -> bit <> bit' ->
  Z.land (Z.land w (uint32 (Z.lnot (Z.shiftl 1 bit)))) (Z.shiftl 1 bit')
  = Z.land w (Z.shiftl 1 bit').
Proof.
  intros Hb Hb' Hne. apply Z.bits_inj'. intros n Hn.
  rewrite !Z.land_spec, !testbit_shiftl_1 by lia.
  destruct (Z.eqb_spec bit' n) as [<-|_]; [|by rewrite !andb_false_r].
  rewrite !andb_true_r. unfold uint32.
  rewrite Z.mod_pow2_bits_low by lia.
  rewrite Z.lnot_spec, testbit_shiftl_1 by lia.
  destruct (Z.eqb_spec bit bit'); [done|]. simpl. by rewrite andb_true_r.
Qed.

Lemma bitmap_test_clear_other bm id id' :
  0 <= id -> 0 <= id' -> id <> id' ->
  bitmap_test (bitmap_clear bm id) id' = bitmap_test bm id'.
Proof.
  intros Hid Hid' Hne. unfold bitmap_test, bitmap_clear.
  pose proof (Z.mod_pos_bound id 32 ltac:(lia)).
  pose proof (Z.mod_pos_bound id' 32 ltac:(lia)).
  pose proof (Z.div_pos id 32 ltac:(lia) ltac:(lia)).
  pose proof (Z.div_pos id' 32 ltac:(lia) ltac:(lia)).
  rewrite bitmap_word_insert by done.
  case_bool_decide as Hw; [|done].
  destruct Hw as [Hw _]. apply Z2Nat.inj in Hw; [|lia..].
  rewrite Hw. apply word_clear_test_other; [lia..|].
  intros Hm. apply Hne.
  rewrite (Z.div_mod id 32), (Z.div_mod id' 32) by lia. lia.
Qed.

(** A slot below the capacity lies inside a bitmap of the size [Init]
    gives it. *)
Lemma sized_word_in_range (len max id : Z) :
  len = (max + 31) / 32 -> 0 <= id < max -> id / 32 < len.
Proof.
  intros -> Hid.
  apply Z.div_lt_upper_bound; [lia|].
  pose proof (Z.mul_div_le (max + 31) 32 ltac:(lia)).
  pose proof (Z.mod_pos_bound (max + 31) 32 ltac:(lia)).
  pose proof (Z.div_mod (max + 31) 32 ltac:(lia)). lia.
Qed.

Lemma TagPool_scan_none n i p :
  0 < TagPool.fMaxTags p < 2 ^ 16 ->
  (TagPool.scan n i p).1 = P9_NOTAG <->
  forall j, i <= j < i + Z.of_nat n ->
    bitmap_test (TagPool.fBitmap p)
      ((TagPool.fNextHint p + j) mod TagPool.fMaxTags p) <> 0.
Proof.
  intros Hmax. revert i. induction n as [|n IH]; intros i.
  - simpl. split; [intros _ j ?; lia|done].
  - cbn [TagPool.scan].
    pose proof (Z.mod_pos_bound (TagPool.fNextHint p + i) (TagPool.fMaxTags p)
                  ltac:(lia)) as Hr.
    assert (Hu : uint16 ((TagPool.fNextHint p + i) mod TagPool.fMaxTags p)
                 = (TagPool.fNextHint p + i) mod TagPool.fMaxTags p)
      by (unfold uint16; apply Z.mod_small; lia).
    rewrite Hu.
    destruct (Z.eqb_spec (bitmap_test (TagPool.fBitmap p)
                ((TagPool.fNextHint p + i) mod TagPool.fMaxTags p)) 0)
      as [Hfree|Hused].
    + cbn [fst]. split.
      * unfold P9_NOTAG. lia.
      * intros Hall. destruct (Hall i ltac:(lia)). done.
    + rewrite IH. split.
      * intros Hall j Hj. destruct (decide (j = i)) as [->|]; [done|].
        apply Hall. lia.
      * intros Hall j Hj. apply Hall. lia.
Qed.

Lemma FidPool_scan_none n i p :
  0 < FidPool.fMaxFids p ->
  0 <= FidPool.fNextHint p -> 0 <= i ->
  FidPool.fNextHint p + i + Z.of_nat n <= 2 ^ 32 ->
  FidPool.fMaxFids p < 2 ^ 32 ->
  (FidPool.scan n i p).1 = P9_NOFID <->
  forall j, i <= j < i + Z.of_nat n ->
    bitmap_test (FidPool.fBitmap p)
      ((FidPool.fNextHint p + j) mod FidPool.fMaxFids p) <> 0.
Proof.
  intros Hmax Hh. revert i. induction n as [|n IH]; intros i Hi Hsum Hm.
  - simpl. split; [intros _ j ?; lia|done].
  - cbn [FidPool.scan].
    assert (Hu : uint32 (FidPool.fNextHint p + i) = FidPool.fNextHint p + i)
      by (unfold uint32; apply Z.mod_small; lia).
    rewrite Hu.
    pose proof (Z.mod_pos_bound (FidPool.fNextHint p + i) (FidPool.fMaxFids p)
                  ltac:(lia)) as Hr.
    destruct (Z.eqb_spec (bitmap_test (FidPool.fBitmap p)
                ((FidPool.fNextHint p + i) mod FidPool.fMaxFids p)) 0)
      as [Hfree|Hused].
    + cbn [fst]. split.
      * unfold P9_NOFID. lia.
      * intros Hall. destruct (Hall i ltac:(lia)). done.
    + rewrite IH by lia. split.
      * intros Hall j Hj. destruct (decide (j = i)) as [->|]; [done|].
        apply Hall. lia.
      * intros Hall j Hj. apply Hall. lia.
Qed.

(** Every residue is visited by a scan of [max] steps from any hint. *)
Lemma residues_covered (hint max : Z) (P : Z -> Prop) :
  0 < max ->
  (forall j, 0 <= j < 0 + Z.of_nat (Z.to_nat max) -> P ((hint + j) mod max)) <->
  (forall id, 0 <= id < max -> P id).
Proof.
  intros Hmax. rewrite Z2Nat.id by lia. split.
  - intros Hall id Hid.
    specialize (Hall ((id - hint) mod max)
                  ltac:(pose proof (Z.mod_pos_bound (id - hint) max); lia)).
    rewrite Zplus_mod_idemp_r in Hall.
    replace (hint + (id - hint)) with id in Hall by lia.
    by rewrite Z.mod_small in Hall by lia.
  - intros Hall j Hj. apply Hall. apply Z.mod_pos_bound. lia.
Qed.

(** X1: [TagPool::Allocate] returns [P9_NOTAG] exactly when every tag below
    [fMaxTags] is marked in the bitmap: the scan visits all of them. *)
Theorem TagPool_Allocate_exhausted p :
  0 < TagPool.fMaxTags p < 2 ^ 16 ->
  (TagPool.Allocate p).1 = P9_NOTAG <->
  forall tag, 0 <= tag < TagPool.fMaxTags p ->
    bitmap_test (TagPool.fBitmap p) tag <> 0.
Proof.
  intros Hmax. unfold TagPool.Allocate.
  rewrite TagPool_scan_none by done.
  apply (residues_covered (TagPool.fNextHint p) (TagPool.fMaxTags p)
           (fun id => bitmap_test (TagPool.fBitmap p) id <> 0)). lia.
Qed.

Lemma TagPool_Allocate_exhausted_witness :
  (TagPool.Allocate (TagPool.Init 256 TagPool.new).2).1 = P9_NOTAG <->
  forall tag, 0 <= tag < TagPool.fMaxTags (TagPool.Init 256 TagPool.new).2 ->
    bitmap_test (TagPool.fBitmap (TagPool.Init 256 TagPool.new).2) tag <> 0.
Proof.
  apply (TagPool_Allocate_exhausted (TagPool.Init 256 TagPool.new).2).
  simpl. lia.
Defined.

(** X2: [FidPool::Allocate] either finds every fid taken, returns [P9_NOFID]
    and leaves the pool as it was, or returns a fid below [fMaxFids] that
    was not valid and is valid afterwards, the validity of every other
    fid unchanged. *)
Theorem FidPool_Allocate_fresh p fid p' :
  fid_pool_sized p -> 0 <= FidPool.fNextHint p ->
  FidPool.fNextHint p + FidPool.fMaxFids p < 2 ^ 32 ->
  FidPool.Allocate p = (fid, p') ->
  (fid = P9_NOFID /\ p' = p /\
   forall id, 0 <= id < FidPool.fMaxFids p ->
     FidPool.IsValid id p = true) \/
  (0 <= fid < FidPool.fMaxFids p /\
   FidPool.IsValid fid p = false /\
   forall id, 0 <= id ->
     FidPool.IsValid id p' = if bool_decide (id = fid) then true
                             else FidPool.IsValid id p).
Proof.
  intros Hsz Hh Hsum Ha.
  destruct (FidPool_Allocate_spec p fid p' Ha)
    as [[-> ->]|(Hr & Hfree & Hbm & Hmx)].
  - left. repeat split; try done. intros id Hid.
    assert (Hmax : 0 < FidPool.fMaxFids p) by lia.
    assert (Hn : (FidPool.Allocate p).1 = P9_NOFID) by (by rewrite Ha).
    unfold FidPool.Allocate in Hn.
    rewrite FidPool_scan_none in Hn by (rewrite ?Z2Nat.id; lia).
    rewrite (residues_covered (FidPool.fNextHint p) (FidPool.fMaxFids p)
               (fun id => bitmap_test (FidPool.fBitmap p) id <> 0)) in Hn by lia.
    unfold FidPool.IsValid.
    destruct (Z.geb_spec id (FidPool.fMaxFids p)); [lia|].
    destruct (Z.eqb_spec (bitmap_test (FidPool.fBitmap p) id) 0) as [E|_];
      [by destruct (Hn id Hid)|done].
  - right. split; [done|]. split.
    + unfold FidPool.IsValid.
      destruct (Z.geb_spec fid (FidPool.fMaxFids p)); [done|].
      by rewrite Hfree.
    + intros id Hid. unfold FidPool.IsValid. rewrite Hmx, Hbm.
      destruct (Z.geb_spec id (FidPool.fMaxFids p)).
      { case_bool_decide; [lia|done]. }
      rewrite bitmap_test_set;
        [|lia|lia|by apply (sized_word_in_range _ (FidPool.fMaxFids p))].
      case_bool_decide as E1; case_bool_decide as E2; try congruence.
      destruct (Z.eqb_spec (Z.shiftl 1 (fid mod 32)) 0) as [E|_]; [|done].
      apply shiftl_1_nonzero in E; [done|].
      apply Z.mod_pos_bound. lia.
Qed.

Lemma FidPool_Allocate_fresh_witness :
  (1 = P9_NOFID /\ (FidPool.Allocate (FidPool.Init 256 FidPool.new).2).2
                   = (FidPool.Init 256 FidPool.new).2 /\
   forall id, 0 <= id < FidPool.fMaxFids (FidPool.Init 256 FidPool.new).2 ->
     FidPool.IsValid id (FidPool.Init 256 FidPool.new).2 = true) \/
  (0 <= 1 < FidPool.fMaxFids (FidPool.Init 256 FidPool.new).2 /\
   FidPool.IsValid 1 (FidPool.Init 256 FidPool.new).2 = false /\
   forall id, 0 <= id ->
     FidPool.IsValid id (FidPool.Allocate (FidPool.Init 256 FidPool.new).2).2
     = if bool_decide (id = 1) then true
       else FidPool.IsValid id (FidPool.Init 256 FidPool.new).2).
Proof.
  apply (FidPool_Allocate_fresh (FidPool.Init 256 FidPool.new).2 1
           (FidPool.Allocate (FidPool.Init 256 FidPool.new).2).2).
  - reflexivity.
  - simpl. lia.
  - simpl. lia.
  - vm_compute. reflexivity.
Defined.

Lemma bitmap_test_zeros n id : bitmap_test (replicate n 0) id = 0.
Proof.
  unfold bitmap_test, bitmap_word.
  destruct (replicate n 0 !! Z.to_nat (id / 32)) as [x|] eqn:Hx; simpl.
  - apply lookup_replicate in Hx as [-> _]. apply Z.land_0_l.
  - apply Z.land_0_l.
Qed.

(** X3: After [FidPool::Init] the only valid fid is 0. *)
Theorem FidPool_Init_reserves_zero maxFids p id :
  0 < maxFids -> maxFids + 31 < 2 ^ 32 -> 0 <= id ->
  FidPool.IsValid id (FidPool.Init maxFids p).2
  = bool_decide (id = 0).
Proof.
  intros Hmax Hsum Hid. unfold FidPool.Init, FidPool.IsValid. cbn [snd FidPool.fMaxFids FidPool.fBitmap].
  assert (Hu : uint32 (maxFids + 31) = maxFids + 31)
    by (unfold uint32; apply Z.mod_small; lia).
  rewrite Hu.
  set (n := Z.to_nat ((maxFids + 31) / 32)).
  assert (Hn : 0 < Z.of_nat n).
  { unfold n. rewrite Z2Nat.id by (apply Z.div_pos; lia).
    apply Z.div_str_pos. lia. }
  change (<[0%nat := Z.lor (bitmap_word (replicate n 0) 0) 1]> (replicate n 0))
    with (bitmap_set (replicate n 0) 0).
  destruct (Z.geb_spec id maxFids).
  { case_bool_decide; [lia|done]. }
  rewrite bitmap_test_set;
    [|lia|lia|rewrite length_replicate; change (0 / 32) with 0; lia].
  case_bool_decide as E1; case_bool_decide as E2; try congruence.
  - done.
  - by rewrite bitmap_test_zeros.
Qed.

Lemma FidPool_Init_reserves_zero_witness :
  FidPool.IsValid 0 (FidPool.Init 256 FidPool.new).2 = bool_decide (0 = 0).
Proof.
  apply (FidPool_Init_reserves_zero 256 FidPool.new 0); lia.
Defined.

(** X4: [FidPool::Release] makes the fid invalid and changes the validity of
    no other fid. *)
Theorem FidPool_Release_invalidates fid id p :
  0 <= fid -> 0 <= id ->
  FidPool.IsValid id (FidPool.Release fid p)
  = if bool_decide (id = fid) then false else FidPool.IsValid id p.
Proof.
  intros Hf Hi. unfold FidPool.Release, FidPool.IsValid.
  destruct (Z.geb_spec fid (FidPool.fMaxFids p)) as [Hge|Hlt].
  - case_bool_decide as E; [|done]. subst.
    by destruct (Z.geb_spec fid (FidPool.fMaxFids p)); [|lia].
  - cbn [FidPool.fMaxFids FidPool.fBitmap].
    destruct (Z.geb_spec id (FidPool.fMaxFids p)); [by case_bool_decide|].
    case_bool_decide as E.
    + subst. by rewrite bitmap_test_clear.
    + by rewrite bitmap_test_clear_other.
Qed.

Lemma FidPool_Release_invalidates_witness :
  FidPool.IsValid 0 (FidPool.Release 0 (FidPool.Init 256 FidPool.new).2)
  = if bool_decide (0 = 0) then false
    else FidPool.IsValid 0 (FidPool.Init 256 FidPool.new).2.
Proof.
  apply (FidPool_Release_invalidates 0 0 (FidPool.Init 256 FidPool.new).2); lia.
Defined.



Section Client.
Context {T : Type} `{P9Transport T}.
Variable indeterminate : Z.



End Client.

Lemma p9_error_to_haiku_zero error :
  p9_error_to_haiku error = B_OK -> error = 0.
Proof.
  unfold p9_error_to_haiku.
  repeat match goal with
    | |- context [?x =? ?y] => destruct (Z.eqb_spec x y); try discriminate
    end; done.
Qed.

(** X6: [p9_error_to_haiku] yields [B_OK] for errno 0 only. *)
Theorem p9_error_to_haiku_ok_iff error :
  p9_error_to_haiku error = B_OK <-> error = 0.
Proof.
  split; [apply p9_error_to_haiku_zero|by intros ->].
Qed.

Section Client.
Context {T : Type} `{P9Transport T}.
Variable indeterminate : Z.



End Client.




Section Client.
Context {T : Type} `{P9Transport T}.
Variable indeterminate : Z.

(** X8: [Connect] on an initialised, unconnected client whose version request
    is answered by [Rversion]: a version other than "9P2000.L" gives
    [B_NOT_SUPPORTED] and no connection; a success means the version was
    "9P2000.L", leaves [msize] at the smaller of the client's and the
    server's, and, when connected, [iounit] at that [msize] less 11. *)
Theorem Connect_negotiation aname c w serverMsize version :
  P9Client.fTransport c = true ->
  P9Client.fConnected c = false ->
  21 <= P9Client.fMsize c ->
  answers_Rversion c w serverMsize version ->
  let r := P9Client.Connect indeterminate aname c w in
  (version <> c_str P9_VERSION_9P2000_L ->
   r.1.1 = B_NOT_SUPPORTED /\ P9Client.fConnected r.1.2 = false) /\
  (r.1.1 = B_OK ->
   version = c_str P9_VERSION_9P2000_L /\
   P9Client.fMsize r.1.2 = Z.min (P9Client.fMsize c) serverMsize /\
   (P9Client.fConnected r.1.2 = true ->
    P9Client.fIOUnit r.1.2
    = uint32 (Z.min (P9Client.fMsize c) serverMsize - 11))).
Proof.
  intros Ht Hc Hm (response & w1 & tag & size & r1 & v & r2 & Hdo & Hh & Hp & Hv).
  unfold version_request in Hdo. intros r. subst r. unfold P9Client.Connect.
  rewrite P9Message_Init_new, Hc, Ht. cbn [negb is_ok].
  destruct (BuildVersion_frame (P9Client.fMsize c) P9_NOTAG (P9Client.fMsize c)
              P9_VERSION_9P2000_L) as (m1 & Hb & _);
    [repeat constructor; discriminate|simpl; lia|simpl; lia|].
  rewrite P9Message_Init_new in Hb. cbn [snd] in Hb.
  rewrite Hb in Hdo |- *. cbn [snd negb is_ok] in Hdo |- *.
  rewrite Hdo. cbn [negb is_ok]. rewrite Hh. cbn [negb is_ok orb].
  change (P9_RVERSION =? P9_RVERSION) with true. cbn [negb].
  rewrite Hp. cbn [negb is_ok].
  set (c1 := if serverMsize <? P9Client.fMsize c
             then P9Client.with_msize serverMsize c else c).
  assert (Hc1 : P9Client.fMsize c1 = Z.min (P9Client.fMsize c) serverMsize /\
                P9Client.fConnected c1 = false).
  { unfold c1. destruct (Z.ltb_spec serverMsize (P9Client.fMsize c));
      cbn [P9Client.with_msize P9Client.fMsize P9Client.fConnected]; split; try done; lia. }
  destruct Hc1 as [Hm1 Hcon1]. clearbody c1.
  unfold streq. rewrite Hv.
  case_bool_decide as Hver; cbn [negb fst snd].
  2: { split; [done|]. intros [=]. }
  split; [done|]. intros Hok. split; [done|].
  revert Hok.
  repeat case_match; intros ?; simplify_eq; alloc_fields; client_fields; subst;
    cbn [fst snd] in *; client_fields;
    (split; [congruence|]); try (intros; congruence).
  intros _.
  repeat match goal with Hx : P9Client.fMsize _ = _ |- _ => rewrite Hx end.
  unfold P9_HEADER_SIZE. f_equal. lia.
Qed.

End Client.

Lemma Connect_negotiation_witness :
  let r := P9Client.Connect 0 [] (P9Client.Init true 64 P9Client.new).2
             version_server in
  (c_str P9_VERSION_9P2000_L <> c_str P9_VERSION_9P2000_L ->
   r.1.1 = B_NOT_SUPPORTED /\ P9Client.fConnected r.1.2 = false) /\
  (r.1.1 = B_OK ->
   c_str P9_VERSION_9P2000_L = c_str P9_VERSION_9P2000_L /\
   P9Client.fMsize r.1.2
   = Z.min (P9Client.fMsize (P9Client.Init true 64 P9Client.new).2) 32 /\
   (P9Client.fConnected r.1.2 = true ->
    P9Client.fIOUnit r.1.2
    = uint32 (Z.min (P9Client.fMsize (P9Client.Init true 64 P9Client.new).2)
                32 - 11))).
Proof.
  apply (Connect_negotiation 0 [] (P9Client.Init true 64 P9Client.new).2
           version_server 32 (c_str P9_VERSION_9P2000_L)).
  - reflexivity.
  - reflexivity.
  - vm_compute. discriminate.
  - do 7 eexists. split; [vm_compute; reflexivity|].
    split; [vm_compute; reflexivity|].
    split; vm_compute; reflexivity.
Defined.

Lemma written_length b :
  buffer_wf b -> Z.of_nat (length (written b)) = P9Buffer.fWritePos b.
Proof.
  intros [Hw Hc]. unfold written. rewrite length_take. lia.
Qed.

Lemma store_written src (n : Z) b :
  buffer_wf b -> n = Z.of_nat (length src) ->
  P9Buffer.fWritePos b + n <= P9Buffer.fCapacity b ->
  buffer_wf (P9Buffer.store src n b) /\
  written (P9Buffer.store src n b) = written b ++ src.
Proof.
  intros [Hw Hc] -> Hfit. unfold buffer_wf, written, P9Buffer.store.
  cbn [P9Buffer.fWritePos P9Buffer.fCapacity P9Buffer.fBuffer].
  rewrite memcpy_length. split; [lia|].
  rewrite memcpy_spec by lia.
  rewrite Z2Nat.inj_add, Nat2Z.id by lia.
  rewrite take_app_add'; [|rewrite length_take; lia].
  f_equal. rewrite take_app_length'; [done|done].
Qed.

(** A writer that checks [n] bytes and then stores them. *)
Lemma checked_store_appends W src (n : Z) :
  n = Z.of_nat (length src) ->
  (forall b, W b = if P9Buffer.fWritePos b + n >? P9Buffer.fCapacity b
                   then (B_BUFFER_OVERFLOW, b)
                   else (B_OK, P9Buffer.store src n b)) ->
  appends W src.
Proof.
  intros Hn HW b Hwf. rewrite HW. rewrite <- Hn.
  destruct (Z.gtb_spec (P9Buffer.fWritePos b + n) (P9Buffer.fCapacity b));
    destruct (Z.leb_spec (P9Buffer.fWritePos b + n) (P9Buffer.fCapacity b));
    try lia; cbn [fst snd].
  - repeat split; try done; try apply Hwf. exists O. by rewrite take_0, app_nil_r.
  - destruct (store_written src n b Hwf Hn ltac:(lia)) as [Hwf' Hwr].
    repeat split; try done; apply Hwf'.
Qed.

Lemma WriteUint8_appends v : appends (P9Buffer.WriteUint8 v) (le_bytes 1 v).
Proof. by apply (checked_store_appends _ _ 1). Qed.
Lemma WriteUint16_appends v : appends (P9Buffer.WriteUint16 v) (le_bytes 2 v).
Proof. by apply (checked_store_appends _ _ 2). Qed.
Lemma WriteUint32_appends v : appends (P9Buffer.WriteUint32 v) (le_bytes 4 v).
Proof. by apply (checked_store_appends _ _ 4). Qed.
Lemma WriteUint64_appends v : appends (P9Buffer.WriteUint64 v) (le_bytes 8 v).
Proof. by apply (checked_store_appends _ _ 8). Qed.

Lemma appends_nil : appends (fun b => (B_OK, b)) [].
Proof.
  intros b Hwf. cbn [fst snd length]. repeat split; try apply Hwf.
  destruct (Z.leb_spec (P9Buffer.fWritePos b + Z.of_nat 0) (P9Buffer.fCapacity b));
    [|destruct Hwf; lia].
  by rewrite app_nil_r.
Qed.

(** One writer after another, the second only if the first succeeded. *)
Lemma appends_seq W1 W2 bs1 bs2 :
  appends W1 bs1 -> appends W2 bs2 ->
  appends (fun b => let '(status, b) := W1 b in
                    if negb (is_ok status) then (status, b) else W2 b)
    (bs1 ++ bs2).
Proof.
  intros H1 H2 b Hwf.
  destruct (H1 b Hwf) as (Hwf1 & Hc1 & Hr1 & Hcase1).
  destruct (W1 b) as [st1 b1]. cbn [fst snd] in *.
  rewrite length_app, Nat2Z.inj_add.
  destruct (Z.leb_spec (P9Buffer.fWritePos b + Z.of_nat (length bs1))
              (P9Buffer.fCapacity b)) as [Hfit1|Hfit1].
  - destruct Hcase1 as [-> Hw1]. cbn [negb is_ok].
    destruct (H2 b1 Hwf1) as (Hwf2 & Hc2 & Hr2 & Hcase2).
    assert (Hp : P9Buffer.fWritePos b1
                 = P9Buffer.fWritePos b + Z.of_nat (length bs1)).
    { rewrite <- (written_length b1 Hwf1), Hw1, length_app, Nat2Z.inj_add.
      by rewrite (written_length b Hwf). }
    rewrite Hp, Hc1 in Hcase2.
    split; [done|]. split; [congruence|]. split; [congruence|].
    destruct (Z.leb_spec (P9Buffer.fWritePos b + Z.of_nat (length bs1)
                          + Z.of_nat (length bs2)) (P9Buffer.fCapacity b));
      destruct (Z.leb_spec (P9Buffer.fWritePos b + (Z.of_nat (length bs1)
                          + Z.of_nat (length bs2))) (P9Buffer.fCapacity b));
      try lia.
    + destruct Hcase2 as [-> ->]. by rewrite Hw1, app_assoc.
    + destruct Hcase2 as [-> [k ->]]. split; [done|].
      exists (length bs1 + k)%nat. by rewrite Hw1, take_app_add, app_assoc.
  - destruct Hcase1 as [-> [k Hw1]]. cbn [negb is_ok fst snd].
    split; [done|]. split; [done|]. split; [done|].
    destruct (Z.leb_spec (P9Buffer.fWritePos b + (Z.of_nat (length bs1)
                          + Z.of_nat (length bs2))) (P9Buffer.fCapacity b));
      [lia|].
    split; [done|]. exists (k `min` length bs1)%nat.
    rewrite Hw1. f_equal. rewrite take_app_le by lia.
    by rewrite <- take_take, (take_ge bs1 (length bs1)).
Qed.

(** What a writer does when its bytes fit. *)
Lemma appends_fits W bs b :
  appends W bs -> buffer_wf b ->
  P9Buffer.fWritePos b + Z.of_nat (length bs) <= P9Buffer.fCapacity b ->
  (W b).1 = B_OK /\ buffer_wf (W b).2 /\
  P9Buffer.fCapacity (W b).2 = P9Buffer.fCapacity b /\
  P9Buffer.fReadPos (W b).2 = P9Buffer.fReadPos b /\
  written (W b).2 = written b ++ bs /\
  P9Buffer.fWritePos (W b).2 = P9Buffer.fWritePos b + Z.of_nat (length bs).
Proof.
  intros HW Hwf Hfit. destruct (HW b Hwf) as (Hwf1 & Hc1 & Hr1 & Hcase).
  destruct (Z.leb_spec (P9Buffer.fWritePos b + Z.of_nat (length bs))
              (P9Buffer.fCapacity b)); [|lia].
  destruct Hcase as [Hst Hw1]. repeat split; try done; try apply Hwf1.
  rewrite <- (written_length _ Hwf1), Hw1, length_app, Nat2Z.inj_add.
  by rewrite (written_length b Hwf).
Qed.

Lemma write_all_appends ws bss :
  Forall2 appends ws bss -> appends (write_all ws) (concat bss).
Proof.
  induction 1 as [|W bs ws bss HW _ IH]; [apply appends_nil|].
  apply (appends_seq W (write_all ws) bs (concat bss) HW IH).
Qed.

Lemma WriteStringLen_appends str len :
  0 <= len <= Z.of_nat (length str) ->
  appends (P9Buffer.WriteStringLen str len)
    (le_bytes 2 len ++ take (Z.to_nat len) str).
Proof.
  intros Hlen b Hwf. unfold P9Buffer.WriteStringLen.
  rewrite length_app, le_bytes_length, length_take.
  replace (Z.of_nat (2 + Z.to_nat len `min` length str))
    with (2 + len) by lia.
  destruct (Z.gtb_spec (P9Buffer.fWritePos b + 2 + len) (P9Buffer.fCapacity b));
    destruct (Z.leb_spec (P9Buffer.fWritePos b + (2 + len)) (P9Buffer.fCapacity b));
    try lia; cbn [fst snd].
  { repeat split; try done; try apply Hwf. exists O. by rewrite take_0, app_nil_r. }
  destruct (appends_fits _ _ b (WriteUint16_appends len) Hwf
              ltac:(rewrite le_bytes_length; lia))
    as (Hst & Hwf1 & Hc1 & Hr1 & Hw1 & Hp).
  rewrite le_bytes_length in Hp.
  destruct (P9Buffer.WriteUint16 len b) as [st b1]. cbn [fst snd] in *.
  subst st. cbn [negb is_ok].
  destruct (Z.gtb_spec len 0); cbn [fst snd].
  - destruct (store_written (take (Z.to_nat len) str) len b1 Hwf1
                ltac:(rewrite length_take; lia) ltac:(lia)) as [Hwf2 Hw2].
    split; [exact Hwf2|]. split; [exact Hc1|]. split; [exact Hr1|].
    split; [done|]. by rewrite Hw2, Hw1, app_assoc.
  - assert (len = 0) as -> by lia. rewrite take_0, app_nil_r.
    split; [exact Hwf1|]. split; [exact Hc1|]. split; [exact Hr1|]. done.
Qed.

Lemma WriteString_appends s :
  appends (P9Buffer.WriteString s) (string_field s).
Proof.
  apply WriteStringLen_appends. unfold uint16, strlen.
  pose proof (Z.mod_pos_bound (Z.of_nat (length (c_str s))) (2 ^ 16) ltac:(lia)).
  pose proof (Z.mod_le (Z.of_nat (length (c_str s))) (2 ^ 16) ltac:(lia) ltac:(lia)).
  lia.
Qed.

Lemma WriteQid_appends q :
  appends (P9Buffer.WriteQid q) (qid_bytes q).
Proof.
  unfold qid_bytes.
  exact (appends_seq _ _ _ _ (WriteUint8_appends (qid_type q))
           (appends_seq _ _ _ _ (WriteUint32_appends (qid_version q))
              (WriteUint64_appends (qid_path q)))).
Qed.

Lemma byte_values_length data : length (byte_values data) = length data.
Proof.
  unfold byte_values. induction data as [|x data IH]; [done|].
  cbn [map concat]. rewrite length_app, le_bytes_length, IH. done.
Qed.

Lemma WriteUint8_fold src b :
  buffer_wf b ->
  P9Buffer.fWritePos b + Z.of_nat (length src) <= P9Buffer.fCapacity b ->
  let b' := fold_left (fun b x => snd (P9Buffer.WriteUint8 x b)) src b in
  buffer_wf b' /\ P9Buffer.fCapacity b' = P9Buffer.fCapacity b /\
  P9Buffer.fReadPos b' = P9Buffer.fReadPos b /\
  written b' = written b ++ byte_values src.
Proof.
  revert b. induction src as [|x src IH]; intros b Hwf Hfit; cbn [fold_left].
  - unfold byte_values. cbn [map concat]. by rewrite app_nil_r.
  - cbn [length] in Hfit.
    destruct (appends_fits _ _ b (WriteUint8_appends x) Hwf
                ltac:(rewrite le_bytes_length; lia))
      as (_ & Hwf1 & Hc1 & Hr1 & Hw1 & Hp).
    rewrite le_bytes_length in Hp.
    destruct (IH (P9Buffer.WriteUint8 x b).2 Hwf1 ltac:(lia))
      as (Hwf2 & Hc2 & Hr2 & Hw2).
    split; [done|]. split; [congruence|]. split; [congruence|].
    rewrite Hw2, Hw1. unfold byte_values. cbn [map concat].
    by rewrite app_assoc.
Qed.

Lemma write_payload_appends data :
  appends (P9Message.write_payload data (Z.of_nat (length data)))
    (byte_values data).
Proof.
  intros b Hwf. unfold P9Message.write_payload.
  rewrite byte_values_length.
  unfold P9Buffer.Size, P9Buffer.Capacity.
  rewrite Nat2Z.id, firstn_all.
  destruct (Z.gtb_spec (Z.of_nat (length data)) 0) as [Hpos|Hz].
  - destruct (Z.gtb_spec (P9Buffer.fWritePos b + Z.of_nat (length data))
                (P9Buffer.fCapacity b));
      destruct (Z.leb_spec (P9Buffer.fWritePos b + Z.of_nat (length data))
                  (P9Buffer.fCapacity b)); try lia; cbn [fst snd].
    { repeat split; try done; try apply Hwf. exists O.
      by rewrite take_0, app_nil_r. }
    set (b0 := P9Buffer.mk _ _ _ _).
    assert (Hwf0 : buffer_wf b0).
    { unfold buffer_wf, b0. cbn. rewrite memcpy_length. apply Hwf. }
    assert (Hw0 : written b0 = written b).
    { unfold written, b0. cbn. destruct Hwf as [? ?].
      rewrite memcpy_spec by lia. rewrite take_app_le by (rewrite length_take; lia).
      rewrite take_take. f_equal. lia. }
    destruct (WriteUint8_fold data b0 Hwf0 ltac:(unfold b0; cbn; lia))
      as (Hwf' & Hc' & Hr' & Hw').
    repeat split; try apply Hwf'; try done. by rewrite Hw', Hw0.
  - assert (data = []) as -> by (destruct data; [done|simpl in Hz; lia]).
    apply appends_nil. done.
Qed.

Lemma with_buffer_id m : P9Message.with_buffer (P9Message.fBuffer m) m = m.
Proof. by destruct m. Qed.

Lemma fields_write_all ws m :
  P9Message.fields ws m
  = ((write_all ws (P9Message.fBuffer m)).1,
     P9Message.with_buffer (write_all ws (P9Message.fBuffer m)).2 m).
Proof.
  revert m. induction ws as [|W ws IH]; intros m; cbn [P9Message.fields write_all].
  - cbn [fst snd]. by rewrite with_buffer_id.
  - unfold P9Message.put. destruct (W (P9Message.fBuffer m)) as [st b1].
    destruct (is_ok st); cbn [negb fst snd]; [|done].
    rewrite IH. by destruct m.
Qed.

Lemma WriteHeader_write_all type tag m :
  P9Message.WriteHeader type tag m
  = ((write_all [P9Buffer.WriteUint32 0; P9Buffer.WriteUint8 type;
                 P9Buffer.WriteUint16 tag] (P9Message.fBuffer m)).1,
     P9Message.mk (P9Message.fMsize m)
       (write_all [P9Buffer.WriteUint32 0; P9Buffer.WriteUint8 type;
                   P9Buffer.WriteUint16 tag] (P9Message.fBuffer m)).2
       type tag (P9Message.fOwnsBuffer m)).
Proof.
  unfold P9Message.WriteHeader. cbn [write_all P9Message.fBuffer].
  destruct (P9Buffer.WriteUint32 0 _) as [s1 b1].
  destruct s1; cbn [negb is_ok fst snd]; try done.
  destruct (P9Buffer.WriteUint8 type b1) as [s2 b2].
  destruct s2; cbn [negb is_ok fst snd]; try done.
  destruct (P9Buffer.WriteUint16 tag b2) as [s3 b3].
  destruct s3; cbn [negb is_ok fst snd]; done.
Qed.

(** The bytes [FinalizeHeader] leaves: the first four replaced by the
    size. *)
Lemma FinalizeHeader_Data m rest :
  buffer_wf (P9Message.fBuffer m) ->
  written (P9Message.fBuffer m) = le_bytes 4 0 ++ rest ->
  P9Message.Size m < 2 ^ 32 ->
  P9Message.Data (P9Message.FinalizeHeader m).2
  = le_bytes 4 (P9Message.Size m) ++ rest.
Proof.
  intros Hwf Hw Hsz. pose proof (written_length _ Hwf) as Hl.
  rewrite Hw, length_app, le_bytes_length in Hl.
  unfold P9Message.FinalizeHeader, P9Message.Data, P9Message.Size, P9Buffer.Size in *.
  cbn [snd P9Message.with_buffer P9Message.fBuffer P9Buffer.fBuffer
       P9Buffer.fWritePos].
  destruct Hwf as [Hpos Hcap].
  assert (Hu : uint32 (P9Buffer.fWritePos (P9Message.fBuffer m))
               = P9Buffer.fWritePos (P9Message.fBuffer m))
    by (unfold uint32; apply Z.mod_small; lia).
  rewrite Hu, memcpy_spec by (rewrite le_bytes_length; lia).
  rewrite take_0, app_nil_l, le_bytes_length.
  unfold written in Hw.
  replace (Z.to_nat (P9Buffer.fWritePos (P9Message.fBuffer m)))
    with (4 + length rest)%nat in * by lia.
  rewrite take_app_add' by (by rewrite le_bytes_length).
  f_equal. change (0 + 4)%nat with 4%nat. rewrite take_drop_commute, Hw.
  rewrite drop_app_length'; [done|by rewrite le_bytes_length].
Qed.

(** What [build] leaves in a message: the frame of the payload its
    writers append when that fits the capacity, an overflow otherwise. *)
Lemma build_wire type tag ws bss m :
  Forall2 appends ws bss ->
  buffer_wf (P9Message.fBuffer m) ->
  P9Buffer.fCapacity (P9Message.fBuffer m) < 2 ^ 32 ->
  if 7 + Z.of_nat (length (concat bss))
     <=? P9Buffer.fCapacity (P9Message.fBuffer m)
  then (P9Message.build type tag ws m).1 = B_OK /\
       P9Message.Data (P9Message.build type tag ws m).2
       = frame type tag (concat bss)
  else (P9Message.build type tag ws m).1 = B_BUFFER_OVERFLOW.
Proof.
  intros Hws [Hpos Hlen] Hcap. unfold P9Message.build.
  rewrite WriteHeader_write_all.
  set (b0 := P9Message.fBuffer (P9Message.Reset m)).
  assert (Hwf0 : buffer_wf b0) by (unfold buffer_wf, b0; cbn; lia).
  assert (Hc0 : P9Buffer.fCapacity b0 = P9Buffer.fCapacity (P9Message.fBuffer m))
    by done.
  assert (Hw0 : written b0 = []) by done.
  assert (Hp0 : P9Buffer.fWritePos b0 = 0) by done.
  set (hdr := [P9Buffer.WriteUint32 0; P9Buffer.WriteUint8 type;
               P9Buffer.WriteUint16 tag]).
  assert (H1 : appends (write_all hdr)
                 (concat [le_bytes 4 0; le_bytes 1 type; le_bytes 2 tag])).
  { apply write_all_appends.
    apply Forall2_cons; [apply WriteUint32_appends|].
    apply Forall2_cons; [apply WriteUint8_appends|].
    apply Forall2_cons; [apply WriteUint16_appends|]. apply Forall2_nil. }
  cbn [concat] in H1. rewrite app_nil_r in H1.
  destruct (Z.leb_spec 7 (P9Buffer.fCapacity (P9Message.fBuffer m))) as [H7|H7].
  2: { destruct (H1 b0 Hwf0) as (_ & _ & _ & Hcase).
       rewrite !length_app, !le_bytes_length, Hp0, Hc0 in Hcase.
       destruct (Z.leb_spec (0 + Z.of_nat (4 + (1 + 2)))
                   (P9Buffer.fCapacity (P9Message.fBuffer m))); [lia|].
       destruct Hcase as [Hst _].
       destruct (Z.leb_spec (7 + Z.of_nat (length (concat bss)))
                   (P9Buffer.fCapacity (P9Message.fBuffer m))); [lia|].
       destruct (write_all hdr b0) as [st b1]. cbn [fst snd] in *. by subst st. }
  destruct (appends_fits _ _ b0 H1 Hwf0
              ltac:(rewrite !length_app, !le_bytes_length, Hp0, Hc0; lia))
    as (Hst1 & Hwf1 & Hc1 & _ & Hw1 & Hp1).
  rewrite !length_app, !le_bytes_length, Hp0 in Hp1.
  rewrite Hw0, app_nil_l in Hw1.
  destruct (write_all hdr b0) as [st1 b1]. cbn [fst snd] in *. subst st1.
  cbn [negb is_ok]. rewrite fields_write_all. cbn [P9Message.fBuffer].
  pose proof (write_all_appends ws bss Hws) as H2.
  destruct (Z.leb_spec (7 + Z.of_nat (length (concat bss)))
              (P9Buffer.fCapacity (P9Message.fBuffer m))) as [Hfit|Hfit].
  - destruct (appends_fits _ _ b1 H2 Hwf1 ltac:(lia))
      as (Hst2 & Hwf2 & Hc2 & _ & Hw2 & Hp2).
    destruct (write_all ws b1) as [st2 b2]. cbn [fst snd] in *. subst st2.
    cbn [negb is_ok]. split; [done|].
    rewrite (FinalizeHeader_Data _
               (le_bytes 1 type ++ le_bytes 2 tag ++ concat bss)).
    + unfold frame, P9Message.Size, P9Buffer.Size.
      cbn [P9Message.with_buffer P9Message.fBuffer]. rewrite Hp2, Hp1.
      do 2 f_equal; lia.
    + done.
    + cbn [P9Message.with_buffer P9Message.fBuffer].
      by rewrite Hw2, Hw1, <- !app_assoc.
    + unfold P9Message.Size, P9Buffer.Size.
      cbn [P9Message.with_buffer P9Message.fBuffer]. lia.
  - destruct (H2 b1 Hwf1) as (_ & _ & _ & Hcase).
    destruct (Z.leb_spec (P9Buffer.fWritePos b1 + Z.of_nat (length (concat bss)))
                (P9Buffer.fCapacity b1)); [lia|].
    destruct Hcase as [Hst _].
    destruct (write_all ws b1) as [st2 b2]. cbn [fst snd] in *. by subst st2.
Qed.

Lemma build_wire_payload type tag ws bss payload m cap :
  Forall2 appends ws bss -> payload = concat bss ->
  buffer_wf (P9Message.fBuffer m) ->
  cap = P9Buffer.fCapacity (P9Message.fBuffer m) -> cap < 2 ^ 32 ->
  if 7 + Z.of_nat (length payload) <=? cap
  then (P9Message.build type tag ws m).1 = B_OK /\
       P9Message.Data (P9Message.build type tag ws m).2
       = frame type tag payload
  else (P9Message.build type tag ws m).1 = B_BUFFER_OVERFLOW.
Proof. intros Hws -> Hwf ->. by apply build_wire. Qed.

Lemma WriteString_map_appends names :
  Forall2 appends (map P9Buffer.WriteString names) (map string_field names).
Proof.
  induction names as [|s names IH]; [apply Forall2_nil|].
  apply Forall2_cons; [apply WriteString_appends|done].
Qed.

Ltac writers :=
  repeat (apply Forall2_cons;
          [first [apply WriteUint8_appends | apply WriteUint16_appends
                 | apply WriteUint32_appends | apply WriteUint64_appends
                 | apply WriteString_appends | apply write_payload_appends]|]);
  first [apply Forall2_nil | apply WriteString_map_appends].

(** Whatever a message held before, a builder leaves in it the frame of
    the request: header, then the documented payload. *)
Lemma build_request_frame tag r m cap :
  buffer_wf (P9Message.fBuffer m) ->
  cap = P9Buffer.fCapacity (P9Message.fBuffer m) -> cap < 2 ^ 32 ->
  if 7 + Z.of_nat (length (documented_payload r)) <=? cap
  then (build_request tag r m).1 = B_OK /\
       P9Message.Data (build_request tag r m).2
       = frame (request_code r) tag (documented_payload r)
  else (build_request tag r m).1 = B_BUFFER_OVERFLOW.
Proof.
  intros Hwf Hcap Hlt.
  destruct r; cbn [build_request request_code documented_payload];
    unfold P9Message.BuildVersion, P9Message.BuildAttach, P9Message.BuildWalk,
      P9Message.BuildLopen, P9Message.BuildLcreate,
      P9Message.BuildRead, P9Message.BuildWrite, P9Message.BuildClunk,
      P9Message.BuildRemove, P9Message.BuildGetattr, P9Message.BuildSetattr,
      P9Message.BuildReaddir, P9Message.BuildMkdir, P9Message.BuildUnlinkat,
      P9Message.BuildRenameat, P9Message.BuildStatfs, P9Message.BuildFsync,
      P9Message.BuildReadlink, P9Message.BuildSymlink, P9Message.BuildLink;
    rewrite ?Nat2Z.id, ?firstn_all.
  3: { (* Twalk *)
    eapply build_wire_payload; [| |exact Hwf|exact Hcap|exact Hlt].
    - apply Forall2_app; [|apply WriteString_map_appends]. writers.
    - rewrite concat_app. cbn [concat]. by rewrite ?app_nil_r, <- ?app_assoc. }
  all: (eapply build_wire_payload; [writers| |exact Hwf|exact Hcap|exact Hlt]);
    cbn [concat]; by rewrite ?app_nil_r, <- ?app_assoc.
Qed.

Lemma fresh_message_wf msize :
  0 <= msize -> buffer_wf (P9Message.fBuffer (fresh_message msize)).
Proof. intros Hm. unfold buffer_wf. cbn. rewrite length_replicate. lia. Qed.

(** X9: Each of the twenty request builders leaves in a fresh message of
    [msize] bytes the frame docs/9P_PROTOCOL.md describes, [size[4]
    type[1] tag[2]] and the payload of the request, when that frame fits
    [msize], and fails with [B_BUFFER_OVERFLOW] when it does not. *)
Theorem build_request_wire tag r msize :
  0 <= msize < 2 ^ 32 ->
  if 7 + Z.of_nat (length (documented_payload r)) <=? msize
  then (build_request tag r (fresh_message msize)).1 = B_OK /\
       P9Message.Data (build_request tag r (fresh_message msize)).2
       = frame (request_code r) tag (documented_payload r)
  else (build_request tag r (fresh_message msize)).1 = B_BUFFER_OVERFLOW.
Proof.
  intros Hm. apply build_request_frame; [|done|lia].
  apply fresh_message_wf. lia.
Qed.

Lemma WriteData_appends data :
  appends (P9Buffer.WriteData data (Z.of_nat (length data)))
    (le_bytes 4 (Z.of_nat (length data)) ++ data).
Proof.
  intros b Hwf. unfold P9Buffer.WriteData.
  rewrite length_app, le_bytes_length, Nat2Z.id, firstn_all.
  set (len := Z.of_nat (length data)).
  replace (Z.of_nat (4 + length data)) with (4 + len) by lia.
  destruct (Z.gtb_spec (P9Buffer.fWritePos b + 4 + len) (P9Buffer.fCapacity b));
    destruct (Z.leb_spec (P9Buffer.fWritePos b + (4 + len)) (P9Buffer.fCapacity b));
    try lia; cbn [fst snd].
  { repeat split; try done; try apply Hwf. exists O. by rewrite take_0, app_nil_r. }
  destruct (appends_fits _ _ b (WriteUint32_appends len) Hwf
              ltac:(rewrite le_bytes_length; lia))
    as (Hst & Hwf1 & Hc1 & Hr1 & Hw1 & Hp).
  rewrite le_bytes_length in Hp.
  destruct (P9Buffer.WriteUint32 len b) as [st b1]. cbn [fst snd] in *.
  subst st. cbn [negb is_ok].
  destruct (Z.gtb_spec len 0); cbn [fst snd].
  - destruct (store_written data len b1 Hwf1 ltac:(done) ltac:(lia))
      as [Hwf2 Hw2].
    split; [exact Hwf2|]. split; [exact Hc1|]. split; [exact Hr1|].
    split; [done|]. by rewrite Hw2, Hw1, app_assoc.
  - assert (data = []) as -> by (destruct data; [done|unfold len in *; simpl in *; lia]).
    rewrite app_nil_r.
    split; [exact Hwf1|]. split; [exact Hc1|]. split; [exact Hr1|]. done.
Qed.

(** X10: Each [P9Buffer] writer appends the little-endian image of its value
    at the write position when it fits the capacity, and otherwise fails
    with [B_BUFFER_OVERFLOW] and leaves what was written as it was. *)
Theorem P9Buffer_writers_append (v : Z) (s : cstring) (q : P9Qid)
    (data : list Z) :
  appends (P9Buffer.WriteUint8 v) (le_bytes 1 v) /\
  appends (P9Buffer.WriteUint16 v) (le_bytes 2 v) /\
  appends (P9Buffer.WriteUint32 v) (le_bytes 4 v) /\
  appends (P9Buffer.WriteUint64 v) (le_bytes 8 v) /\
  appends (P9Buffer.WriteString s) (string_field s) /\
  appends (P9Buffer.WriteData data (Z.of_nat (length data)))
    (le_bytes 4 (Z.of_nat (length data)) ++ data) /\
  appends (P9Buffer.WriteQid q) (qid_bytes q).
Proof.
  split; [apply WriteUint8_appends|].
  split; [apply WriteUint16_appends|].
  split; [apply WriteUint32_appends|].
  split; [apply WriteUint64_appends|].
  split; [apply WriteString_appends|].
  split; [apply WriteData_appends|apply WriteQid_appends].
Qed.

Lemma build_request_wire_witness :
  if 7 + Z.of_nat (length (documented_payload (Tclunk 2))) <=? 64
  then (build_request 1 (Tclunk 2) (fresh_message 64)).1 = B_OK /\
       P9Message.Data (build_request 1 (Tclunk 2) (fresh_message 64)).2
       = frame (request_code (Tclunk 2)) 1 (documented_payload (Tclunk 2))
  else (build_request 1 (Tclunk 2) (fresh_message 64)).1 = B_BUFFER_OVERFLOW.
Proof.
  apply (build_request_wire 1 (Tclunk 2) 64). lia.
Defined.

Lemma option_text_no_nul s : option_text s -> no_nul s.
Proof.
  intros [_ Hs]. induction Hs as [|x s [Hx _] _ IH]; by constructor.
Qed.

Lemma option_text_no_comma s : option_text s -> Forall (fun b => b <> 44) s.
Proof.
  intros [_ Hs]. induction Hs as [|x s [_ Hx] _ IH]; by constructor.
Qed.

Lemma tokens_app sep a b cur :
  tokens sep (a ++ sep :: b) cur = tokens sep a cur ++ tokens sep b [].
Proof.
  revert cur. induction a as [|x a IH]; intros cur; cbn [app tokens].
  - rewrite Z.eqb_refl. by destruct cur.
  - destruct (x =? sep); [destruct cur; by rewrite IH|apply IH].
Qed.

Lemma tokens_single sep s cur :
  Forall (fun b => b <> sep) s -> cur ++ s <> [] ->
  tokens sep s cur = [cur ++ s].
Proof.
  revert cur. induction s as [|x s IH]; intros cur Hs Hne; cbn [tokens].
  - rewrite app_nil_r in *. by destruct cur.
  - apply Forall_cons_1 in Hs as [Hx Hs].
    destruct (Z.eqb_spec x sep); [done|].
    rewrite IH; [by rewrite <- app_assoc|done|].
    rewrite <- app_assoc. by destruct cur.
Qed.

Lemma c_str_app a b : no_nul a -> c_str (a ++ b) = a ++ c_str b.
Proof.
  induction 1 as [|x a Hx _ IH]; [done|]. cbn [app c_str].
  destruct (Z.eqb_spec x 0); [done|]. by rewrite IH.
Qed.

(** When every copy is obtained the loop is a fold of its body. *)
Lemma parse_options_copied copied i opts v :
  (forall n, copied n = true) ->
  Volume.parse_options copied i opts v
  = fold_left (Volume.parse_option true) opts v.
Proof.
  intros Hc. revert i v.
  induction opts as [|opt opts IH]; intros i v;
    cbn [Volume.parse_options fold_left]; [done|].
  by rewrite Hc, IH.
Qed.

Lemma ParseArgs_copied copied args v :
  (forall n, copied n = true) ->
  Volume._ParseArgs copied (Some args) v
  = (B_OK,
     fold_left (Volume.parse_option true) (tokens 44 (c_str args) []) v).
Proof.
  intros Hc. unfold Volume._ParseArgs. rewrite Hc. cbn [negb].
  by rewrite parse_options_copied.
Qed.

Lemma parse_args_app copied a b v :
  (forall n, copied n = true) ->
  no_nul a ->
  Volume._ParseArgs copied (Some (a ++ 44 :: b)) v
  = Volume._ParseArgs copied (Some b)
      (Volume._ParseArgs copied (Some a) v).2.
Proof.
  intros Hc Ha. rewrite !ParseArgs_copied by done. cbn [snd].
  rewrite c_str_app by done. cbn [c_str]. change (44 =? 0) with false. cbv iota.
  rewrite (c_str_id a) by done.
  by rewrite tokens_app, fold_left_app.
Qed.

(** The loop over the options keeps every field but the mount tag and
    the aname, whatever the outcomes of the copies. *)
Lemma parse_options_frame copied i opts v :
  Volume.fClient (Volume.parse_options copied i opts v) = Volume.fClient v /\
  Volume.fTransport (Volume.parse_options copied i opts v)
  = Volume.fTransport v /\
  Volume.fRootFid (Volume.parse_options copied i opts v) = Volume.fRootFid v /\
  Volume.fRootInode (Volume.parse_options copied i opts v)
  = Volume.fRootInode v /\
  Volume.fReadOnly (Volume.parse_options copied i opts v) = Volume.fReadOnly v.
Proof.
  revert i v. induction opts as [|opt opts IH]; intros i v;
    cbn [Volume.parse_options]; [done|].
  destruct (IH (S i) (Volume.parse_option (copied i) v opt))
    as (-> & -> & -> & -> & ->).
  unfold Volume.parse_option. destruct (Volume.split_value opt) as [name value].
  by repeat case_match.
Qed.

(** [_ParseArgs] keeps the client, and the whole volume when it fails. *)
Lemma ParseArgs_client copied args v :
  Volume.fClient (Volume._ParseArgs copied args v).2 = Volume.fClient v /\
  ((Volume._ParseArgs copied args v).1 <> B_OK ->
   (Volume._ParseArgs copied args v).2 = v).
Proof.
  destruct args as [args|]; cbn [Volume._ParseArgs fst snd]; [|done].
  destruct (copied O); cbn [negb fst snd]; [|done].
  split; [apply parse_options_frame|done].
Qed.

(** X11: [_ParseArgs] fails only when the copy of the arguments cannot be
    made, then with [B_NO_MEMORY] and the volume untouched; in every
    case it touches nothing but the mount tag and the aname. *)
Theorem ParseArgs_frame copied args v :
  (Volume._ParseArgs copied args v).1
  = match args with
    | Some _ => if copied O then B_OK else B_NO_MEMORY
    | None => B_OK
    end /\
  ((Volume._ParseArgs copied args v).1 <> B_OK ->
   (Volume._ParseArgs copied args v).2 = v) /\
  Volume.fClient (Volume._ParseArgs copied args v).2 = Volume.fClient v /\
  Volume.fTransport (Volume._ParseArgs copied args v).2 = Volume.fTransport v /\
  Volume.fRootFid (Volume._ParseArgs copied args v).2 = Volume.fRootFid v /\
  Volume.fRootInode (Volume._ParseArgs copied args v).2 = Volume.fRootInode v /\
  Volume.fReadOnly (Volume._ParseArgs copied args v).2 = Volume.fReadOnly v.
Proof.
  destruct args as [args|]; cbn [Volume._ParseArgs fst snd]; [|done].
  destruct (copied O); cbn [negb fst snd]; [|done].
  split; [done|]. split; [done|]. apply parse_options_frame.
Qed.

(** X12: when the copies are obtained, an option that is neither "tag"
    nor "aname" is skipped, wherever it stands in the list. *)
Theorem ParseArgs_unknown_option_ignored copied before unknown after v :
  (forall n, copied n = true) ->
  no_nul before -> option_text unknown ->
  streq (Volume.split_value unknown).1 P9_MOUNT_OPT_TAG = false ->
  streq (Volume.split_value unknown).1 P9_MOUNT_OPT_ANAME = false ->
  Volume._ParseArgs copied (Some (before ++ 44 :: unknown ++ 44 :: after)) v
  = Volume._ParseArgs copied (Some (before ++ 44 :: after)) v.
Proof.
  intros Hc Hb Hopt Ht Ha.
  pose proof (option_text_no_nul _ Hopt) as Hnul.
  pose proof (option_text_no_comma _ Hopt) as Hcomma.
  destruct Hopt as [Hne Hu].
  rewrite !(parse_args_app copied) by done.
  generalize (Volume._ParseArgs copied (Some before) v).2. intros v'.
  f_equal.
  rewrite ParseArgs_copied by done. cbn [snd]. rewrite c_str_id by done.
  rewrite tokens_single;
    [|exact Hcomma|by destruct unknown].
  cbn [fold_left app]. unfold Volume.parse_option.
  destruct (Volume.split_value unknown) as [name value]. cbn [fst] in *.
  by rewrite Ht, Ha.
Qed.

Lemma ParseArgs_unknown_option_ignored_witness :
  Volume._ParseArgs (fun _ => true)
    (Some ([116; 97; 103; 61; 104] ++ 44 :: [114; 119] ++ 44 :: [97; 110; 97; 109; 101; 61; 120]))
    Volume.new
  = Volume._ParseArgs (fun _ => true)
      (Some ([116; 97; 103; 61; 104] ++ 44 :: [97; 110; 97; 109; 101; 61; 120]))
      Volume.new.
Proof.
  apply (ParseArgs_unknown_option_ignored (fun _ => true)
           [116; 97; 103; 61; 104] [114; 119]
           [97; 110; 97; 109; 101; 61; 120] Volume.new).
  - reflexivity.
  - repeat constructor; discriminate.
  - split; [discriminate|]. repeat constructor; discriminate.
  - reflexivity.
  - reflexivity.
Defined.

(** X13: when the copies are obtained, the last "tag=" option decides the
    mount tag. *)
Theorem ParseArgs_last_tag_wins copied before value v :
  (forall n, copied n = true) ->
  no_nul before -> no_nul value ->
  Forall (fun b => b <> 44) value ->
  Volume.fMountTag
    (Volume._ParseArgs copied
       (Some (before ++ 44 :: P9_MOUNT_OPT_TAG ++ 61 :: value)) v).2
  = Some value.
Proof.
  intros Hcp Hb Hv Hc. rewrite parse_args_app by done.
  generalize (Volume._ParseArgs copied (Some before) v).2. intros v'.
  rewrite ParseArgs_copied by done. unfold P9_MOUNT_OPT_TAG. cbn [snd app].
  rewrite c_str_id by (repeat (constructor; [discriminate|]); exact Hv).
  rewrite tokens_single;
    [|repeat (constructor; [discriminate|]); exact Hc|done].
  cbn [fold_left app]. unfold Volume.parse_option.
  change (Volume.split_value (116 :: 97 :: 103 :: 61 :: value))
    with (P9_MOUNT_OPT_TAG, Some value).
  reflexivity.
Qed.

Lemma ParseArgs_last_tag_wins_witness :
  Volume.fMountTag
    (Volume._ParseArgs (fun _ => true)
       (Some ([116; 97; 103; 61; 97] ++ 44 :: P9_MOUNT_OPT_TAG ++ 61 :: [98]))
       Volume.new).2
  = Some [98].
Proof.
  apply (ParseArgs_last_tag_wins (fun _ => true) [116; 97; 103; 61; 97] [98]
           Volume.new);
    [reflexivity|repeat constructor; discriminate..].
Defined.

Lemma InitRegistry_slots r :
  registry_wf r ->
  Registry.sTransports (Registry._InitRegistry r) = Registry.sTransports r.
Proof.
  intros (_ & _ & Hz). unfold Registry._InitRegistry.
  destruct (Registry.sInitialized r); [done|]. cbn. by rewrite Hz.
Qed.

Lemma streq_refl s : streq s s = true.
Proof. unfold streq. by rewrite bool_decide_eq_true_2. Qed.

Lemma register_slot_find slots p tag slots' :
  strlen tag < 256 ->
  Registry.register_slot slots p tag = Some slots' ->
  Forall (fun s => tagged tag s = false) slots ->
  Registry.find_slot slots' tag = Some p.
Proof.
  intros Hlen. revert slots'.
  induction slots as [|s slots IH]; intros slots'; cbn [Registry.register_slot];
    [done|].
  intros Hreg Hfree. apply Forall_cons_1 in Hfree as [Hs Hfree].
  destruct (Registry.inUse s) eqn:Huse; cbn [negb] in Hreg.
  - destruct (Registry.register_slot slots p tag) as [rest|] eqn:Hr; [|done].
    injection Hreg as <-. cbn [Registry.find_slot].
    unfold tagged in Hs. rewrite Hs. by apply IH.
  - injection Hreg as <-. cbn [Registry.find_slot Registry.inUse
      Registry.mountTag Registry.transport andb].
    assert (Heq : streq (Registry.strlcpy tag 256) tag = true).
    { unfold streq, Registry.strlcpy. apply bool_decide_eq_true_2.
      unfold strlen in Hlen. rewrite take_ge by lia.
      clear. induction tag as [|x tag IH]; [done|]. cbn [c_str].
      destruct (Z.eqb_spec x 0) as [|Hx]; [done|]. cbn [c_str].
      destruct (Z.eqb_spec x 0); [done|]. by rewrite IH. }
    by rewrite Heq.
Qed.

Lemma register_slot_Some slots p tag :
  is_Some (Registry.register_slot slots p tag)
  <-> Exists (fun s => Registry.inUse s = false) slots.
Proof.
  induction slots as [|s slots IH]; cbn [Registry.register_slot].
  - split; [by intros [? ?]|by intros ?%Exists_nil].
  - rewrite Exists_cons. destruct (Registry.inUse s); cbn [negb].
    + rewrite fmap_is_Some, IH. split; [by right|].
      intros [Hs|Hex]; [done|exact Hex].
    + split; [by left|by eexists].
Qed.

Lemma register_slot_length slots p tag slots' :
  Registry.register_slot slots p tag = Some slots' ->
  length slots' = length slots.
Proof.
  revert slots'. induction slots as [|s slots IH]; intros slots';
    cbn [Registry.register_slot]; [done|].
  destruct (Registry.inUse s); cbn [negb].
  - destruct (Registry.register_slot slots p tag) eqn:Hr; [|done].
    intros [= <-]. cbn. by rewrite (IH _ eq_refl).
  - by intros [= <-].
Qed.

Lemma register_slot_zeroed slots p tag slots' :
  Registry.register_slot slots p tag = Some slots' ->
  Forall (fun s => Registry.inUse s = false -> s = Registry.empty_slot) slots ->
  Forall (fun s => Registry.inUse s = false -> s = Registry.empty_slot) slots'.
Proof.
  revert slots'. induction slots as [|s slots IH]; intros slots';
    cbn [Registry.register_slot]; [done|].
  intros Hreg Hz. apply Forall_cons_1 in Hz as [Hs Hz].
  destruct (Registry.inUse s) eqn:Huse; cbn [negb] in Hreg.
  - destruct (Registry.register_slot slots p tag) eqn:Hr; [|done].
    injection Hreg as <-. constructor; [intros E; congruence|by apply IH].
  - injection Hreg as <-. constructor; [cbn; intros; discriminate|done].
Qed.

(** X14: Registering a transport under a tag that no slot in use carries
    makes [find] return it; registration succeeds exactly when a slot is
    free. *)
Theorem register_then_find p tag r :
  registry_wf r -> strlen tag < 256 ->
  let r' := (Registry.virtio_9p_register_transport (Some p) (Some tag) r).2 in
  ((Registry.virtio_9p_register_transport (Some p) (Some tag) r).1 = B_OK
   <-> Exists (fun s => Registry.inUse s = false) (Registry.sTransports r)) /\
  ((Registry.virtio_9p_register_transport (Some p) (Some tag) r).1 = B_OK ->
   Forall (fun s => tagged tag s = false) (Registry.sTransports r) ->
   registry_wf r' /\
   (Registry.virtio_9p_find_transport (Some tag) r').1 = Some p) /\
  ((Registry.virtio_9p_register_transport (Some p) (Some tag) r).1 <> B_OK ->
   (Registry.virtio_9p_register_transport (Some p) (Some tag) r).1 = B_NO_MEMORY /\
   Registry.sTransports r' = Registry.sTransports r).
Proof.
  intros Hwf Hlen r'. subst r'.
  unfold Registry.virtio_9p_register_transport.
  pose proof (InitRegistry_slots r Hwf) as Hslots.
  pose proof (register_slot_Some (Registry.sTransports r) p tag) as HSome.
  rewrite Hslots.
  destruct (Registry.register_slot (Registry.sTransports r) p tag)
    as [slots|] eqn:Hreg; cbn [fst snd].
  - split; [split; [intros _; apply HSome; eexists; reflexivity|done]|].
    split; [|intros Hne; by destruct Hne]. intros _ Hfree.
    assert (Hinit : Registry.sInitialized (Registry._InitRegistry r) = true)
      by (unfold Registry._InitRegistry;
          destruct (Registry.sInitialized r) eqn:E; [exact E|reflexivity]).
    split.
    + split; [|split]; cbn; [| |by rewrite Hinit].
      * rewrite (register_slot_length _ _ _ _ Hreg). apply Hwf.
      * destruct Hwf as (_ & Hz & _).
        by apply (register_slot_zeroed (Registry.sTransports r) p tag).
    + rewrite Hinit.
      unfold Registry.virtio_9p_find_transport, Registry._InitRegistry.
      cbn [Registry.sInitialized fst Registry.sTransports].
      by apply (register_slot_find (Registry.sTransports r)).
  - split; [split; [done|]|].
    + intros Hex. apply HSome in Hex. by destruct Hex.
    + split; [done|]. intros _. split; [done|]. done.
Qed.

Lemma register_unregister_slot slots p tag slots' :
  Registry.register_slot slots p tag = Some slots' ->
  Forall (fun s => Registry.inUse s = false -> s = Registry.empty_slot) slots ->
  Forall (fun s => Registry.inUse s = true -> Registry.transport s <> Some p)
    slots ->
  Registry.unregister_slot slots' p = slots.
Proof.
  revert slots'. induction slots as [|s slots IH]; intros slots';
    cbn [Registry.register_slot]; [done|].
  intros Hreg Hz Hp. apply Forall_cons_1 in Hz as [Hs Hz].
  apply Forall_cons_1 in Hp as [Hsp Hp].
  destruct (Registry.inUse s) eqn:Huse; cbn [negb] in Hreg.
  - destruct (Registry.register_slot slots p tag) eqn:Hr; [|done].
    injection Hreg as <-. cbn [Registry.unregister_slot]. rewrite Huse.
    rewrite bool_decide_eq_false_2 by (by apply Hsp). cbn [andb].
    f_equal. by apply IH.
  - injection Hreg as <-.
    cbn [Registry.unregister_slot Registry.inUse Registry.transport andb].
    rewrite bool_decide_eq_true_2 by done. by rewrite Hs.
Qed.

(** X15: Unregistering a transport that has just been registered, and was not
    registered before, gives back the slots as they were. *)
Theorem register_unregister p tag r :
  registry_wf r ->
  Forall (fun s => Registry.inUse s = true -> Registry.transport s <> Some p)
    (Registry.sTransports r) ->
  (Registry.virtio_9p_register_transport (Some p) (Some tag) r).1 = B_OK ->
  Registry.sTransports
    (Registry.virtio_9p_unregister_transport (Some p)
       (Registry.virtio_9p_register_transport (Some p) (Some tag) r).2)
  = Registry.sTransports r.
Proof.
  intros Hwf Hp. pose proof (InitRegistry_slots r Hwf) as Hslots.
  unfold Registry.virtio_9p_register_transport. rewrite Hslots.
  destruct (Registry.register_slot (Registry.sTransports r) p tag)
    as [slots|] eqn:Hreg; cbn [fst snd]; [|done].
  intros _. cbn [Registry.virtio_9p_unregister_transport Registry.sTransports].
  destruct Hwf as (_ & Hz & _).
  by apply (register_unregister_slot (Registry.sTransports r) p tag).
Qed.

Lemma register_then_find_witness :
  let r' := (Registry.virtio_9p_register_transport (Some 4096)
               (Some [104; 111; 115; 116]) Registry.new).2 in
  ((Registry.virtio_9p_register_transport (Some 4096)
      (Some [104; 111; 115; 116]) Registry.new).1 = B_OK
   <-> Exists (fun s => Registry.inUse s = false)
         (Registry.sTransports Registry.new)) /\
  ((Registry.virtio_9p_register_transport (Some 4096)
      (Some [104; 111; 115; 116]) Registry.new).1 = B_OK ->
   Forall (fun s => tagged [104; 111; 115; 116] s = false)
     (Registry.sTransports Registry.new) ->
   registry_wf r' /\
   (Registry.virtio_9p_find_transport (Some [104; 111; 115; 116]) r').1
   = Some 4096) /\
  ((Registry.virtio_9p_register_transport (Some 4096)
      (Some [104; 111; 115; 116]) Registry.new).1 <> B_OK ->
   (Registry.virtio_9p_register_transport (Some 4096)
      (Some [104; 111; 115; 116]) Registry.new).1 = B_NO_MEMORY /\
   Registry.sTransports r' = Registry.sTransports Registry.new).
Proof.
  apply (register_then_find 4096 [104; 111; 115; 116] Registry.new).
  - split; [reflexivity|]. split; [|reflexivity]. repeat constructor.
  - vm_compute. reflexivity.
Defined.

Lemma register_unregister_witness :
  Registry.sTransports
    (Registry.virtio_9p_unregister_transport (Some 4096)
       (Registry.virtio_9p_register_transport (Some 4096)
          (Some [104; 111; 115; 116]) Registry.new).2)
  = Registry.sTransports Registry.new.
Proof.
  apply (register_unregister 4096 [104; 111; 115; 116] Registry.new).
  - split; [reflexivity|]. split; [|reflexivity]. repeat constructor.
  - repeat constructor; discriminate.
  - reflexivity.
Defined.

Section Client.
Context {T : Type} `{P9Transport T}.
Variable indeterminate : Z.

(** No operation other than [Connect] touches the FID pool. *)
Lemma run_op_fidpool o c w :
  is_connect o = false ->
  P9Client.fFidPool (run_op indeterminate o c w).1.2 = P9Client.fFidPool c.
Proof.
  intros Hc. rewrite run_op_client by (intros a ->; discriminate).
  destruct (AllocateTag_fields c) as (_ & Hf & _).
  unfold P9Client.ReleaseTag. cbn [P9Client.fFidPool P9Client.with_tagpool].
  exact Hf.
Qed.

Lemma Walk_fidpool fid newfid path c w :
  P9Client.fFidPool (P9Client.Walk indeterminate fid newfid path c w).1.2
  = P9Client.fFidPool c.
Proof.
  pose proof (run_op_fidpool (OpWalk fid newfid path) c w eq_refl) as Hr.
  cbn [run_op] in Hr. by destruct (P9Client.Walk _ _ _ _ _ _) as [[[? ?] ?] ?].
Qed.

Lemma Open_fidpool fid flags c w :
  P9Client.fFidPool (P9Client.Open indeterminate fid flags c w).1.2
  = P9Client.fFidPool c.
Proof.
  pose proof (run_op_fidpool (OpOpen fid flags) c w eq_refl) as Hr.
  cbn [run_op] in Hr. by destruct (P9Client.Open _ _ _ _ _) as [[[? ?] ?] ?].
Qed.

Lemma Clunk_fidpool fid c w :
  P9Client.fFidPool (P9Client.Clunk indeterminate fid c w).1.2
  = P9Client.fFidPool c.
Proof. exact (run_op_fidpool (OpClunk fid) c w eq_refl). Qed.

Lemma drop_fid_fidpool fid vol w :
  P9Client.fFidPool (Volume.Client (Inode.drop_fid indeterminate fid vol w).1)
  = FidPool.Release fid (P9Client.fFidPool (Volume.Client vol)).
Proof.
  unfold Inode.drop_fid. pose proof (Clunk_fidpool fid (Volume.Client vol) w) as Hc.
  destruct (P9Client.Clunk _ _ _ _) as [[st c] w']. cbn [fst snd] in *.
  unfold Volume.Client, P9Client.ReleaseFid in *. cbn. by rewrite Hc.
Qed.

(** X16: [Inode::Open] takes one fid from the pool and keeps it only on
    success; [FreeCookie] gives it back. *)
Theorem Inode_Open_fid_balance openMode i vol w :
  fid_pool_typed (P9Client.fFidPool (Volume.Client vol)) ->
  let r := Inode.Open indeterminate openMode i vol w in
  let before := FidPool.fBitmap (P9Client.fFidPool (Volume.Client vol)) in
  (r.1.1.1 <> B_OK ->
   r.1.1.2 = None /\
   FidPool.fBitmap (P9Client.fFidPool (Volume.Client r.1.2)) = before) /\
  (r.1.1.1 = B_OK ->
   exists cookie,
     r.1.1.2 = Some cookie /\
     cookie_fid cookie = (P9Client.AllocateFid (Volume.Client vol)).1 /\
     cookie_fid cookie <> P9_NOFID /\
     FidPool.IsValid (cookie_fid cookie)
       (P9Client.fFidPool (Volume.Client vol)) = false /\
     FidPool.fBitmap (P9Client.fFidPool (Volume.Client r.1.2))
     = bitmap_set before (cookie_fid cookie) /\
     forall w',
       FidPool.fBitmap
         (P9Client.fFidPool
            (Volume.Client
               (Inode.FreeCookie indeterminate cookie r.1.2 w').1.2))
       = before).
Proof.
  intros [Hw Hmax] r before. subst r before. unfold Inode.Open.
  pose proof (AllocateFid_fields (Volume.Client vol)) as Hf.
  pose proof (FidPool_Allocate_spec (P9Client.fFidPool (Volume.Client vol))) as Hspec.
  pose proof (FidPool_Release_Allocated (P9Client.fFidPool (Volume.Client vol))) as Hrel.
  destruct (P9Client.AllocateFid (Volume.Client vol)) as [fid c0] eqn:Ha.
  cbn [fst snd] in Hf. destruct Hf as (_ & Hfp & _ & _ & _ & _ & _ & Hfid).
  destruct (FidPool.Allocate (P9Client.fFidPool (Volume.Client vol)))
    as [fid' p'] eqn:Hal. cbn [fst snd] in *. subst fid'.
  specialize (Hspec fid p' eq_refl). specialize (Hrel fid p' Hw eq_refl).
  destruct (Z.eqb_spec fid P9_NOFID) as [->|Hne].
  { cbn [fst snd]. split; [|done]. intros _. split; [done|].
    unfold Volume.Client. cbn. fold (Volume.Client vol). rewrite Hfp.
    destruct Hspec as [[_ ->]|(Hr & _)]; [done|].
    unfold P9_NOFID in Hr. lia. }
  destruct Hspec as [[-> _]|(Hr & Hfree & Hbm & Hmx)]; [done|].
  destruct (Hrel Hne) as [Hrb Hrv].
  assert (Hvol : Volume.Client (Volume.with_client c0 vol) = c0) by done.
  rewrite Hvol.
  pose proof (Walk_fidpool (Inode.fFid i) fid None c0 w) as HW.
  destruct (P9Client.Walk _ _ _ _ _ _) as [[[st1 q1] c1] w1]. cbn [fst snd] in HW.
  destruct (is_ok st1) eqn:Hok1; cbn [negb fst snd].
  2: { split; [|intros ->; discriminate]. intros _. split; [done|].
       unfold Volume.Client, P9Client.ReleaseFid. cbn. by rewrite HW, Hfp. }
  assert (Hvol1 : Volume.Client (Volume.with_client c1 (Volume.with_client c0 vol)) = c1)
    by done.
  rewrite Hvol1.
  pose proof (Open_fidpool fid (haiku_to_p9_open_flags openMode) c1 w1) as HO.
  destruct (P9Client.Open _ _ _ _ _) as [[[st2 q2] c2] w2]. cbn [fst snd] in HO.
  destruct (is_ok st2) eqn:Hok2; cbn [negb fst snd].
  2: { pose proof (drop_fid_fidpool fid
                     (Volume.with_client c2
                        (Volume.with_client c1 (Volume.with_client c0 vol))) w2) as Hd.
       destruct (Inode.drop_fid _ _ _ _) as [vol3 w3]. cbn [fst snd] in *.
       split; [|intros ->; discriminate]. intros _. split; [done|].
       rewrite Hd. unfold Volume.Client. cbn. by rewrite HO, HW, Hfp. }
  split; [intros Hn; by destruct Hn|]. intros _.
  exists (mkFileCookie fid openMode 0). cbn [cookie_fid].
  split; [done|]. split; [done|]. split; [done|].
  split.
  { unfold FidPool.IsValid.
    destruct (Z.geb_spec fid (FidPool.fMaxFids (P9Client.fFidPool (Volume.Client vol))));
      [done|]. by rewrite Hfree. }
  split.
  { unfold Volume.Client. cbn. by rewrite HO, HW, Hfp, Hbm. }
  intros w'. unfold Inode.FreeCookie. cbn [cookie_fid].
  pose proof (drop_fid_fidpool fid
                (Volume.with_client c2
                   (Volume.with_client c1 (Volume.with_client c0 vol))) w') as Hd.
  destruct (Inode.drop_fid _ _ _ _) as [vol3 w3]. cbn [fst snd] in *.
  rewrite Hd. unfold Volume.Client. cbn. by rewrite HO, HW, Hfp.
Qed.

End Client.

Section Client.
Context {T : Type} `{P9Transport T}.
Context {V : Type} `{HostVFS V Inode.t}.
Variable indeterminate : Z.

Lemma Create_fidpool fid name flags mode gid c w :
  P9Client.fFidPool
    (P9Client.Create indeterminate fid name flags mode gid c w).1.2
  = P9Client.fFidPool c.
Proof.
  pose proof (run_op_fidpool indeterminate (OpCreate fid name flags mode gid)
                c w eq_refl) as Hr.
  cbn [run_op] in Hr. by destruct (P9Client.Create _ _ _ _ _ _ _ _) as [[[? ?] ?] ?].
Qed.

Lemma GetAttr_fidpool fid mask c w :
  P9Client.fFidPool (P9Client.GetAttr indeterminate fid mask c w).1.2
  = P9Client.fFidPool c.
Proof.
  pose proof (run_op_fidpool indeterminate (OpGetAttr fid mask) c w eq_refl)
    as Hr.
  cbn [run_op] in Hr. by destruct (P9Client.GetAttr _ _ _ _ _) as [[[? ?] ?] ?].
Qed.

Lemma Init_fidpool i vol w :
  P9Client.fFidPool (Volume.Client (Inode.Init indeterminate i vol w).1.2)
  = P9Client.fFidPool (Volume.Client vol).
Proof.
  unfold Inode.Init, Inode._UpdateStat.
  pose proof (GetAttr_fidpool (Inode.fFid i) P9_GETATTR_BASIC (Volume.Client vol) w)
    as Hg.
  destruct (P9Client.GetAttr _ _ _ _ _) as [[[st attr] c] w'].
  cbn [fst snd] in Hg.
  destruct (is_ok st); cbn [negb]; [destruct attr|]; cbn [fst snd]; exact Hg.
Qed.

Lemma delete_fidpool i vol w :
  P9Client.fFidPool (Volume.Client (Inode.delete indeterminate i vol w).1)
  = P9Client.fFidPool (Volume.Client vol).
Proof.
  unfold Inode.delete. destruct (_ && _); [|done].
  pose proof (Clunk_fidpool indeterminate (Inode.fFid i) (Volume.Client vol) w) as Hc.
  by destruct (P9Client.Clunk _ _ _ _) as [[? ?] ?].
Qed.

(** [Create] when its cookie is obtained: a failure leaves no fid
    allocated, a success leaves the fid of the cookie, which was free,
    allocated. *)
Lemma Create_with_cookie inodeAllocated name openMode perms i vol w v :
  fid_pool_typed (P9Client.fFidPool (Volume.Client vol)) ->
  let r := Inode.Create indeterminate inodeAllocated true name openMode perms
             i vol w v in
  let before := FidPool.fBitmap (P9Client.fFidPool (Volume.Client vol)) in
  (r.1.1.1.1 <> B_OK ->
   r.1.1.1.2 = None /\
   FidPool.fBitmap (P9Client.fFidPool (Volume.Client r.1.1.2)) = before) /\
  (r.1.1.1.1 = B_OK ->
   exists cookie id,
     r.1.1.1.2 = Some (cookie, id) /\
     cookie_fid cookie <> P9_NOFID /\
     FidPool.IsValid (cookie_fid cookie)
       (P9Client.fFidPool (Volume.Client vol)) = false /\
     FidPool.fBitmap (P9Client.fFidPool (Volume.Client r.1.1.2))
     = bitmap_set before (cookie_fid cookie)).
Proof.
  intros [Hw Hmax] r before. subst r before. unfold Inode.Create.
  destruct (Inode.IsDirectory i); cbn [negb fst snd];
    [|split; [done|intros E; discriminate E]].
  destruct (Volume.IsReadOnly vol); cbn [fst snd];
    [split; [done|intros E; discriminate E]|].
  pose proof (AllocateFid_fields (Volume.Client vol)) as Hf.
  pose proof (FidPool_Allocate_spec (P9Client.fFidPool (Volume.Client vol))) as Hspec.
  pose proof (FidPool_Release_Allocated (P9Client.fFidPool (Volume.Client vol))) as Hrel.
  destruct (P9Client.AllocateFid (Volume.Client vol)) as [fid c0] eqn:Ha.
  cbn [fst snd] in Hf. destruct Hf as (_ & Hfp & _ & _ & _ & _ & _ & Hfid).
  destruct (FidPool.Allocate (P9Client.fFidPool (Volume.Client vol)))
    as [fid' p'] eqn:Hal. cbn [fst snd] in *. subst fid'.
  specialize (Hspec fid p' eq_refl). specialize (Hrel fid p' Hw eq_refl).
  destruct (Z.eqb_spec fid P9_NOFID) as [->|Hne].
  { cbn [fst snd]. split; [|intros E; discriminate E]. intros _. split; [done|].
    unfold Volume.Client. cbn. fold (Volume.Client vol). rewrite Hfp.
    destruct Hspec as [[_ ->]|(Hr & _)]; [done|].
    unfold P9_NOFID in Hr. lia. }
  destruct Hspec as [[-> _]|(Hr & Hfree & Hbm & Hmx)]; [done|].
  destruct (Hrel Hne) as [Hrb _].
  assert (Hvol : forall c vol, Volume.Client (Volume.with_client c vol) = c) by done.
  rewrite Hvol.
  pose proof (Walk_fidpool indeterminate (Inode.fFid i) fid None c0 w) as HW.
  destruct (P9Client.Walk _ _ _ _ _ _) as [[[st1 q1] c1] w1]. cbn [fst snd] in HW.
  destruct (is_ok st1) eqn:Hok1; cbn [negb fst snd].
  2: { split; [|intros E; rewrite E in Hok1; discriminate Hok1].
       intros _. split; [done|].
       unfold Volume.Client, P9Client.ReleaseFid. cbn. by rewrite HW, Hfp. }
  rewrite Hvol.
  pose proof (Create_fidpool fid name (haiku_to_p9_open_flags openMode)
                (haiku_mode_to_p9 (Z.lor S_IFREG perms)) 0 c1 w1) as HC.
  destruct (P9Client.Create _ _ _ _ _ _ _ _) as [[[st2 out] c2] w2].
  cbn [fst snd] in HC.
  set (vol2 := Volume.with_client c2 _).
  assert (Hv2 : P9Client.fFidPool (Volume.Client vol2) = p')
    by (unfold vol2; rewrite Hvol; by rewrite HC, HW, Hfp).
  clearbody vol2.
  destruct (is_ok st2) eqn:Hok2; cbn [negb fst snd].
  2: { pose proof (drop_fid_fidpool indeterminate fid vol2 w2) as Hd.
       destruct (Inode.drop_fid _ _ _ _) as [vol3 w3]. cbn [fst snd] in *.
       split; [|intros E; rewrite E in Hok2; discriminate Hok2].
       intros _. split; [done|]. by rewrite Hd, Hv2. }
  destruct inodeAllocated; cbn [negb fst snd].
  2: { pose proof (drop_fid_fidpool indeterminate fid vol2 w2) as Hd.
       destruct (Inode.drop_fid _ _ _ _) as [vol3 w3]. cbn [fst snd] in *.
       split; [|intros E; discriminate E].
       intros _. split; [done|]. by rewrite Hd, Hv2. }
  set (inode := Inode.new _ _ _).
  pose proof (Init_fidpool inode vol2 w2) as HI.
  destruct (Inode.Init _ _ _ _) as [[[st3 inode'] vol3] w3]. cbn [fst snd] in HI.
  assert (Hfail : forall vol4 w4,
            P9Client.fFidPool (Volume.Client vol4) = p' ->
            FidPool.fBitmap
              (P9Client.fFidPool
                 (Volume.Client
                    (Inode.drop_fid indeterminate fid
                       (Inode.delete indeterminate inode' vol4 w4).1
                       (Inode.delete indeterminate inode' vol4 w4).2).1))
            = FidPool.fBitmap (P9Client.fFidPool (Volume.Client vol))).
  { intros vol4 w4 H4. rewrite drop_fid_fidpool, delete_fidpool, H4. done. }
  destruct (is_ok st3) eqn:Hok3; cbn [negb fst snd].
  2: { specialize (Hfail vol3 w3 ltac:(by rewrite HI, Hv2)).
       destruct (Inode.delete _ _ _ _) as [vol4 w4]. cbn [fst snd] in *.
       destruct (Inode.drop_fid _ _ _ _) as [vol5 w5]. cbn [fst snd] in *.
       split; [|intros E; rewrite E in Hok3; discriminate Hok3].
       intros _. by split. }
  destruct (publish_vnode _ _ _ _) as [st4 v4].
  destruct (is_ok st4) eqn:Hok4; cbn [negb fst snd].
  2: { specialize (Hfail vol3 w3 ltac:(by rewrite HI, Hv2)).
       destruct (Inode.delete _ _ _ _) as [vol4 w4]. cbn [fst snd] in *.
       destruct (Inode.drop_fid _ _ _ _) as [vol5 w5]. cbn [fst snd] in *.
       split; [|intros E; rewrite E in Hok4; discriminate Hok4].
       intros _. by split. }
  split; [intros Hn; by destruct Hn|]. intros _.
  eexists _, _. split; [reflexivity|]. cbn [cookie_fid].
  split; [done|]. split.
  { unfold FidPool.IsValid.
    destruct (Z.geb_spec fid (FidPool.fMaxFids (P9Client.fFidPool (Volume.Client vol))));
      [done|]. by rewrite Hfree. }
  by rewrite HI, Hv2, Hbm.
Qed.

(** Without its cookie [Create] does what it does with it, except that
    where it would succeed it puts the vnode and returns [B_NO_MEMORY]. *)
Lemma Create_without_cookie inodeAllocated name openMode perms i vol w v :
  Inode.Create indeterminate inodeAllocated false name openMode perms i vol w v
  = match Inode.Create indeterminate inodeAllocated true name openMode perms
            i vol w v with
    | (B_OK, Some (_, id), vol', w', v') =>
        (B_NO_MEMORY, None, vol', w', (put_vnode v' id).2)
    | r => r
    end.
Proof.
  unfold Inode.Create. cbn [negb].
  repeat case_match; simplify_eq; try reflexivity; try discriminate.
Qed.

(** X17: an [Inode::Create] that fails for a reason other than the
    allocation of its cookie returns no cookie and leaves no fid
    allocated, whether or not the cookie could have been obtained.
    Where the call succeeds with its cookie, without it the vnode is put
    and [B_NO_MEMORY] returned with the client as the successful call
    leaves it: the fid of the new file, free before the call, stays
    allocated, neither clunked nor released. *)
Theorem Inode_Create_failure_fid inodeAllocated name openMode perms i vol w v :
  fid_pool_typed (P9Client.fFidPool (Volume.Client vol)) ->
  let run cookieAllocated :=
    Inode.Create indeterminate inodeAllocated cookieAllocated name openMode
      perms i vol w v in
  let before := FidPool.fBitmap (P9Client.fFidPool (Volume.Client vol)) in
  ((run true).1.1.1.1 <> B_OK ->
   run false = run true /\
   (run true).1.1.1.2 = None /\
   FidPool.fBitmap (P9Client.fFidPool (Volume.Client (run true).1.1.2))
   = before) /\
  (forall cookie id vol' w' v',
     run true = (B_OK, Some (cookie, id), vol', w', v') ->
     run false = (B_NO_MEMORY, None, vol', w', (put_vnode v' id).2) /\
     cookie_fid cookie <> P9_NOFID /\
     FidPool.IsValid (cookie_fid cookie)
       (P9Client.fFidPool (Volume.Client vol)) = false /\
     FidPool.fBitmap (P9Client.fFidPool (Volume.Client vol'))
     = bitmap_set before (cookie_fid cookie)).
Proof.
  intros Htyped run before. subst run before. cbv beta.
  pose proof (Create_with_cookie inodeAllocated name openMode perms i vol w v
                Htyped) as [Hfail Hok].
  pose proof (Create_without_cookie inodeAllocated name openMode perms i vol
                w v) as Hwo.
  cbv zeta in Hfail, Hok.
  destruct (Inode.Create indeterminate inodeAllocated true name openMode
              perms i vol w v) as [[[[st res] vol1] w1] v1].
  cbn [fst snd] in *. split.
  - intros Hne. destruct (Hfail Hne) as [-> Hb].
    split; [|by split]. rewrite Hwo. by destruct st.
  - intros cookie id vol' w' v' [= -> -> -> -> ->].
    destruct (Hok eq_refl) as (cookie' & id' & [= <- <-] & Hn & Hv & Hb).
    by rewrite Hwo.
Qed.

End Client.

Lemma fid_pool_typed_check p :
  forallb (fun w => (0 <=? w) && (w <? 2 ^ 32)) (FidPool.fBitmap p) = true ->
  (0 <=? FidPool.fMaxFids p) && (FidPool.fMaxFids p <? 2 ^ 32) = true ->
  fid_pool_typed p.
Proof.
  intros Hb Hm. split; [by apply uint32_words_check|lia].
Qed.

Lemma Inode_Open_fid_balance_witness :
  let r := Inode.Open 0 0 file_inode (mounted_volume 8192 false) open_server in
  let before :=
    FidPool.fBitmap
      (P9Client.fFidPool (Volume.Client (mounted_volume 8192 false))) in
  (r.1.1.1 <> B_OK ->
   r.1.1.2 = None /\
   FidPool.fBitmap (P9Client.fFidPool (Volume.Client r.1.2)) = before) /\
  (r.1.1.1 = B_OK ->
   exists cookie,
     r.1.1.2 = Some cookie /\
     cookie_fid cookie
     = (P9Client.AllocateFid (Volume.Client (mounted_volume 8192 false))).1 /\
     cookie_fid cookie <> P9_NOFID /\
     FidPool.IsValid (cookie_fid cookie)
       (P9Client.fFidPool (Volume.Client (mounted_volume 8192 false))) = false /\
     FidPool.fBitmap (P9Client.fFidPool (Volume.Client r.1.2))
     = bitmap_set before (cookie_fid cookie) /\
     forall w' : Script,
       FidPool.fBitmap
         (P9Client.fFidPool
            (Volume.Client (Inode.FreeCookie 0 cookie r.1.2 w').1.2))
       = before).
Proof.
  apply (Inode_Open_fid_balance 0 0 file_inode (mounted_volume 8192 false)
           open_server).
  apply fid_pool_typed_check; vm_compute; reflexivity.
Defined.

Lemma Inode_Create_failure_fid_witness :
  let run cookieAllocated :=
    Inode.Create 0 true cookieAllocated [97] 0 420 root_inode
      (mounted_volume 8192 false) create_server ([] : VnodeList) in
  let before :=
    FidPool.fBitmap
      (P9Client.fFidPool (Volume.Client (mounted_volume 8192 false))) in
  ((run true).1.1.1.1 <> B_OK ->
   run false = run true /\
   (run true).1.1.1.2 = None /\
   FidPool.fBitmap (P9Client.fFidPool (Volume.Client (run true).1.1.2))
   = before) /\
  (forall cookie id vol' w' v',
     run true = (B_OK, Some (cookie, id), vol', w', v') ->
     run false = (B_NO_MEMORY, None, vol', w', (put_vnode v' id).2) /\
     cookie_fid cookie <> P9_NOFID /\
     FidPool.IsValid (cookie_fid cookie)
       (P9Client.fFidPool (Volume.Client (mounted_volume 8192 false))) = false /\
     FidPool.fBitmap (P9Client.fFidPool (Volume.Client vol'))
     = bitmap_set before (cookie_fid cookie)).
Proof.
  apply (Inode_Create_failure_fid 0 true [97] 0 420 root_inode
           (mounted_volume 8192 false) create_server ([] : VnodeList)).
  apply fid_pool_typed_check; vm_compute; reflexivity.
Defined.

Section Client.
Context {T : Type} `{P9Transport T}.
Context {V : Type} `{HostVFS V Inode.t}.
Variable indeterminate : Z.

(** X18: Without a mount tag, or with one no transport in use is registered
    under, [Mount] fails before the client is initialised: nothing is
    sent and the vnode cache is not touched.  The status is that of
    [_ParseArgs] when the arguments could not be copied, and otherwise
    [B_BAD_VALUE] without a tag and [B_DEVICE_NOT_FOUND] with one. *)
Theorem Mount_without_transport copied flags args registry vol w v :
  virtio_9p_find_transport registry
    (Volume.fMountTag (Volume._ParseArgs copied args vol).2) = None ->
  let r := VolumeMount.Mount indeterminate copied flags args registry vol w v in
  r.1.1.1.1
  = (if is_ok (Volume._ParseArgs copied args vol).1 then
       match Volume.fMountTag (Volume._ParseArgs copied args vol).2 with
       | Some _ => B_DEVICE_NOT_FOUND
       | None => B_BAD_VALUE
       end
     else (Volume._ParseArgs copied args vol).1) /\
  r.1.1.1.2 = None /\
  Volume.fClient r.1.1.2 = Volume.fClient vol /\
  r.1.2 = w /\ r.2 = v.
Proof.
  intros Hfind r. subst r. unfold VolumeMount.Mount.
  destruct (ParseArgs_client copied args vol) as (Hcl & _).
  destruct (Volume._ParseArgs copied args vol) as [st vol1]. cbn [fst snd] in *.
  destruct (is_ok st); cbn [negb fst snd]; [|by rewrite <- Hcl].
  unfold Volume._FindTransport.
  cbn [VolumeMount.with_read_only Volume.fMountTag].
  destruct (Volume.fMountTag vol1) as [tag|] eqn:Htag; cbn [negb is_ok fst snd].
  - rewrite Hfind. cbn [negb is_ok fst snd]. by rewrite <- Hcl.
  - by rewrite <- Hcl.
Qed.

Lemma Connect_msize_le aname c w :
  P9Client.fMsize (P9Client.Connect indeterminate aname c w).1.2
  <= P9Client.fMsize c.
Proof.
  unfold P9Client.Connect.
  repeat case_match; simplify_eq; cbn [fst snd]; alloc_fields; client_fields;
    subst; cbn [fst snd] in *; client_fields;
    repeat match goal with
      | Hx : P9Client.fMsize _ = _ |- _ => rewrite Hx
      | Hx : (_ <? _) = true |- _ => apply Z.ltb_lt in Hx
      end; try lia.
Qed.

Lemma same_but_tags_refl c : same_but_tags c c.
Proof. by repeat split. Qed.

Lemma same_but_tags_trans c1 c2 c3 :
  same_but_tags c1 c2 -> same_but_tags c2 c3 -> same_but_tags c1 c3.
Proof.
  intros (?&?&?&?&?&?) (?&?&?&?&?&?). repeat split; congruence.
Qed.

Lemma same_volume_refl vol : same_volume vol vol.
Proof. split; [apply same_but_tags_refl|by repeat split]. Qed.

Lemma same_volume_trans v1 v2 v3 :
  same_volume v1 v2 -> same_volume v2 v3 -> same_volume v1 v3.
Proof.
  intros (?&?&?&?&?&?&?) (?&?&?&?&?&?&?).
  split; [by eapply same_but_tags_trans|]. repeat split; congruence.
Qed.

Lemma same_volume_with_client vol c :
  same_but_tags (Volume.fClient vol) c ->
  same_volume vol (Volume.with_client c vol).
Proof. intros Hc. split; [exact Hc|by repeat split]. Qed.

Lemma run_op_same o c w :
  is_connect o = false ->
  same_but_tags c (run_op indeterminate o c w).1.2.
Proof.
  intros Hc. rewrite run_op_client by (intros a ->; discriminate).
  destruct (AllocateTag_fields c) as (? & ? & _ & ? & ? & ? & ? & _).
  unfold P9Client.ReleaseTag. by repeat split.
Qed.

Lemma GetAttr_same fid mask c w :
  same_but_tags c (P9Client.GetAttr indeterminate fid mask c w).1.2.
Proof.
  pose proof (run_op_same (OpGetAttr fid mask) c w eq_refl) as Hr.
  cbn [run_op] in Hr. by destruct (P9Client.GetAttr _ _ _ _ _) as [[[? ?] ?] ?].
Qed.

Lemma Clunk_same fid c w :
  same_but_tags c (P9Client.Clunk indeterminate fid c w).1.2.
Proof. exact (run_op_same (OpClunk fid) c w eq_refl). Qed.

Lemma Init_same i vol w :
  same_volume vol (Inode.Init indeterminate i vol w).1.2.
Proof.
  unfold Inode.Init, Inode._UpdateStat.
  pose proof (GetAttr_same (Inode.fFid i) P9_GETATTR_BASIC (Volume.Client vol) w)
    as Hg.
  destruct (P9Client.GetAttr _ _ _ _ _) as [[[st attr] c] w'].
  cbn [fst snd] in Hg.
  destruct (is_ok st); cbn [negb]; [destruct attr|]; cbn [fst snd];
    by apply same_volume_with_client.
Qed.

Lemma delete_same i vol w :
  same_volume vol (Inode.delete indeterminate i vol w).1.
Proof.
  unfold Inode.delete. destruct (_ && _); [|apply same_volume_refl].
  pose proof (Clunk_same (Inode.fFid i) (Volume.Client vol) w) as Hc.
  destruct (P9Client.Clunk _ _ _ _) as [[? ?] ?].
  by apply same_volume_with_client.
Qed.

Lemma GetInode_same fid qid vol w v :
  same_volume vol (VolumeMount.GetInode indeterminate fid qid vol w v).1.1.2.
Proof.
  unfold VolumeMount.GetInode.
  destruct (get_vnode v (Volume.QidToIno qid)) as [st node].
  destruct (is_ok st).
  { destruct (negb _); [|apply same_volume_refl].
    pose proof (Clunk_same fid (Volume.Client vol) w) as Hc.
    destruct (P9Client.Clunk _ _ _ _) as [[? ?] ?].
    by apply same_volume_with_client. }
  pose proof (Init_same (Inode.new (Volume.QidToIno qid) fid qid) vol w) as HI.
  destruct (Inode.Init _ _ _ _) as [[[st1 inode] vol1] w1]. cbn [fst snd] in HI.
  destruct (is_ok st1); cbn [negb].
  2: { pose proof (delete_same inode vol1 w1) as Hd.
       destruct (Inode.delete _ _ _ _) as [vol2 w2]. cbn [fst snd] in *.
       by eapply same_volume_trans. }
  destruct (publish_vnode _ _ _ _) as [st2 v2].
  destruct (is_ok st2); cbn [negb fst snd]; [done|].
  pose proof (delete_same inode vol1 w1) as Hd.
  destruct (Inode.delete _ _ _ _) as [vol2 w2]. cbn [fst snd] in *.
  by eapply same_volume_trans.
Qed.

Lemma Init_msize msize c :
  (P9Client.Init true msize c).1 = B_OK /\
  P9Client.fMsize (P9Client.Init true msize c).2 = msize.
Proof. done. Qed.

(** X19: A successful [Mount] leaves a volume that is read-only exactly when
    the flag was given, whose root fid is the client's, and whose client
    has an [msize] of at most the default 8192, whatever the arguments
    said. *)
Theorem Mount_postconditions copied flags args registry vol w v :
  let r := VolumeMount.Mount indeterminate copied flags args registry vol w v in
  r.1.1.1.1 = B_OK ->
  Volume.IsReadOnly r.1.1.2 = negb (Z.land flags B_MOUNT_READ_ONLY =? 0) /\
  Volume.fRootFid r.1.1.2 = P9Client.fRootFid (Volume.Client r.1.1.2) /\
  P9Client.fMsize (Volume.Client r.1.1.2) <= P9_DEFAULT_MSIZE /\
  is_Some (Volume.fMountTag r.1.1.2) /\
  is_Some (Volume.fTransport r.1.1.2) /\
  Volume.fRootInode r.1.1.2 = r.1.1.1.2.
Proof.
  intros r. subst r. unfold VolumeMount.Mount.
  destruct (Volume._ParseArgs copied args vol) as [st0 vol0].
  destruct (is_ok st0) eqn:Hok0; cbn [negb fst snd];
    [|intros E; rewrite E in Hok0; discriminate Hok0].
  set (vol1 := VolumeMount.with_read_only _ vol0).
  assert (Hro1 : Volume.fReadOnly vol1 = negb (Z.land flags B_MOUNT_READ_ONLY =? 0))
    by done.
  clearbody vol1. unfold Volume._FindTransport.
  destruct (Volume.fMountTag vol1) as [tag|] eqn:Htag; cbn [negb is_ok fst snd];
    [|discriminate].
  destruct (virtio_9p_find_transport registry (Some tag)) as [idx|] eqn:Hfind;
    cbn [negb is_ok fst snd]; [|discriminate].
  set (vol2 := Volume.mk _ _ _ _ _ _ _).
  assert (H2 : Volume.fReadOnly vol2 = negb (Z.land flags B_MOUNT_READ_ONLY =? 0)
               /\ Volume.fMountTag vol2 = Some tag
               /\ Volume.fTransport vol2 = Some idx) by done.
  clearbody vol2. destruct H2 as (Hro2 & Htag2 & Htr2).
  rewrite Htr2, bool_decide_eq_true_2 by (by eexists).
  destruct (Init_msize P9_DEFAULT_MSIZE (Volume.Client vol2)) as [Hst3 Hm3].
  destruct (P9Client.Init true P9_DEFAULT_MSIZE (Volume.Client vol2))
    as [st3 c3]. cbn [fst snd] in *. subst st3. cbn [negb is_ok].
  assert (Hvol : forall c vol, Volume.Client (Volume.with_client c vol) = c) by done.
  rewrite Hvol.
  pose proof (Connect_msize_le (default [] (Volume.fAname (Volume.with_client c3 vol2))) c3 w)
    as Hle.
  destruct (P9Client.Connect _ _ _ _) as [[st4 c4] w4]. cbn [fst snd] in Hle.
  destruct (is_ok st4) eqn:Hok4; cbn [negb fst snd];
    [|intros E; rewrite E in Hok4; discriminate Hok4].
  set (vol5 := VolumeMount.with_root _ _ _).
  assert (H5 : Volume.fReadOnly vol5 = negb (Z.land flags B_MOUNT_READ_ONLY =? 0)
               /\ Volume.fMountTag vol5 = Some tag
               /\ Volume.fTransport vol5 = Some idx
               /\ Volume.fClient vol5 = c4
               /\ Volume.fRootFid vol5 = P9Client.fRootFid c4) by done.
  clearbody vol5. destruct H5 as (Hro5 & Htag5 & Htr5 & Hc5 & Hrf5).
  pose proof (GetAttr_same (Volume.fRootFid vol5) P9_GETATTR_BASIC
                (Volume.Client vol5) w4) as Hg.
  destruct (P9Client.GetAttr _ _ _ _ _) as [[[st6 attr] c6] w6].
  cbn [fst snd] in Hg.
  pose proof (same_volume_with_client vol5 c6 Hg) as Hs6.
  set (vol6 := Volume.with_client c6 vol5) in *. clearbody vol6.
  destruct (is_ok st6) eqn:Hok6; cbn [negb fst snd].
  2: { destruct (VolumeMount.disconnect _ _ _); cbn [fst snd].
       intros E; rewrite E in Hok6; discriminate Hok6. }
  pose proof (GetInode_same (Volume.fRootFid vol6)
                (default (mkQid 0 0 0) (attr_qid <$> attr)) vol6 w6 v) as Hs7.
  destruct (VolumeMount.GetInode _ _ _ _ _ _) as [[[[st7 inode] vol7] w7] v7].
  cbn [fst snd] in Hs7.
  destruct (is_ok st7) eqn:Hok7; cbn [negb fst snd].
  2: { destruct (VolumeMount.disconnect _ _ _); cbn [fst snd].
       intros E; rewrite E in Hok7; discriminate Hok7. }
  intros _.
  pose proof (same_volume_trans _ _ _ Hs6 Hs7) as (Hc & Htr & Hrf & _ & Htg & _ & Hro).
  destruct Hc as (_ & _ & Hm & _ & Hr & _).
  unfold Volume.IsReadOnly, Volume.Client.
  cbn [VolumeMount.with_root Volume.fReadOnly Volume.fRootFid Volume.fClient
       Volume.fMountTag Volume.fTransport Volume.fRootInode].
  rewrite Hro, Hro5, Hrf, Hrf5, Hr, Hc5, Hm, Htg, Htag5, Htr, Htr5, Hc5.
  unfold P9_DEFAULT_MSIZE in *. repeat split; try done; try lia; by eexists.
Qed.

End Client.

Lemma Mount_without_transport_witness :
  let r := VolumeMount.Mount 0 (fun _ => true) 0 (Some args_tag) []
             Volume.new mount_server ([] : VnodeList) in
  r.1.1.1.1
  = (if is_ok (Volume._ParseArgs (fun _ => true) (Some args_tag) Volume.new).1
     then
       match Volume.fMountTag
               (Volume._ParseArgs (fun _ => true) (Some args_tag)
                  Volume.new).2 with
       | Some _ => B_DEVICE_NOT_FOUND
       | None => B_BAD_VALUE
       end
     else (Volume._ParseArgs (fun _ => true) (Some args_tag) Volume.new).1) /\
  r.1.1.1.2 = None /\
  Volume.fClient r.1.1.2 = Volume.fClient Volume.new /\
  r.1.2 = mount_server /\ r.2 = ([] : VnodeList).
Proof.
  apply (Mount_without_transport 0 (fun _ => true) 0 (Some args_tag) []
           Volume.new mount_server ([] : VnodeList)).
  vm_compute. reflexivity.
Defined.

Lemma Mount_postconditions_witness :
  let r := VolumeMount.Mount 0 (fun _ => true) 1 (Some args_tag_msize)
             host_registry Volume.new mount_server ([] : VnodeList) in
  Volume.IsReadOnly r.1.1.2 = negb (Z.land 1 B_MOUNT_READ_ONLY =? 0) /\
  Volume.fRootFid r.1.1.2 = P9Client.fRootFid (Volume.Client r.1.1.2) /\
  P9Client.fMsize (Volume.Client r.1.1.2) <= P9_DEFAULT_MSIZE /\
  is_Some (Volume.fMountTag r.1.1.2) /\
  is_Some (Volume.fTransport r.1.1.2) /\
  Volume.fRootInode r.1.1.2 = r.1.1.1.2.
Proof.
  apply (Mount_postconditions 0 (fun _ => true) 1 (Some args_tag_msize)
           host_registry Volume.new mount_server ([] : VnodeList)).
  vm_compute. reflexivity.
Defined.

Lemma write_payload_take data count :
  0 <= count <= Z.of_nat (length data) ->
  P9Message.write_payload data count
  = P9Message.write_payload (take (Z.to_nat count) data)
      (Z.of_nat (length (take (Z.to_nat count) data))).
Proof.
  intros Hc. rewrite length_take, Nat2Z.inj_min, Z2Nat.id by lia.
  rewrite Z.min_l by lia. unfold P9Message.write_payload.
  by rewrite take_take, Nat.min_id.
Qed.

Lemma BuildWrite_take tag fid offset data count m :
  0 <= count <= Z.of_nat (length data) ->
  P9Message.BuildWrite tag fid offset data count m
  = build_request tag (Twrite fid offset (take (Z.to_nat count) data)) m.
Proof.
  intros Hc. cbn [build_request]. unfold P9Message.BuildWrite.
  rewrite (write_payload_take data count Hc).
  rewrite length_take, Nat2Z.inj_min, Z2Nat.id by lia.
  rewrite Z.min_l by lia. reflexivity.
Qed.

Lemma BuildWalk_names tag fid newfid path m :
  let names := P9Client.components (c_str path) in
  let nwname := uint16 (Z.of_nat (length names)) in
  P9Message.BuildWalk tag fid newfid nwname (take (Z.to_nat nwname) names) m
  = build_request tag (Twalk fid newfid (take (Z.to_nat nwname) names)) m.
Proof.
  intros names nwname. cbn [build_request].
  assert (Hn : 0 <= nwname <= Z.of_nat (length names)).
  { unfold nwname, uint16.
    pose proof (Z.mod_pos_bound (Z.of_nat (length names)) (2 ^ 16) eq_refl).
    pose proof (Z.mod_le (Z.of_nat (length names)) (2 ^ 16)). lia. }
  rewrite length_take, Nat2Z.inj_min, Z2Nat.id by lia.
  rewrite Z.min_l by lia. reflexivity.
Qed.

Section Sent.
Context {T : Type} `{P9Transport T}.
Variable indeterminate : Z.

(** [DoRequest] over a recording transport: the frame of the request is
    appended to the log whatever the exchange comes to. *)
Lemma DoRequest_recorded request c (w : Recorder T) :
  rec_log (P9Client.DoRequest request c w).2
  = rec_log w ++ [P9Message.Data request].
Proof.
  unfold P9Client.DoRequest.
  cbn [SendMessage ReceiveMessage recorder_transport].
  repeat case_match; simplify_eq; cbn [rec_log snd]; done.
Qed.

Lemma exchange_recorded {A : Type} tag msg c1 (w : Recorder T)
    (k : status_t -> P9Message.t -> P9Client.t -> Recorder T
         -> status_t * A * Recorder T) :
  (forall st resp c' w', (k st resp c' w').2 = w') ->
  rec_log (let '(status, response, w) := P9Client.DoRequest msg c1 w in
           k status response (P9Client.ReleaseTag tag c1) w).2
  = rec_log w ++ [P9Message.Data msg].
Proof.
  intros Hk. pose proof (DoRequest_recorded msg c1 w) as HD.
  destruct (P9Client.DoRequest msg c1 w) as [[st resp] w1].
  cbn [snd] in HD. by rewrite Hk.
Qed.

Ltac built_status Hst :=
  match type of Hst with
  | (?build).1 = _ =>
      let st := fresh "st" in
      let msg := fresh "msg" in
      destruct build as [st msg]; cbn [fst snd] in *; subst st;
      cbn [negb is_ok fst snd]
  end.

Ltac sent_frame HB :=
  let Hst := fresh "Hst" in
  let HD := fresh "HD" in
  let Hlog := fresh "Hlog" in
  match goal with
  | |- context [if ?b then _ else _] =>
      match type of HB with
      | context [b] => destruct b
      end
  end;
  [ destruct HB as [Hst HD]; built_status Hst; rewrite <- HD;
    match goal with
    | |- context [P9Client.DoRequest ?msg ?c1 ?w] =>
        pose proof (DoRequest_recorded msg c1 w) as Hlog;
        destruct (P9Client.DoRequest msg c1 w) as [[? ?] ?];
        cbn [snd] in Hlog; rewrite <- Hlog
    end;
    repeat case_match; simplify_eq; cbn [fst snd]; done
  | built_status HB; done ].

(** X20: Every operation other than [Connect] hands the transport exactly one
    frame, the documented image of its request under the tag it
    allocated, or nothing when that image does not fit [msize]. *)
Theorem operation_sends_request o c (w : Recorder T) :
  is_connect o = false ->
  0 <= P9Client.fMsize c < 2 ^ 32 -> 0 <= P9Client.fIOUnit c ->
  buffer_holds o ->
  if 7 + Z.of_nat (length (documented_payload (request_of o c)))
     <=? P9Client.fMsize c
  then rec_log (run_op indeterminate o c w).2
       = rec_log w ++ [frame (request_code (request_of o c))
                         (P9Client.AllocateTag c).1
                         (documented_payload (request_of o c))]
  else (run_op indeterminate o c w).1.1 = B_BUFFER_OVERFLOW /\
       (run_op indeterminate o c w).2 = w.
Proof.
  intros Hop Hm Hio Hbuf.
  pose proof (build_request_frame (P9Client.AllocateTag c).1 (request_of o c)
                (fresh_message (P9Client.fMsize c)) (P9Client.fMsize c)
                (fresh_message_wf _ (proj1 Hm)) eq_refl (proj2 Hm)) as HB.
  pose proof (AllocateTag_fields c) as (_ & _ & _ & Hms & Hiou & _).
  destruct o; try discriminate Hop; cbn [run_op request_of] in *;
    client_unfold; unfold P9Client.Walk, P9Client.WalkPath;
    rewrite ?P9Message_Init_new; cbn [negb is_ok].
  all: destruct (P9Client.AllocateTag c) as [tag c1]; cbn [fst snd] in *.
  all: cbn [build_request request_code] in *.
  2-4,6-18: sent_frame HB.
  - (* Walk *)
    cbv zeta.
    destruct path as [path|]; cbn [walk_request_names] in *;
      [|change (Z.of_nat (length (@nil cstring))) with 0 in HB; sent_frame HB].
    pose proof (BuildWalk_names tag fid newfid path
                  (fresh_message (P9Client.fMsize c))) as Hnames.
    cbv zeta in HB, Hnames. cbn [build_request] in Hnames.
    set (names := P9Client.components (c_str path)) in *.
    destruct (c_str path) as [|x rest];
      [change (Z.of_nat (length (@nil cstring))) with 0 in HB; sent_frame HB|].
    destruct (uint16 (Z.of_nat (length names)) =? 0) eqn:Hz;
      [change (Z.of_nat (length (@nil cstring))) with 0 in HB; sent_frame HB|].
    rewrite <- Hnames in HB. sent_frame HB.
  - (* Write *)
    cbn [buffer_holds] in Hbuf.
    set (toWrite := if count >? P9Client.fIOUnit c
                    then P9Client.fIOUnit c else count) in *.
    assert (Hw : 0 <= toWrite <= Z.of_nat (length buffer))
      by (unfold toWrite; destruct (Z.gtb_spec count (P9Client.fIOUnit c)); lia).
    pose proof (BuildWrite_take tag fid offset buffer toWrite
                  (fresh_message (P9Client.fMsize c)) Hw) as Htake.
    cbn [build_request] in Htake. rewrite <- Htake in HB.
    sent_frame HB.
Qed.

Lemma Clunk_recorded fid c (w : Recorder T) :
  0 <= P9Client.fMsize c < 2 ^ 32 ->
  if 7 + Z.of_nat (length (documented_payload (Tclunk fid)))
     <=? P9Client.fMsize c
  then rec_log (P9Client.Clunk indeterminate fid c w).2
       = rec_log w ++ [frame P9_TCLUNK (P9Client.AllocateTag c).1
                         (documented_payload (Tclunk fid))]
  else (P9Client.Clunk indeterminate fid c w).1.1 = B_BUFFER_OVERFLOW /\
       (P9Client.Clunk indeterminate fid c w).2 = w.
Proof.
  intros Hm.
  pose proof (build_request_frame (P9Client.AllocateTag c).1 (Tclunk fid)
                (fresh_message (P9Client.fMsize c)) (P9Client.fMsize c)
                (fresh_message_wf _ (proj1 Hm)) eq_refl (proj2 Hm)) as HB.
  unfold P9Client.Clunk. rewrite P9Message_Init_new. cbn [negb is_ok].
  destruct (P9Client.AllocateTag c) as [tag c1]; cbn [fst snd] in *.
  cbn [build_request request_code] in *.
  sent_frame HB.
Qed.

(** X21: [Disconnect] of a connected client sends one [Tclunk] for the root
    fid, the only frame it sends, and whatever comes of the exchange it
    releases the root fid and leaves the client unconnected, with the
    tag of the exchange released; on a client that is not connected it
    does nothing. *)
Theorem Disconnect_clunks_root c (w : Recorder T) :
  0 <= P9Client.fMsize c < 2 ^ 32 ->
  let r := P9Client.Disconnect indeterminate c w in
  P9Client.fConnected r.1 = false /\
  if P9Client.fConnected c then
    rec_log r.2
    = rec_log w ++
      (if 11 <=? P9Client.fMsize c
       then [frame P9_TCLUNK (P9Client.AllocateTag c).1
               (le_bytes 4 (P9Client.fRootFid c))]
       else []) /\
    P9Client.fFidPool r.1
    = FidPool.Release (P9Client.fRootFid c) (P9Client.fFidPool c) /\
    P9Client.fTagPool r.1
    = TagPool.Release (TagPool.Allocate (P9Client.fTagPool c)).1
        (TagPool.Allocate (P9Client.fTagPool c)).2 /\
    P9Client.fMsize r.1 = P9Client.fMsize c /\
    P9Client.fTransport r.1 = P9Client.fTransport c
  else r = (c, w).
Proof.
  intros Hm r. subst r. unfold P9Client.Disconnect.
  destruct (P9Client.fConnected c) eqn:Hconn; cbn [negb]; [|done].
  pose proof (Clunk_recorded (P9Client.fRootFid c) c w Hm) as Hlog.
  pose proof (run_op_client indeterminate (OpClunk (P9Client.fRootFid c)) c w
                ltac:(done)) as Hc.
  cbn [run_op] in Hc.
  pose proof (AllocateTag_fields c) as (Htr & Hfp & Htp & Hms & _ & Hrf & _ & Htag).
  destruct (P9Client.Clunk _ _ _ _) as [[st c1] w1]. cbn [fst snd] in *.
  subst c1. destruct (P9Client.AllocateTag c) as [tag c1]. cbn [fst snd] in *.
  client_fields. split; [done|].
  rewrite Hrf, Hfp, Htp, Htag, Hms, Htr.
  repeat split; try done.
  change (Z.of_nat (length (documented_payload (Tclunk (P9Client.fRootFid c)))))
    with (Z.of_nat (length (le_bytes 4 (P9Client.fRootFid c)))) in Hlog.
  rewrite le_bytes_length in Hlog. change (7 + Z.of_nat 4) with 11 in Hlog.
  destruct (11 <=? P9Client.fMsize c); [by rewrite Hlog, Htag|].
  destruct Hlog as [_ ->]. by rewrite app_nil_r.
Qed.

End Sent.

Lemma Disconnect_clunks_root_witness :
  let r := P9Client.Disconnect 0 (connected_client 64)
             (mkRecorder [] ([] : Script)) in
  P9Client.fConnected r.1 = false /\
  if P9Client.fConnected (connected_client 64) then
    rec_log r.2
    = rec_log (mkRecorder [] ([] : Script)) ++
      (if 11 <=? P9Client.fMsize (connected_client 64)
       then [frame P9_TCLUNK (P9Client.AllocateTag (connected_client 64)).1
               (le_bytes 4 (P9Client.fRootFid (connected_client 64)))]
       else []) /\
    P9Client.fFidPool r.1
    = FidPool.Release (P9Client.fRootFid (connected_client 64))
        (P9Client.fFidPool (connected_client 64)) /\
    P9Client.fTagPool r.1
    = TagPool.Release
        (TagPool.Allocate (P9Client.fTagPool (connected_client 64))).1
        (TagPool.Allocate (P9Client.fTagPool (connected_client 64))).2 /\
    P9Client.fMsize r.1 = P9Client.fMsize (connected_client 64) /\
    P9Client.fTransport r.1 = P9Client.fTransport (connected_client 64)
  else r = (connected_client 64, mkRecorder [] ([] : Script)).
Proof.
  apply (Disconnect_clunks_root 0 (connected_client 64)
           (mkRecorder [] ([] : Script))).
  vm_compute. split; [discriminate|reflexivity].
Defined.

Lemma operation_sends_request_witness :
  if 7 + Z.of_nat (length (documented_payload
                             (request_of (OpWrite 2 0 [104; 105; 33] 2)
                                (connected_client 64))))
     <=? P9Client.fMsize (connected_client 64)
  then rec_log (run_op 0 (OpWrite 2 0 [104; 105; 33] 2) (connected_client 64)
                  (mkRecorder [] ([] : Script))).2
       = rec_log (mkRecorder [] ([] : Script))
         ++ [frame (request_code (request_of (OpWrite 2 0 [104; 105; 33] 2)
                                    (connected_client 64)))
               (P9Client.AllocateTag (connected_client 64)).1
               (documented_payload (request_of (OpWrite 2 0 [104; 105; 33] 2)
                                      (connected_client 64)))]
  else (run_op 0 (OpWrite 2 0 [104; 105; 33] 2) (connected_client 64)
          (mkRecorder [] ([] : Script))).1.1 = B_BUFFER_OVERFLOW /\
       (run_op 0 (OpWrite 2 0 [104; 105; 33] 2) (connected_client 64)
          (mkRecorder [] ([] : Script))).2 = mkRecorder [] ([] : Script).
Proof.
  apply (operation_sends_request 0 (OpWrite 2 0 [104; 105; 33] 2)
           (connected_client 64) (mkRecorder [] ([] : Script))).
  - reflexivity.
  - vm_compute. split; [discriminate|reflexivity].
  - vm_compute. discriminate.
  - simpl. lia.
Defined.

Lemma Twrite_payload_length fid offset data :
  length (documented_payload (Twrite fid offset data))
  = (16 + length data)%nat.
Proof.
  cbn [documented_payload].
  by rewrite !length_app, !le_bytes_length, byte_values_length.
Qed.

Section Overflow.
Context {T : Type} `{P9Transport T}.
Variable indeterminate : Z.

(** A [Twrite] whose data, capped at [iounit], leaves no room for the
    23 bytes that precede it is not sent. *)
Lemma Write_overflow fid offset buffer count c (w : T) :
  0 <= P9Client.fMsize c < 2 ^ 32 -> 0 <= P9Client.fIOUnit c ->
  0 <= count <= Z.of_nat (length buffer) ->
  P9Client.fMsize c - 23 < Z.min count (P9Client.fIOUnit c) ->
  P9Client.Write indeterminate fid offset buffer count c w
  = (B_BUFFER_OVERFLOW, count,
     P9Client.ReleaseTag (P9Client.AllocateTag c).1 (P9Client.AllocateTag c).2,
     w).
Proof.
  intros Hm Hio Hbuf Hbig. unfold P9Client.Write.
  rewrite P9Message_Init_new. cbn [negb is_ok].
  set (toWrite := if count >? P9Client.fIOUnit c
                  then P9Client.fIOUnit c else count) in *.
  assert (Hw : toWrite = Z.min count (P9Client.fIOUnit c))
    by (unfold toWrite; destruct (Z.gtb_spec count (P9Client.fIOUnit c)); lia).
  destruct (P9Client.AllocateTag c) as [tag c1]. cbn [fst snd].
  rewrite BuildWrite_take by lia.
  pose proof (build_request_frame tag
                (Twrite fid offset (take (Z.to_nat toWrite) buffer))
                (fresh_message (P9Client.fMsize c)) (P9Client.fMsize c)
                (fresh_message_wf _ (proj1 Hm)) eq_refl (proj2 Hm)) as HB.
  rewrite Twrite_payload_length, length_take in HB. revert HB.
  destruct (Z.leb_spec (7 + Z.of_nat (16 + Z.to_nat toWrite `min` length buffer))
              (P9Client.fMsize c)) as [Hfit|_]; [lia|].
  destruct (build_request _ _ _) as [st msg]. cbn [fst]. by intros ->.
Qed.

(** X22: With the [iounit] that [Connect] sets, [msize - 11], the cap on a
    write allows data that cannot fit a [Twrite] of [msize] bytes: a
    write of [msize - 22] bytes or more is refused by the builder with a
    buffer overflow before anything is sent, by the client and so by the
    first round of [Inode::Write]. *)
Theorem Write_near_msize_overflows fuel cookie fid pos offset buffer count i
    vol (w : T) :
  23 <= P9Client.fMsize (Volume.Client vol) < 2 ^ 32 ->
  P9Client.fIOUnit (Volume.Client vol)
  = P9Client.fMsize (Volume.Client vol) - P9_HEADER_SIZE - 4 ->
  P9Client.fMsize (Volume.Client vol) - 22 <= count <= Z.of_nat (length buffer) ->
  (exists c',
     P9Client.Write indeterminate fid offset buffer count (Volume.Client vol) w
     = (B_BUFFER_OVERFLOW, count, c', w)) /\
  (0 <= pos -> Volume.IsReadOnly vol = false ->
   exists vol',
     Inode.Write indeterminate (S fuel) cookie pos buffer count i vol w
     = Some (B_BUFFER_OVERFLOW, count, i, vol', w)).
Proof.
  intros Hm Hio Hcount. unfold P9_HEADER_SIZE in Hio. split.
  - eexists. apply Write_overflow; lia.
  - intros Hpos Hro. unfold Inode.Write.
    destruct (Z.ltb_spec pos 0); [lia|]. rewrite Hro.
    cbn [Inode.Write_loop]. destruct (Z.gtb_spec count 0); [|lia].
    set (iounit := P9Client.fIOUnit (Volume.Client vol)) in *.
    assert (Hn : uint32 (if count >? iounit then iounit else count)
                 = Z.min count iounit).
    { unfold uint32. destruct (Z.gtb_spec count iounit);
        rewrite Z.mod_small by lia; lia. }
    rewrite Hn, Write_overflow by (fold iounit; lia).
    cbn [negb is_ok]. eauto.
Qed.

End Overflow.

Lemma Write_near_msize_overflows_witness :
  (exists c',
     P9Client.Write 0 2 0 (replicate 50 7) 50
       (Volume.Client (mounted_volume 64 false)) ([] : Script)
     = (B_BUFFER_OVERFLOW, 50, c', [])) /\
  (0 <= 0 -> Volume.IsReadOnly (mounted_volume 64 false) = false ->
   exists vol',
     Inode.Write 0 1 open_cookie 0 (replicate 50 7) 50 file_inode
       (mounted_volume 64 false) ([] : Script)
     = Some (B_BUFFER_OVERFLOW, 50, file_inode, vol', [])).
Proof.
  apply (Write_near_msize_overflows 0 0 open_cookie 2 0 0 (replicate 50 7) 50
           file_inode (mounted_volume 64 false) ([] : Script)).
  - vm_compute. split; [discriminate|reflexivity].
  - vm_compute. reflexivity.
  - vm_compute. split; discriminate.
Defined.

(** *** Verification *)
Lemma response_of_pending msize data :
  Z.of_nat (length data) <= msize ->
  pending (P9Message.fBuffer (P9Client.response_of msize data)) data /\
  P9Buffer.fReadPos (P9Message.fBuffer (P9Client.response_of msize data)) = 0.
Proof.
  intros Hlen. unfold P9Client.response_of, pending. cbn.
  rewrite take_ge by lia. rewrite memcpy_length, length_replicate.
  repeat split; try lia.
  rewrite memcpy_spec by (rewrite length_replicate; lia).
  rewrite drop_0, take_0, app_nil_l, Nat2Z.id.
  by rewrite take_app_length.
Qed.

Lemma read_qids_pending qids b R :
  Forall qid_in_range qids ->
  pending b (concat (map qid_bytes qids) ++ R) ->
  exists b', P9Message.read_qids (length qids) b = (B_OK, qids, b') /\
             pending b' R.
Proof.
  intros Hq. revert b. induction Hq as [|q qids Hq _ IH]; intros b Hp.
  - simpl in *. eauto.
  - cbn [map concat length P9Message.read_qids] in *.
    unfold qid_bytes in Hp at 1. rewrite <- !app_assoc in Hp.
    destruct (ReadQid_pending b q _ Hq Hp) as (b1 & -> & Hp1).
    cbn [negb is_ok].
    destruct (IH b1 Hp1) as (b2 & -> & Hp2). eauto.
Qed.

Lemma read_uints_pending fields b R :
  Forall (fun f => f.1 = 4%nat \/ f.1 = 8%nat) fields ->
  fields_in_range fields ->
  pending b (uint_fields fields ++ R) ->
  exists b',
    P9Message.read_uints (map (fun f => Z.of_nat f.1) fields) b
    = (B_OK, map snd fields, b') /\
    pending b' R.
Proof.
  intros Hw. revert b. induction Hw as [|[w v] fields Hw _ IH]; intros b Hr Hp.
  - simpl in *. eauto.
  - apply Forall_cons_1 in Hr as [Hv Hr]. cbn [fst snd] in *.
    unfold uint_fields in Hp. cbn [map concat fst snd] in Hp.
    rewrite <- app_assoc in Hp. fold (uint_fields fields) in Hp.
    cbn [map P9Message.read_uints fst snd].
    destruct Hw as [-> | ->].
    + change (Z.of_nat 4 =? 4) with true. cbv iota.
      destruct (ReadUint32_pending b _ _ Hp) as (b1 & -> & Hp1);
        [by rewrite le_bytes_length|].
      cbn [negb is_ok]. rewrite le_round_trip by done.
      destruct (IH b1 Hr Hp1) as (b2 & -> & Hp2). eauto.
    + change (Z.of_nat 8 =? 4) with false. cbv iota.
      destruct (ReadUint64_pending b _ _ Hp) as (b1 & -> & Hp1);
        [by rewrite le_bytes_length|].
      cbn [negb is_ok]. rewrite le_round_trip by done.
      destruct (IH b1 Hr Hp1) as (b2 & -> & Hp2). eauto.
Qed.

Ltac read_field lemma Hp :=
  let b1 := fresh "b" in
  let Hp1 := fresh "Hp" in
  destruct (lemma _ _ _ Hp) as (b1 & -> & Hp1);
  [by rewrite le_bytes_length|];
  cbn [negb is_ok P9Message.with_buffer P9Message.fBuffer];
  rewrite ?le_round_trip by done.

Ltac read_qid Hq Hp :=
  let b1 := fresh "b" in
  let Hp1 := fresh "Hp" in
  unfold qid_bytes in Hp; rewrite <- ?app_assoc in Hp;
  destruct (ReadQid_pending _ _ _ Hq Hp) as (b1 & -> & Hp1);
  cbn [negb is_ok P9Message.with_buffer P9Message.fBuffer].

Ltac widths :=
  repeat (apply Forall_cons;
          [first [left; reflexivity | right; reflexivity]|]);
  apply Forall_nil.

(** A parser applied where the documented payload of its reply is
    pending returns the values of the reply. *)
Lemma reply_parsed limit r m R :
  reply_in_range limit r ->
  pending (P9Message.fBuffer m) (documented_reply r ++ R) ->
  exists m', parses_to limit r m m' /\
             pending (P9Message.fBuffer m') (unparsed r ++ R).
Proof.
  intros Hr Hp.
  destruct r; cbn [reply_in_range documented_reply parses_to unparsed] in *;
    rewrite <- ?app_assoc in Hp; rewrite ?app_nil_l.
  - (* Rlerror *)
    unfold P9Message.ParseLerror, P9Message.get.
    read_field ReadUint32_pending Hp. eauto.
  - (* Rversion *)
    destruct Hr as (Hms & Hlen & Hlim).
    unfold string_bytes in Hp. rewrite <- ?app_assoc in Hp.
    destruct (ParseVersion_pending m msize version limit R Hp Hms Hlen Hlim)
      as (m' & -> & Hp'). eauto.
  - (* Rattach *)
    unfold P9Message.ParseAttach, P9Message.get.
    read_qid Hr Hp. eauto.
  - (* Rwalk *)
    destruct Hr as (Hq & Hlen & Hlim).
    unfold P9Message.ParseWalk, P9Message.get.
    read_field ReadUint16_pending Hp.
    rewrite le_round_trip by (change (256 ^ Z.of_nat 2) with (2 ^ 16); lia).
    destruct (Z.gtb_spec (Z.of_nat (length qids)) limit); [lia|].
    rewrite Nat2Z.id.
    destruct (read_qids_pending qids _ R Hq Hp0) as (b' & -> & Hp'). eauto.
  - (* Rlopen *)
    destruct Hr as (Hq & Hio).
    unfold P9Message.ParseLopen, P9Message.get.
    read_qid Hq Hp. read_field ReadUint32_pending Hp0. eauto.
  - (* Rlcreate *)
    destruct Hr as (Hq & Hio).
    unfold P9Message.ParseLcreate, P9Message.get.
    read_qid Hq Hp. read_field ReadUint32_pending Hp0. eauto.
  - (* Rread *)
    unfold P9Message.ParseRead, P9Message.get.
    read_field ReadUint32_pending Hp.
    rewrite le_round_trip by (change (256 ^ Z.of_nat 4) with (2 ^ 32); lia).
    destruct (pending_load b data R (Z.of_nat (length data)) Hp0 eq_refl)
      as [Hl _].
    unfold P9Buffer.load in Hl. rewrite Nat2Z.id in Hl.
    eexists. split; [eexists; split; [reflexivity|exact Hl]|exact Hp0].
  - (* Rwrite *)
    unfold P9Message.ParseWrite, P9Message.get.
    read_field ReadUint32_pending Hp. eauto.
  - (* Rgetattr *)
    destruct Hr as (Hv & Hq & Hf).
    unfold P9Message.ParseGetattr, P9Message.get.
    read_field ReadUint64_pending Hp. read_qid Hq Hp0.
    destruct (read_uints_pending (attr_fields attr) _ R
                ltac:(widths) Hf Hp1) as (b' & Hread & Hp').
    cbn [map attr_fields fst snd] in Hread.
    change (Z.of_nat 4) with 4 in Hread. change (Z.of_nat 8) with 8 in Hread.
    rewrite Hread. destruct attr. eauto.
  - (* Rreaddir *)
    unfold P9Message.ParseReaddir, P9Message.get.
    read_field ReadUint32_pending Hp.
    rewrite le_round_trip by (change (256 ^ Z.of_nat 4) with (2 ^ 32); lia).
    destruct (pending_load b data R (Z.of_nat (length data)) Hp0 eq_refl)
      as [Hl _].
    unfold P9Buffer.load in Hl. rewrite Nat2Z.id in Hl.
    eexists. split; [eexists; split; [reflexivity|exact Hl]|exact Hp0].
  - (* Rmkdir *)
    unfold P9Message.ParseMkdir, P9Message.get.
    read_qid Hr Hp. eauto.
  - (* Rstatfs *)
    unfold P9Message.ParseStatfs, P9Message.get.
    destruct (read_uints_pending (statfs_fields statfs) _ R
                ltac:(widths) Hr Hp) as (b' & Hread & Hp').
    cbn [map statfs_fields fst snd] in Hread.
    change (Z.of_nat 4) with 4 in Hread. change (Z.of_nat 8) with 8 in Hread.
    rewrite Hread. destruct statfs. eauto.
  - (* Rreadlink *)
    destruct Hr as (Hlen & Hlim).
    unfold P9Message.ParseReadlink, P9Message.get.
    unfold string_bytes in Hp. rewrite <- ?app_assoc in Hp.
    destruct (ReadString_pending _ _ _ limit Hp Hlen Hlim) as (b' & -> & Hp').
    eauto.
  - (* Rsymlink *)
    unfold P9Message.ParseSymlink, P9Message.get.
    read_qid Hr Hp. eauto.
Qed.

Lemma reply_code_byte r : 0 <= reply_code r < 2 ^ 8.
Proof. by destruct r. Qed.

(** X23: A frame that carries the documented payload of a reply and fits
    [msize] is read back by [ReadHeader] and the parser of its kind as
    the type, the tag and the values it was made of. *)
Theorem reply_frame_parsed limit msize tag r :
  reply_in_range limit r -> 0 <= tag < 2 ^ 16 ->
  7 + Z.of_nat (length (documented_reply r)) <= msize -> msize < 2 ^ 32 ->
  exists m1 m2,
    P9Message.ReadHeader
      (P9Client.response_of msize
         (frame (reply_code r) tag (documented_reply r)))
    = (B_OK,
       (reply_code r, tag, 7 + Z.of_nat (length (documented_reply r))), m1) /\
    P9Message.Type_ m1 = reply_code r /\
    parses_to limit r m1 m2.
Proof.
  intros Hr Htag Hfit Hm.
  destruct (response_of_pending msize
              (frame (reply_code r) tag (documented_reply r))) as [Hp Hpos].
  { unfold frame. rewrite !length_app, !le_bytes_length. lia. }
  unfold frame in Hp at 2.
  destruct (ReadHeader_pending _ _ _ _ _ Hpos Hp ltac:(lia)
              (reply_code_byte r) Htag) as (m1 & Hhead & Hp1 & Hty).
  rewrite <- (app_nil_r (documented_reply r)) in Hp1.
  destruct (reply_parsed limit r m1 [] Hr Hp1) as (m2 & Hparse & _).
  exists m1, m2. by rewrite Hhead.
Qed.

Lemma reply_frame_parsed_witness :
  exists m1 m2,
    P9Message.ReadHeader
      (P9Client.response_of 64
         (frame (reply_code (Rlopen root_qid 53)) 1
            (documented_reply (Rlopen root_qid 53))))
    = (B_OK,
       (reply_code (Rlopen root_qid 53), 1,
        7 + Z.of_nat (length (documented_reply (Rlopen root_qid 53)))), m1) /\
    P9Message.Type_ m1 = reply_code (Rlopen root_qid 53) /\
    parses_to 0 (Rlopen root_qid 53) m1 m2.
Proof.
  apply (reply_frame_parsed 0 64 1 (Rlopen root_qid 53)).
  - split; [|lia]. vm_compute. repeat split; (discriminate || reflexivity).
  - lia.
  - vm_compute. discriminate.
  - lia.
Defined.

(** *** Verification *)
Lemma ReadStringAlloc_pending allocated str b s R :
  pending b (le_bytes 2 (Z.of_nat (length s)) ++ s ++ R) ->
  Z.of_nat (length s) < 2 ^ 16 ->
  exists b',
    P9Buffer.ReadStringAlloc allocated str b
    = (if allocated then B_OK else B_NO_MEMORY,
       if allocated then Some (s ++ [0]) else None,
       Z.of_nat (length s), b') /\
    pending b' (if allocated then R else s ++ R).
Proof.
  intros Hp Hlen. unfold P9Buffer.ReadStringAlloc.
  destruct (ReadUint16_pending b _ _ Hp) as (b1 & -> & Hp1);
    [by rewrite le_bytes_length|].
  cbn [negb is_ok].
  rewrite le_round_trip by (change (256 ^ Z.of_nat 2) with (2 ^ 16); lia).
  pose proof (pending_length _ _ Hp1) as Hl. rewrite length_app in Hl.
  case_match; [lia|].
  destruct allocated; cbn [negb]; [|eauto].
  destruct (pending_load b1 s R (Z.of_nat (length s)) Hp1) as [-> Hp2]; [done|].
  eauto.
Qed.

Lemma parser_new_pending data size :
  0 <= size <= Z.of_nat (length data) ->
  pending (P9DirEntryParser.new data size) (take (Z.to_nat size) data).
Proof.
  intros Hs. unfold P9DirEntryParser.new, pending. cbn.
  rewrite drop_0. repeat split; lia.
Qed.

(** X24: A parser over the documented entries of a directory returns them one
    [Next] at a time, each name with its terminating NUL, and has a next
    entry exactly while bytes remain.  When the memory for the name
    cannot be obtained, [Next] fails with [B_NO_MEMORY] after the qid,
    the offset and the type of the entry are stored: the name is NULL
    and its bytes are left unread. *)
Theorem P9DirEntryParser_Next_entry allocated entry qid offset type name p R :
  dirent_in_range qid offset type name ->
  pending p (dirent_bytes qid offset type name ++ R) ->
  exists p',
    P9DirEntryParser.Next allocated entry p
    = (if allocated then B_OK else B_NO_MEMORY,
       mkDirEnt qid offset type
         (if allocated then Some (name ++ [0]) else None),
       p') /\
    pending p' (if allocated then R else name ++ R) /\
    P9DirEntryParser.HasNext p = true /\
    (allocated = true ->
     P9DirEntryParser.HasNext p' = negb (bool_decide (R = []))).
Proof.
  intros (Hq & Ho & Ht & Hn) Hp.
  assert (Hnext : P9DirEntryParser.HasNext p = true).
  { pose proof (pending_length _ _ Hp) as Hl.
    unfold dirent_bytes, qid_bytes in Hl.
    rewrite !length_app, !le_bytes_length in Hl.
    unfold P9DirEntryParser.HasNext, P9Buffer.ReadRemaining.
    destruct (Z.gtb_spec (P9Buffer.fWritePos p - P9Buffer.fReadPos p) 0);
      [done|lia]. }
  unfold dirent_bytes, qid_bytes, string_bytes in Hp.
  rewrite <- !app_assoc in Hp. unfold P9DirEntryParser.Next.
  destruct (ReadQid_pending p _ _ Hq Hp) as (p1 & -> & Hp1).
  cbn [negb is_ok de_qid de_offset de_type de_name].
  destruct (ReadUint64_pending p1 _ _ Hp1) as (p2 & -> & Hp2);
    [by rewrite le_bytes_length|].
  cbn [negb is_ok de_qid de_offset de_type de_name].
  destruct (ReadUint8_pending p2 _ _ Hp2) as (p3 & -> & Hp3);
    [by rewrite le_bytes_length|].
  cbn [negb is_ok de_qid de_offset de_type de_name].
  destruct (ReadStringAlloc_pending allocated (de_name entry) p3 _ _ Hp3 Hn)
    as (p4 & -> & Hp4).
  rewrite !le_round_trip by done.
  exists p4. split; [by destruct allocated|]. split; [exact Hp4|].
  split; [exact Hnext|]. intros ->.
  pose proof (pending_length _ _ Hp4) as Hl.
  unfold P9DirEntryParser.HasNext, P9Buffer.ReadRemaining.
  destruct R as [|x R]; cbn [length] in Hl.
  - rewrite bool_decide_eq_true_2 by done.
    destruct (Z.gtb_spec (P9Buffer.fWritePos p4 - P9Buffer.fReadPos p4) 0);
      [lia|done].
  - rewrite bool_decide_eq_false_2 by done.
    destruct (Z.gtb_spec (P9Buffer.fWritePos p4 - P9Buffer.fReadPos p4) 0);
      [done|lia].
Qed.

Lemma P9DirEntryParser_Next_entry_witness :
  exists p',
    P9DirEntryParser.Next true (mkDirEnt (mkQid 0 0 0) 0 0 None)
      (P9DirEntryParser.new (dirent_bytes root_qid 1 4 [97] ++ []) 25)
    = (if true then B_OK else B_NO_MEMORY,
       mkDirEnt root_qid 1 4 (if true then Some ([97] ++ [0]) else None),
       p') /\
    pending p' (if true then [] else [97] ++ []) /\
    P9DirEntryParser.HasNext
      (P9DirEntryParser.new (dirent_bytes root_qid 1 4 [97] ++ []) 25)
    = true /\
    (true = true ->
     P9DirEntryParser.HasNext p' = negb (bool_decide (@nil Z = []))).
Proof.
  apply (P9DirEntryParser_Next_entry true (mkDirEnt (mkQid 0 0 0) 0 0 None)
           root_qid 1 4 [97]
           (P9DirEntryParser.new (dirent_bytes root_qid 1 4 [97] ++ []) 25)
           []).
  - vm_compute. repeat split; (discriminate || reflexivity).
  - apply (parser_new_pending (dirent_bytes root_qid 1 4 [97] ++ []) 25).
    vm_compute. split; discriminate.
Defined.
